(** * Tower Trials: a shallow embedding of the simulation core

    The three gameplay services of the Angular front end are embedded here:
    - [GameEngineService] (game-engine.service.ts): level generation, the
      per-frame [update], floor progression, [isWalkable];
    - [PlayerService] (player.service.ts): movement, attack, regeneration,
      damage, experience and upgrades;
    - [EnemyService] (enemy.service.ts): spawning, per-type AI, attack
      resolution, projectile sweeps and enemy death.

    Conventions of the embedding.
    - A TypeScript [number] is a rational [Q]; array indices, loop counters,
      the floor counter and the enemy id counter, which only ever hold
      integers, are [Z] or [nat].
    - The program divides by a value that can be zero in one place, the
      chase vector of the enemy AI; the quotient there is a [jsnum], which
      has the infinities and NaN, and [isWalkable] called with NaN reads a
      property of [undefined].
    - The statistics of a new enemy are products of small integers with
      [0.3] and [0.2], which no double holds exactly: [createEnemy]
      computes them in IEEE doubles (the kernel's [float]) and stores the
      rational the resulting double is.  Everywhere else the arithmetic is
      exact; the rounding of doubles is not modelled there.
    - The three services mutate each other through injected references, so
      every method is a computation over one [Game] record that holds the
      state of all three, in a state-and-failure monad [M]: [None] stands
      for an uncaught [TypeError] (reading a property of [undefined]).
    - [Math.random()], [Date.now()], the trigonometric functions and the
      implementation-defined shuffle of [Array.prototype.sort] belong to the
      JavaScript runtime; they are the fields of a [Runtime] record, and the
      [Game] counts the calls made so far to the first two.
    - Canvas drawing ([render], [renderLevel]) has no effect on the state
      and is left out. *)

From Stdlib Require Import Floats ZArith QArith Qround Qminmax Qabs Lia Lqa Bool String
  Permutation.
From stdpp Require Import base list.

Local Open Scope Q_scope.

(** ** Numbers and arrays *)

Definition number : Type := Q.

Definition Qltb (a b : Q) : bool := negb (Qle_bool b a).
Definition Qgtb (a b : Q) : bool := Qltb b a.
Definition Qgeb (a b : Q) : bool := Qle_bool b a.
Definition Qneqb (a b : Q) : bool := negb (Qeq_bool a b).

Definition Math_floor (x : Q) : Z := Qfloor x.

(** *** Results of a division

    A quotient whose divisor may be zero, and what is computed from it. *)
Inductive jsnum := Finite (q : number) | Infinite (negative : bool) | NaN.

(** [a / b] for finite [a] and [b]; a zero divisor here is [+0]. *)
Definition js_div (a b : number) : jsnum :=
  if Qeq_bool b 0 then
    if Qeq_bool a 0 then NaN else Infinite (Qltb a 0)
  else Finite (a / b).

(** [x * b] for a finite [b] *)
Definition js_mul (x : jsnum) (b : number) : jsnum :=
  match x with
  | Finite a => Finite (a * b)
  | Infinite negative =>
      if Qeq_bool b 0 then NaN else Infinite (xorb negative (Qltb b 0))
  | NaN => NaN
  end.

(** [a + x] for a finite [a] *)
Definition js_add (a : number) (x : jsnum) : jsnum :=
  match x with
  | Finite b => Finite (a + b)
  | Infinite negative => Infinite negative
  | NaN => NaN
  end.

(** *** IEEE doubles

    [double_of_Z z] is the double nearest to the integer [z] (the integer
    itself up to 2^53); [Q_of_double x] is the rational a finite double
    is.  A product too large for a double is [Infinity] in JavaScript; [Q]
    has none and [Q_of_double] gives 0 for it.  In [createEnemy] that needs
    a floor number above 10^305, and floors are counted up from 1.  A
    decimal constant in [float_scope] is the double nearest to it, as in
    JavaScript. *)
Set Warnings "-inexact-float".

Definition double_of_Z (z : Z) : float :=
  SF2Prim (binary_normalize prec emax z 0 false).

Definition Q_of_double (x : float) : number :=
  match Prim2SF x with
  | S754_finite negative m e =>
      let n := if negative then Zneg m else Zpos m in
      match e with
      | Z0 => inject_Z n
      | Zpos k => inject_Z (n * 2 ^ Zpos k)
      | Zneg k => n # (2 ^ k)
      end
  | _ => 0
  end.

(** [arr[i]] for an integer-valued index: [None] is [undefined]. *)
Definition arr_get {A : Type} (l : list A) (i : Z) : option A :=
  if (i <? 0)%Z then None else l !! Z.to_nat i.

(** The integers [lo, lo+1, ..., hi-1] of [for (let i = lo; i < hi; i++)]. *)
Definition Zrange (lo hi : Z) : list Z :=
  map (fun k => (lo + Z.of_nat k)%Z) (seq 0 (Z.to_nat (hi - lo))).

(** ** Data model *)

Record Vector2 := { vx_ : number; vy_ : number }.

Record GameStats := {
  gs_currentFloor : Z;
  gs_enemiesKilled : Z;
  gs_timeSurvived : number
}.

Inductive TileType := TFloor | TWall | TExit | TEntrance.

Record Tile := {
  tile_x : Z;
  tile_y : Z;
  tile_type : TileType;
  walkable : bool
}.

Inductive GameState := MENU | PLAYING | GAME_OVER | LEVEL_UP.

(** The [id] of a [LevelUpgrade]; its [effect] closure is [upgrade_effect]. *)
Inductive UpgradeId := U_health | U_damage | U_speed | U_attack_speed | U_regeneration.

Record PlayerStats := {
  st_health : number;
  st_maxHealth : number;
  st_xp : number;
  st_level : number;
  st_xpToNextLevel : number;
  st_damage : number;
  st_speed : number;
  st_attackSpeed : number
}.

Record PlayerInput := {
  in_up : bool;
  in_down : bool;
  in_left : bool;
  in_right : bool;
  in_attack : bool;
  mouseX : number;
  mouseY : number
}.

Record Player := {
  p_x : number;
  p_y : number;
  p_width : number;
  p_height : number;
  p_health : number;
  p_maxHealth : number;
  p_xp : number;
  p_level : number;
  p_damage : number;
  p_speed : number;
  p_attackSpeed : number;
  p_lastAttackTime : number;
  p_facing : number;
  p_hasRegeneration : bool;
  p_lastRegenTime : number
}.

(** Player and enemy projectiles have the same shape. *)
Record Projectile := {
  pr_x : number;
  pr_y : number;
  pr_vx : number;
  pr_vy : number;
  pr_damage : number;
  pr_lifetime : number
}.

Inductive EnemyType := melee | ranged | fast | boss.

(** [e_id] is the value of the counter whose decimal string is the [id];
    ids are only compared for equality. *)
Record Enemy := {
  e_id : nat;
  e_x : number;
  e_y : number;
  e_radius : number;
  e_health : number;
  e_maxHealth : number;
  e_damage : number;
  e_speed : number;
  e_type : EnemyType;
  e_attackCooldown : number;
  e_lastAttackTime : number;
  e_targetX : number;
  e_targetY : number;
  e_isAttacking : bool;
  e_patrolDirection : number;
  e_lastDirectionChange : number;
  e_color : string;
  e_xpValue : number
}.

Record Engine := {
  gameState : GameState;
  gameStats : GameStats;
  currentFloor : Z;
  enemiesKilled : Z;
  startTime : number;
  lastUpdateTime : number;
  tiles : list (list Tile);
  camera : Vector2;
  levelUpOptions : list UpgradeId;
  canvas_width : number;
  canvas_height : number
}.

Record PlayerService := {
  player : Player;
  playerStats : PlayerStats;
  currentInput : PlayerInput;
  projectiles : list Projectile
}.

Record EnemyService := {
  enemies : list Enemy;
  enemyProjectiles : list Projectile;
  nextEnemyId : nat
}.

Record Game := {
  engine : Engine;
  playerService : PlayerService;
  enemyService : EnemyService;
  random_calls : nat;
  clock_calls : nat
}.

(** The JavaScript runtime. *)
Record Runtime := {
  Math_random : nat -> number;
  Date_now : nat -> Z;
  Math_sqrt : number -> number;
  Math_cos : number -> number;
  Math_sin : number -> number;
  Math_atan2 : number -> number -> number;
  Math_PI : number;
  sort_random : nat -> list UpgradeId -> list UpgradeId * nat
}.

(** [Math.random()] returns a value in [0, 1). *)
Definition random_in_range (rt : Runtime) : Prop :=
  forall n, 0 <= Math_random rt n /\ Math_random rt n < 1.

(** ** Field updates *)

Definition levelWidth : Z := 50.
Definition levelHeight : Z := 50.
Definition tileSize : number := 32.

Definition eng_with_gameState (v : GameState) (e : Engine) : Engine :=
  {| gameState := v; gameStats := gameStats e; currentFloor := currentFloor e;
     enemiesKilled := enemiesKilled e; startTime := startTime e;
     lastUpdateTime := lastUpdateTime e; tiles := tiles e; camera := camera e;
     levelUpOptions := levelUpOptions e; canvas_width := canvas_width e;
     canvas_height := canvas_height e |}.

Definition eng_with_gameStats (v : GameStats) (e : Engine) : Engine :=
  {| gameState := gameState e; gameStats := v; currentFloor := currentFloor e;
     enemiesKilled := enemiesKilled e; startTime := startTime e;
     lastUpdateTime := lastUpdateTime e; tiles := tiles e; camera := camera e;
     levelUpOptions := levelUpOptions e; canvas_width := canvas_width e;
     canvas_height := canvas_height e |}.

Definition eng_with_currentFloor (v : Z) (e : Engine) : Engine :=
  {| gameState := gameState e; gameStats := gameStats e; currentFloor := v;
     enemiesKilled := enemiesKilled e; startTime := startTime e;
     lastUpdateTime := lastUpdateTime e; tiles := tiles e; camera := camera e;
     levelUpOptions := levelUpOptions e; canvas_width := canvas_width e;
     canvas_height := canvas_height e |}.

Definition eng_with_enemiesKilled (v : Z) (e : Engine) : Engine :=
  {| gameState := gameState e; gameStats := gameStats e; currentFloor := currentFloor e;
     enemiesKilled := v; startTime := startTime e;
     lastUpdateTime := lastUpdateTime e; tiles := tiles e; camera := camera e;
     levelUpOptions := levelUpOptions e; canvas_width := canvas_width e;
     canvas_height := canvas_height e |}.

Definition eng_with_startTime (v : number) (e : Engine) : Engine :=
  {| gameState := gameState e; gameStats := gameStats e; currentFloor := currentFloor e;
     enemiesKilled := enemiesKilled e; startTime := v;
     lastUpdateTime := lastUpdateTime e; tiles := tiles e; camera := camera e;
     levelUpOptions := levelUpOptions e; canvas_width := canvas_width e;
     canvas_height := canvas_height e |}.

Definition eng_with_lastUpdateTime (v : number) (e : Engine) : Engine :=
  {| gameState := gameState e; gameStats := gameStats e; currentFloor := currentFloor e;
     enemiesKilled := enemiesKilled e; startTime := startTime e;
     lastUpdateTime := v; tiles := tiles e; camera := camera e;
     levelUpOptions := levelUpOptions e; canvas_width := canvas_width e;
     canvas_height := canvas_height e |}.

Definition eng_with_tiles (v : list (list Tile)) (e : Engine) : Engine :=
  {| gameState := gameState e; gameStats := gameStats e; currentFloor := currentFloor e;
     enemiesKilled := enemiesKilled e; startTime := startTime e;
     lastUpdateTime := lastUpdateTime e; tiles := v; camera := camera e;
     levelUpOptions := levelUpOptions e; canvas_width := canvas_width e;
     canvas_height := canvas_height e |}.

Definition eng_with_camera (v : Vector2) (e : Engine) : Engine :=
  {| gameState := gameState e; gameStats := gameStats e; currentFloor := currentFloor e;
     enemiesKilled := enemiesKilled e; startTime := startTime e;
     lastUpdateTime := lastUpdateTime e; tiles := tiles e; camera := v;
     levelUpOptions := levelUpOptions e; canvas_width := canvas_width e;
     canvas_height := canvas_height e |}.

Definition eng_with_levelUpOptions (v : list UpgradeId) (e : Engine) : Engine :=
  {| gameState := gameState e; gameStats := gameStats e; currentFloor := currentFloor e;
     enemiesKilled := enemiesKilled e; startTime := startTime e;
     lastUpdateTime := lastUpdateTime e; tiles := tiles e; camera := camera e;
     levelUpOptions := v; canvas_width := canvas_width e;
     canvas_height := canvas_height e |}.

Definition pl_with_pos (x y : number) (p : Player) : Player :=
  {| p_x := x; p_y := y; p_width := p_width p; p_height := p_height p;
     p_health := p_health p; p_maxHealth := p_maxHealth p; p_xp := p_xp p;
     p_level := p_level p; p_damage := p_damage p; p_speed := p_speed p;
     p_attackSpeed := p_attackSpeed p; p_lastAttackTime := p_lastAttackTime p;
     p_facing := p_facing p; p_hasRegeneration := p_hasRegeneration p;
     p_lastRegenTime := p_lastRegenTime p |}.

Definition pl_with_health (v : number) (p : Player) : Player :=
  {| p_x := p_x p; p_y := p_y p; p_width := p_width p; p_height := p_height p;
     p_health := v; p_maxHealth := p_maxHealth p; p_xp := p_xp p;
     p_level := p_level p; p_damage := p_damage p; p_speed := p_speed p;
     p_attackSpeed := p_attackSpeed p; p_lastAttackTime := p_lastAttackTime p;
     p_facing := p_facing p; p_hasRegeneration := p_hasRegeneration p;
     p_lastRegenTime := p_lastRegenTime p |}.

Definition pl_with_maxHealth (v : number) (p : Player) : Player :=
  {| p_x := p_x p; p_y := p_y p; p_width := p_width p; p_height := p_height p;
     p_health := p_health p; p_maxHealth := v; p_xp := p_xp p;
     p_level := p_level p; p_damage := p_damage p; p_speed := p_speed p;
     p_attackSpeed := p_attackSpeed p; p_lastAttackTime := p_lastAttackTime p;
     p_facing := p_facing p; p_hasRegeneration := p_hasRegeneration p;
     p_lastRegenTime := p_lastRegenTime p |}.

Definition pl_with_xp (v : number) (p : Player) : Player :=
  {| p_x := p_x p; p_y := p_y p; p_width := p_width p; p_height := p_height p;
     p_health := p_health p; p_maxHealth := p_maxHealth p; p_xp := v;
     p_level := p_level p; p_damage := p_damage p; p_speed := p_speed p;
     p_attackSpeed := p_attackSpeed p; p_lastAttackTime := p_lastAttackTime p;
     p_facing := p_facing p; p_hasRegeneration := p_hasRegeneration p;
     p_lastRegenTime := p_lastRegenTime p |}.

Definition pl_with_level (v : number) (p : Player) : Player :=
  {| p_x := p_x p; p_y := p_y p; p_width := p_width p; p_height := p_height p;
     p_health := p_health p; p_maxHealth := p_maxHealth p; p_xp := p_xp p;
     p_level := v; p_damage := p_damage p; p_speed := p_speed p;
     p_attackSpeed := p_attackSpeed p; p_lastAttackTime := p_lastAttackTime p;
     p_facing := p_facing p; p_hasRegeneration := p_hasRegeneration p;
     p_lastRegenTime := p_lastRegenTime p |}.

Definition pl_with_damage (v : number) (p : Player) : Player :=
  {| p_x := p_x p; p_y := p_y p; p_width := p_width p; p_height := p_height p;
     p_health := p_health p; p_maxHealth := p_maxHealth p; p_xp := p_xp p;
     p_level := p_level p; p_damage := v; p_speed := p_speed p;
     p_attackSpeed := p_attackSpeed p; p_lastAttackTime := p_lastAttackTime p;
     p_facing := p_facing p; p_hasRegeneration := p_hasRegeneration p;
     p_lastRegenTime := p_lastRegenTime p |}.

Definition pl_with_speed (v : number) (p : Player) : Player :=
  {| p_x := p_x p; p_y := p_y p; p_width := p_width p; p_height := p_height p;
     p_health := p_health p; p_maxHealth := p_maxHealth p; p_xp := p_xp p;
     p_level := p_level p; p_damage := p_damage p; p_speed := v;
     p_attackSpeed := p_attackSpeed p; p_lastAttackTime := p_lastAttackTime p;
     p_facing := p_facing p; p_hasRegeneration := p_hasRegeneration p;
     p_lastRegenTime := p_lastRegenTime p |}.

Definition pl_with_attackSpeed (v : number) (p : Player) : Player :=
  {| p_x := p_x p; p_y := p_y p; p_width := p_width p; p_height := p_height p;
     p_health := p_health p; p_maxHealth := p_maxHealth p; p_xp := p_xp p;
     p_level := p_level p; p_damage := p_damage p; p_speed := p_speed p;
     p_attackSpeed := v; p_lastAttackTime := p_lastAttackTime p;
     p_facing := p_facing p; p_hasRegeneration := p_hasRegeneration p;
     p_lastRegenTime := p_lastRegenTime p |}.

Definition pl_with_lastAttackTime (v : number) (p : Player) : Player :=
  {| p_x := p_x p; p_y := p_y p; p_width := p_width p; p_height := p_height p;
     p_health := p_health p; p_maxHealth := p_maxHealth p; p_xp := p_xp p;
     p_level := p_level p; p_damage := p_damage p; p_speed := p_speed p;
     p_attackSpeed := p_attackSpeed p; p_lastAttackTime := v;
     p_facing := p_facing p; p_hasRegeneration := p_hasRegeneration p;
     p_lastRegenTime := p_lastRegenTime p |}.

Definition pl_with_facing (v : number) (p : Player) : Player :=
  {| p_x := p_x p; p_y := p_y p; p_width := p_width p; p_height := p_height p;
     p_health := p_health p; p_maxHealth := p_maxHealth p; p_xp := p_xp p;
     p_level := p_level p; p_damage := p_damage p; p_speed := p_speed p;
     p_attackSpeed := p_attackSpeed p; p_lastAttackTime := p_lastAttackTime p;
     p_facing := v; p_hasRegeneration := p_hasRegeneration p;
     p_lastRegenTime := p_lastRegenTime p |}.

Definition pl_with_regeneration (b : bool) (t : number) (p : Player) : Player :=
  {| p_x := p_x p; p_y := p_y p; p_width := p_width p; p_height := p_height p;
     p_health := p_health p; p_maxHealth := p_maxHealth p; p_xp := p_xp p;
     p_level := p_level p; p_damage := p_damage p; p_speed := p_speed p;
     p_attackSpeed := p_attackSpeed p; p_lastAttackTime := p_lastAttackTime p;
     p_facing := p_facing p; p_hasRegeneration := b;
     p_lastRegenTime := t |}.

Definition en_with_pos (x y : number) (e : Enemy) : Enemy :=
  {| e_id := e_id e; e_x := x; e_y := y; e_radius := e_radius e;
     e_health := e_health e; e_maxHealth := e_maxHealth e; e_damage := e_damage e;
     e_speed := e_speed e; e_type := e_type e; e_attackCooldown := e_attackCooldown e;
     e_lastAttackTime := e_lastAttackTime e; e_targetX := e_targetX e;
     e_targetY := e_targetY e; e_isAttacking := e_isAttacking e;
     e_patrolDirection := e_patrolDirection e;
     e_lastDirectionChange := e_lastDirectionChange e; e_color := e_color e;
     e_xpValue := e_xpValue e |}.

Definition en_with_health (v : number) (e : Enemy) : Enemy :=
  {| e_id := e_id e; e_x := e_x e; e_y := e_y e; e_radius := e_radius e;
     e_health := v; e_maxHealth := e_maxHealth e; e_damage := e_damage e;
     e_speed := e_speed e; e_type := e_type e; e_attackCooldown := e_attackCooldown e;
     e_lastAttackTime := e_lastAttackTime e; e_targetX := e_targetX e;
     e_targetY := e_targetY e; e_isAttacking := e_isAttacking e;
     e_patrolDirection := e_patrolDirection e;
     e_lastDirectionChange := e_lastDirectionChange e; e_color := e_color e;
     e_xpValue := e_xpValue e |}.

Definition en_with_lastAttackTime (v : number) (e : Enemy) : Enemy :=
  {| e_id := e_id e; e_x := e_x e; e_y := e_y e; e_radius := e_radius e;
     e_health := e_health e; e_maxHealth := e_maxHealth e; e_damage := e_damage e;
     e_speed := e_speed e; e_type := e_type e; e_attackCooldown := e_attackCooldown e;
     e_lastAttackTime := v; e_targetX := e_targetX e;
     e_targetY := e_targetY e; e_isAttacking := e_isAttacking e;
     e_patrolDirection := e_patrolDirection e;
     e_lastDirectionChange := e_lastDirectionChange e; e_color := e_color e;
     e_xpValue := e_xpValue e |}.

Definition en_with_isAttacking (v : bool) (e : Enemy) : Enemy :=
  {| e_id := e_id e; e_x := e_x e; e_y := e_y e; e_radius := e_radius e;
     e_health := e_health e; e_maxHealth := e_maxHealth e; e_damage := e_damage e;
     e_speed := e_speed e; e_type := e_type e; e_attackCooldown := e_attackCooldown e;
     e_lastAttackTime := e_lastAttackTime e; e_targetX := e_targetX e;
     e_targetY := e_targetY e; e_isAttacking := v;
     e_patrolDirection := e_patrolDirection e;
     e_lastDirectionChange := e_lastDirectionChange e; e_color := e_color e;
     e_xpValue := e_xpValue e |}.

Definition en_with_patrol (dir t : number) (e : Enemy) : Enemy :=
  {| e_id := e_id e; e_x := e_x e; e_y := e_y e; e_radius := e_radius e;
     e_health := e_health e; e_maxHealth := e_maxHealth e; e_damage := e_damage e;
     e_speed := e_speed e; e_type := e_type e; e_attackCooldown := e_attackCooldown e;
     e_lastAttackTime := e_lastAttackTime e; e_targetX := e_targetX e;
     e_targetY := e_targetY e; e_isAttacking := e_isAttacking e;
     e_patrolDirection := dir;
     e_lastDirectionChange := t; e_color := e_color e;
     e_xpValue := e_xpValue e |}.

(** [enemy.x = newX; enemy.y = newY] in the chase of the enemy AI.  It is
    done only after [isWalkable(newX, newY)] has answered [true], which it
    does for finite coordinates only. *)
Definition en_moved (x y : jsnum) (e : Enemy) : Enemy :=
  match x, y with
  | Finite x, Finite y => en_with_pos x y e
  | _, _ => e
  end.

Definition pr_moved (x y lifetime : number) (p : Projectile) : Projectile :=
  {| pr_x := x; pr_y := y; pr_vx := pr_vx p; pr_vy := pr_vy p;
     pr_damage := pr_damage p; pr_lifetime := lifetime |}.

Definition tile_with_type (ty : TileType) (t : Tile) : Tile :=
  {| tile_x := tile_x t; tile_y := tile_y t; tile_type := ty; walkable := walkable t |}.

Definition ps_with_player (v : Player) (s : PlayerService) : PlayerService :=
  {| player := v; playerStats := playerStats s; currentInput := currentInput s;
     projectiles := projectiles s |}.

Definition ps_with_playerStats (v : PlayerStats) (s : PlayerService) : PlayerService :=
  {| player := player s; playerStats := v; currentInput := currentInput s;
     projectiles := projectiles s |}.

Definition ps_with_currentInput (v : PlayerInput) (s : PlayerService) : PlayerService :=
  {| player := player s; playerStats := playerStats s; currentInput := v;
     projectiles := projectiles s |}.

Definition ps_with_projectiles (v : list Projectile) (s : PlayerService) : PlayerService :=
  {| player := player s; playerStats := playerStats s; currentInput := currentInput s;
     projectiles := v |}.

Definition es_with_enemies (v : list Enemy) (s : EnemyService) : EnemyService :=
  {| enemies := v; enemyProjectiles := enemyProjectiles s; nextEnemyId := nextEnemyId s |}.

Definition es_with_enemyProjectiles (v : list Projectile) (s : EnemyService) : EnemyService :=
  {| enemies := enemies s; enemyProjectiles := v; nextEnemyId := nextEnemyId s |}.

Definition es_with_nextEnemyId (v : nat) (s : EnemyService) : EnemyService :=
  {| enemies := enemies s; enemyProjectiles := enemyProjectiles s; nextEnemyId := v |}.

Definition with_engine (f : Engine -> Engine) (g : Game) : Game :=
  {| engine := f (engine g); playerService := playerService g;
     enemyService := enemyService g; random_calls := random_calls g;
     clock_calls := clock_calls g |}.

Definition with_playerService (f : PlayerService -> PlayerService) (g : Game) : Game :=
  {| engine := engine g; playerService := f (playerService g);
     enemyService := enemyService g; random_calls := random_calls g;
     clock_calls := clock_calls g |}.

Definition with_enemyService (f : EnemyService -> EnemyService) (g : Game) : Game :=
  {| engine := engine g; playerService := playerService g;
     enemyService := f (enemyService g); random_calls := random_calls g;
     clock_calls := clock_calls g |}.

Definition with_player (f : Player -> Player) : Game -> Game :=
  with_playerService (fun s => ps_with_player (f (player s)) s).

(** ** The monad of methods *)

Definition M (A : Type) : Type := Game -> option (A * Game).

Definition ret {A : Type} (a : A) : M A := fun g => Some (a, g).

Definition bind {A B : Type} (m : M A) (k : A -> M B) : M B :=
  fun g => match m g with
           | Some (a, g') => k a g'
           | None => None
           end.

Definition throw {A : Type} : M A := fun _ => None.

Definition get : M Game := fun g => Some (g, g).

Definition modify (f : Game -> Game) : M unit := fun g => Some (tt, f g).

Definition lift_option {A : Type} (o : option A) : M A :=
  match o with
  | Some a => ret a
  | None => throw
  end.

Notation "'let*' x ':=' m 'in' k" := (bind m (fun x => k))
  (at level 10, x name, m at level 100, k at level 200).
Notation "'let*' ' p ':=' m 'in' k" := (bind m (fun p => k))
  (at level 10, p pattern, m at level 100, k at level 200).
Notation "m '>>' k" := (bind m (fun _ => k))
  (at level 90, right associativity).

Definition when (b : bool) (m : M unit) : M unit := if b then m else ret tt.

(** [for (const a of l) f(a)] / [l.forEach(f)] over a list fixed beforehand. *)
Fixpoint forM_ {A : Type} (l : list A) (f : A -> M unit) : M unit :=
  match l with
  | [] => ret tt
  | a :: l' => f a >> forM_ l' f
  end.

(** [l.filter(f)] for a callback with effects; [f] returns the element as it
    has mutated it and the verdict. *)
Fixpoint filterM {A : Type} (f : A -> M (A * bool)) (l : list A) : M (list A) :=
  match l with
  | [] => ret []
  | a :: l' =>
      let* '(a', keep) := f a in
      let* rest := filterM f l' in
      ret (if keep then a' :: rest else rest)
  end.

(** ** Tile grids *)

Abbreviation grid := (list (list Tile)).

(** [tiles[y][x]]; [None] when the row or the cell is [undefined]. *)
Definition tile_at (tl : grid) (x y : Z) : option Tile :=
  match arr_get tl y with
  | Some row => arr_get row x
  | None => None
  end.

(** [tiles[y][x] = t] on an existing cell.  A write outside the cells of a
    row is accepted by JavaScript (it grows the row, or adds a property);
    level generation never does one ([generateLevel_returns]), and the
    model, which has no sparse rows, gives [None] there as it does for a
    missing row. *)
Definition grid_set (tl : grid) (x y : Z) (t : Tile) : option grid :=
  match arr_get tl y with
  | Some row =>
      if (0 <=? x)%Z && (x <? Z.of_nat (length row))%Z
      then Some (<[Z.to_nat y := <[Z.to_nat x := t]> row]> tl)
      else None
  | None => None
  end.

(** [tiles[y][x].type = ty] *)
Definition grid_set_type (tl : grid) (x y : Z) (ty : TileType) : option grid :=
  match tile_at tl x y with
  | Some t => grid_set tl x y (tile_with_type ty t)
  | None => None
  end.

Definition wall_tile (x y : Z) : Tile :=
  {| tile_x := x; tile_y := y; tile_type := TWall; walkable := false |}.

Definition floor_tile (x y : Z) : Tile :=
  {| tile_x := x; tile_y := y; tile_type := TFloor; walkable := true |}.

(** The grid after the initialisation loops of [generateLevel]. *)
Definition wall_grid : grid :=
  map (fun y => map (fun x => wall_tile x y) (Zrange 0 levelWidth)) (Zrange 0 levelHeight).

(** The cells in the order the two nested loops of [placeEntranceAndExit]
    visit them, as pairs [(x, y)]. *)
Definition scan_order : list (Z * Z) :=
  flat_map (fun y => map (fun x => (x, y)) (Zrange 0 levelWidth)) (Zrange 0 levelHeight).

Fixpoint collect_walkable (tl : grid) (cs : list (Z * Z)) : option (list (Z * Z)) :=
  match cs with
  | [] => Some []
  | (x, y) :: cs' =>
      match tile_at tl x y with
      | Some t =>
          match collect_walkable tl cs' with
          | Some r => Some (if walkable t then (x, y) :: r else r)
          | None => None
          end
      | None => None
      end
  end.

(** The array [floorTiles] of [placeEntranceAndExit]. *)
Definition floorTiles (tl : grid) : option (list (Z * Z)) :=
  collect_walkable tl scan_order.

(** The body of [isWalkable] on a given tile array. *)
Definition isWalkable_on (tl : grid) (x y : number) : option bool :=
  let tileX := Math_floor (x / tileSize) in
  let tileY := Math_floor (y / tileSize) in
  if (tileX <? 0)%Z || (tileX >=? levelWidth)%Z || (tileY <? 0)%Z || (tileY >=? levelHeight)%Z
  then Some false
  else match tile_at tl tileX tileY with
       | Some t => Some (walkable t)
       | None => None
       end.

Definition allUpgrades : list UpgradeId :=
  [U_health; U_damage; U_speed; U_attack_speed; U_regeneration].

Definition default_player : Player :=
  {| p_x := 400; p_y := 300; p_width := 24; p_height := 24;
     p_health := 100; p_maxHealth := 100; p_xp := 0; p_level := 1;
     p_damage := 10; p_speed := 150; p_attackSpeed := 1;
     p_lastAttackTime := 0; p_facing := 0; p_hasRegeneration := false;
     p_lastRegenTime := 0 |}.

Definition getXPRequirement (level : number) : number := level * 100.

Definition stats_of (p : Player) : PlayerStats :=
  {| st_health := p_health p; st_maxHealth := p_maxHealth p; st_xp := p_xp p;
     st_level := p_level p; st_xpToNextLevel := getXPRequirement (p_level p);
     st_damage := p_damage p; st_speed := p_speed p;
     st_attackSpeed := p_attackSpeed p |}.

Section Services.

Variable rt : Runtime.

(** [Math.random()] and [Date.now()] *)
Definition js_random : M number :=
  fun g => Some (Math_random rt (random_calls g),
                 {| engine := engine g; playerService := playerService g;
                    enemyService := enemyService g;
                    random_calls := S (random_calls g);
                    clock_calls := clock_calls g |}).

Definition js_now : M number :=
  fun g => Some (inject_Z (Date_now rt (clock_calls g)),
                 {| engine := engine g; playerService := playerService g;
                    enemyService := enemyService g;
                    random_calls := random_calls g;
                    clock_calls := S (clock_calls g) |}).

(** *** GameEngineService: what the other two services call *)

Definition isWalkable (x y : number) : M bool :=
  let* g := get in
  lift_option (isWalkable_on (tiles (engine g)) x y).

(** [isWalkable(x, y)] for coordinates that may be infinite or NaN.  The
    tile index of an infinite coordinate is that infinity, so one of the
    four comparisons of the guard holds and the answer is [false].  Every
    comparison with NaN fails: a NaN index passes the guard unless the
    other index is out of range, and [tiles[tileY][tileX]] with a NaN index
    is [undefined], whose property cannot be read. *)
Definition isWalkable_js (x y : jsnum) : M bool :=
  match x, y with
  | Finite x, Finite y => isWalkable x y
  | Infinite _, _ => ret false
  | _, Infinite _ => ret false
  | NaN, NaN => throw
  | NaN, Finite y =>
      let tileY := Math_floor (y / tileSize) in
      if (tileY <? 0)%Z || (tileY >=? levelHeight)%Z then ret false else throw
  | Finite x, NaN =>
      let tileX := Math_floor (x / tileSize) in
      if (tileX <? 0)%Z || (tileX >=? levelWidth)%Z then ret false else throw
  end.

Definition stopGame : M unit :=
  modify (with_engine (eng_with_gameState GAME_OVER)).

Definition goToMenu : M unit :=
  modify (with_engine (eng_with_gameState MENU)).

Definition generateLevelUpOptions : M unit :=
  modify (with_engine (eng_with_levelUpOptions [])) >>
  let* g := get in
  let '(shuffled, n) := sort_random rt (random_calls g) allUpgrades in
  modify (fun g => {| engine := eng_with_levelUpOptions (take 3 shuffled) (engine g);
                      playerService := playerService g;
                      enemyService := enemyService g;
                      random_calls := n;
                      clock_calls := clock_calls g |}).

Definition showLevelUpScreen : M unit :=
  generateLevelUpOptions >>
  modify (with_engine (eng_with_gameState LEVEL_UP)).

Definition onEnemyKilled : M unit :=
  modify (with_engine (fun e => eng_with_enemiesKilled (enemiesKilled e + 1)%Z e)).

(** *** PlayerService *)

Definition getPlayer : M Player :=
  let* g := get in ret (player (playerService g)).

Definition updatePlayerStats : M unit :=
  modify (with_playerService (fun s => ps_with_playerStats (stats_of (player s)) s)).

Definition resetPlayer : M unit :=
  modify (with_playerService (ps_with_player default_player)) >>
  modify (with_playerService (ps_with_projectiles [])) >>
  updatePlayerStats.

Definition updateInput (input : PlayerInput) : M unit :=
  modify (with_playerService (ps_with_currentInput input)).

Definition setPosition (x y : number) : M unit :=
  modify (with_player (pl_with_pos x y)).

Definition handleMovement (deltaTime : number) : M unit :=
  let* g := get in
  let input := currentInput (playerService g) in
  let p := player (playerService g) in
  let moveX := 0 in
  let moveY := 0 in
  let moveX := if in_left input then moveX - 1 else moveX in
  let moveX := if in_right input then moveX + 1 else moveX in
  let moveY := if in_up input then moveY - 1 else moveY in
  let moveY := if in_down input then moveY + 1 else moveY in
  let diagonal := Qneqb moveX 0 && Qneqb moveY 0 in
  let moveX := if diagonal then moveX * 0.707 else moveX in
  let moveY := if diagonal then moveY * 0.707 else moveY in
  let speed := p_speed p * (deltaTime / 1000) in
  let newX := p_x p + moveX * speed in
  let newY := p_y p + moveY * speed in
  modify (with_player (pl_with_pos newX newY)) >>
  when (Qneqb (mouseX input) 0 || Qneqb (mouseY input) 0)
    (let worldMouseX := mouseX input + vx_ (camera (engine g)) in
     let worldMouseY := mouseY input + vy_ (camera (engine g)) in
     let dx := worldMouseX - newX in
     let dy := worldMouseY - newY in
     modify (with_player (pl_with_facing (Math_atan2 rt dy dx)))).

Definition attack : M unit :=
  let* p := getPlayer in
  let projectileSpeed := 300 in
  let projectile :=
    {| pr_x := p_x p; pr_y := p_y p;
       pr_vx := Math_cos rt (p_facing p) * projectileSpeed;
       pr_vy := Math_sin rt (p_facing p) * projectileSpeed;
       pr_damage := p_damage p;
       pr_lifetime := 2000 |} in
  modify (with_playerService (fun s => ps_with_projectiles (projectiles s ++ [projectile]) s)).

Definition handleAttack : M unit :=
  let* g := get in
  when (in_attack (currentInput (playerService g)))
    (let* now := js_now in
     let* p := getPlayer in
     let attackCooldown := 1000 / p_attackSpeed p in
     when (Qgtb (now - p_lastAttackTime p) attackCooldown)
       (attack >>
        modify (with_player (pl_with_lastAttackTime now)))).

Definition handleRegeneration (deltaTime : number) : M unit :=
  let* p := getPlayer in
  when (p_hasRegeneration p && Qltb (p_health p) (p_maxHealth p))
    (let* now := js_now in
     when (Qgtb (now - p_lastRegenTime p) 1000)
       (modify (with_player (fun p =>
          pl_with_regeneration (p_hasRegeneration p) now
            (pl_with_health (Qmin (p_maxHealth p) (p_health p + 2)) p))) >>
        updatePlayerStats)).

Definition updateProjectiles (deltaTime : number) : M unit :=
  let dt := deltaTime / 1000 in
  let* g := get in
  let* kept :=
    filterM (fun projectile =>
      let projectile :=
        pr_moved (pr_x projectile + pr_vx projectile * dt)
                 (pr_y projectile + pr_vy projectile * dt)
                 (pr_lifetime projectile - deltaTime) projectile in
      if Qle_bool (pr_lifetime projectile) 0 then ret (projectile, false)
      else
        let* w := isWalkable (pr_x projectile) (pr_y projectile) in
        if negb w then ret (projectile, false)
        else ret (projectile, true))
      (projectiles (playerService g)) in
  modify (with_playerService (ps_with_projectiles kept)).

Definition PlayerService_update (deltaTime : number) : M unit :=
  handleMovement deltaTime >>
  handleAttack >>
  handleRegeneration deltaTime >>
  updateProjectiles deltaTime.

Definition onPlayerDeath : M unit := stopGame.

Definition takeDamage (damage : number) : M unit :=
  modify (with_player (fun p => pl_with_health (Qmax 0 (p_health p - damage)) p)) >>
  updatePlayerStats >>
  let* p := getPlayer in
  when (Qle_bool (p_health p) 0) onPlayerDeath.

Definition handleWallCollision : M unit := ret tt.

Definition levelUp : M unit :=
  modify (with_player (fun p => pl_with_level (p_level p + 1) p)) >>
  modify (with_player (pl_with_xp 0)) >>
  showLevelUpScreen >>
  updatePlayerStats.

Definition gainXP (amount : number) : M unit :=
  modify (with_player (fun p => pl_with_xp (p_xp p + amount) p)) >>
  let* p := getPlayer in
  let xpRequired := getXPRequirement (p_level p) in
  when (Qgeb (p_xp p) xpRequired) levelUp >>
  updatePlayerStats.

Definition upgradeMaxHealth (amount : number) : M unit :=
  modify (with_player (fun p => pl_with_maxHealth (p_maxHealth p + amount) p)) >>
  modify (with_player (fun p => pl_with_health (p_health p + amount) p)) >>
  updatePlayerStats.

Definition upgradeDamage (amount : number) : M unit :=
  modify (with_player (fun p => pl_with_damage (p_damage p + amount) p)) >>
  updatePlayerStats.

Definition upgradeSpeed (multiplier : number) : M unit :=
  modify (with_player (fun p => pl_with_speed (p_speed p * (1 + multiplier)) p)) >>
  updatePlayerStats.

Definition upgradeAttackSpeed (multiplier : number) : M unit :=
  modify (with_player (fun p => pl_with_attackSpeed (p_attackSpeed p * (1 + multiplier)) p)) >>
  updatePlayerStats.

Definition enableRegeneration : M unit :=
  let* now := js_now in
  modify (with_player (pl_with_regeneration true now)).

(** The first enemy of the array within reach of the projectile. *)
Definition first_hit (projectile : Projectile) (enemies : list Enemy) : option Enemy :=
  find (fun enemy =>
          let dx := pr_x projectile - e_x enemy in
          let dy := pr_y projectile - e_y enemy in
          let distance := Math_sqrt rt (dx * dx + dy * dy) in
          Qltb distance (e_radius enemy + 3)) enemies.

(** A hit [{enemy, damage}] holds a reference to the enemy object; the
    reference is the enemy's id. *)
Fixpoint scan_hits (ps : list Projectile) (enemies : list Enemy)
  : list Projectile * list (nat * number) :=
  match ps with
  | [] => ([], [])
  | projectile :: ps' =>
      let '(kept, hits) := scan_hits ps' enemies in
      match first_hit projectile enemies with
      | Some enemy => (kept, (e_id enemy, pr_damage projectile) :: hits)
      | None => (projectile :: kept, hits)
      end
  end.

Definition checkProjectileEnemyCollision (enemies : list Enemy) : M (list (nat * number)) :=
  let* g := get in
  let '(kept, hits) := scan_hits (projectiles (playerService g)) enemies in
  modify (with_playerService (ps_with_projectiles kept)) >>
  ret hits.

(** *** EnemyService *)

(** The [baseStats] of [createEnemy]: health, damage, speed, attack
    cooldown, radius, colour and xp value.  [floor] holds an integer; the
    two multipliers and the products with them are computed in doubles. *)
Definition baseStats (type : EnemyType) (floor : Z)
  : number * number * number * number * number * string * number :=
  let floor := double_of_Z floor in
  let healthMultiplier := (1 + (floor - 1) * 0.3)%float in
  let damageMultiplier := (1 + (floor - 1) * 0.2)%float in
  match type with
  | melee =>
      (Q_of_double (30 * healthMultiplier)%float, Q_of_double (15 * damageMultiplier)%float,
       80, 1500, 16, "#ff4444"%string, 10)
  | ranged =>
      (Q_of_double (20 * healthMultiplier)%float, Q_of_double (12 * damageMultiplier)%float,
       60, 2000, 14, "#4444ff"%string, 15)
  | fast =>
      (Q_of_double (15 * healthMultiplier)%float, Q_of_double (8 * damageMultiplier)%float,
       120, 800, 12, "#ff44ff"%string, 12)
  | boss =>
      (Q_of_double (200 * healthMultiplier)%float, Q_of_double (25 * damageMultiplier)%float,
       40, 1000, 32, "#ffaa00"%string, 100)
  end.

Definition createEnemy (type : EnemyType) (x y : number) (floor : Z) : M Enemy :=
  let* g := get in
  let id := nextEnemyId (enemyService g) in
  modify (with_enemyService (es_with_nextEnemyId (S id))) >>
  let '(health, damage, speed, attackCooldown, radius, color, xpValue) :=
    baseStats type floor in
  let* r := js_random in
  let* now := js_now in
  ret {| e_id := id; e_x := x; e_y := y; e_type := type;
         e_health := health; e_maxHealth := health; e_damage := damage;
         e_speed := speed; e_attackCooldown := attackCooldown;
         e_radius := radius; e_color := color; e_xpValue := xpValue;
         e_lastAttackTime := 0; e_targetX := x; e_targetY := y;
         e_isAttacking := false;
         e_patrolDirection := r * Math_PI rt * 2;
         e_lastDirectionChange := now |}.

Definition push_enemy (enemy : Enemy) : M unit :=
  modify (with_enemyService (fun s => es_with_enemies (enemies s ++ [enemy]) s)).

(** The [do ... while] loop of [spawnRandomEnemy]; it runs at most 50 times.
    [fuel] bounds the number of further iterations, and 50 of it are never
    used up ([pick_position_returns]). *)
Fixpoint pick_position (fuel : nat) (attempts : Z) : M (number * number * Z) :=
  let* r1 := js_random in
  let x := r1 * 1600 in
  let* r2 := js_random in
  let y := r2 * 1600 in
  let attempts := (attempts + 1)%Z in
  let* w := isWalkable x y in
  if negb w && (attempts <? 50)%Z then
    match fuel with
    | O => throw
    | S fuel' => pick_position fuel' attempts
    end
  else ret (x, y, attempts).

Definition enemyTypes : list EnemyType := [melee; ranged; fast].

Definition spawnRandomEnemy (floor : Z) : M unit :=
  let* r := js_random in
  let* type := lift_option (arr_get enemyTypes (Math_floor (r * inject_Z (Z.of_nat (length enemyTypes))))) in
  let* '(x, y, attempts) := pick_position 50 0 in
  let '(x, y) := if (attempts >=? 50)%Z then (800, 800) else (x, y) in
  let* enemy := createEnemy type x y floor in
  push_enemy enemy.

Definition spawnEnemiesForFloor (floor : Z) : M unit :=
  modify (with_enemyService (es_with_enemies [])) >>
  modify (with_enemyService (es_with_enemyProjectiles [])) >>
  let baseEnemyCount := (3 + Math_floor (inject_Z floor / 2))%Z in
  let enemyCount := Z.min baseEnemyCount 15 in
  forM_ (Zrange 0 enemyCount) (fun _ => spawnRandomEnemy floor).

Definition spawnBoss : M unit :=
  let centerX := 800 in
  let centerY := 800 in
  let* g := get in
  let floor := if (currentFloor (engine g) =? 0)%Z then 1%Z else currentFloor (engine g) in
  let* boss := createEnemy boss centerX centerY floor in
  push_enemy boss.

Definition updatePatrolBehavior (enemy : Enemy) (deltaTime : number) : M Enemy :=
  let* now := js_now in
  let* enemy :=
    if Qgtb (now - e_lastDirectionChange enemy) 3000 then
      let* r := js_random in
      ret (en_with_patrol (r * Math_PI rt * 2) now enemy)
    else ret enemy in
  let moveX := Math_cos rt (e_patrolDirection enemy) * e_speed enemy * deltaTime * 0.3 in
  let moveY := Math_sin rt (e_patrolDirection enemy) * e_speed enemy * deltaTime * 0.3 in
  let newX := e_x enemy + moveX in
  let newY := e_y enemy + moveY in
  let* w := isWalkable newX newY in
  if w then ret (en_with_pos newX newY enemy)
  else
    let* r := js_random in
    ret (en_with_patrol (r * Math_PI rt * 2) now enemy).

Definition updateMeleeAI (enemy : Enemy) (deltaTime distanceToPlayer : number) : M Enemy :=
  let aggroRange := 150 in
  let attackRange := 30 in
  if Qltb distanceToPlayer aggroRange then
    let* player := getPlayer in
    let dx := p_x player - e_x enemy in
    let dy := p_y player - e_y enemy in
    let moveX := js_mul (js_mul (js_div dx distanceToPlayer) (e_speed enemy)) deltaTime in
    let moveY := js_mul (js_mul (js_div dy distanceToPlayer) (e_speed enemy)) deltaTime in
    let newX := js_add (e_x enemy) moveX in
    let newY := js_add (e_y enemy) moveY in
    let* w := isWalkable_js newX newY in
    let enemy := if w then en_moved newX newY enemy else enemy in
    ret (en_with_isAttacking (Qltb distanceToPlayer attackRange) enemy)
  else updatePatrolBehavior enemy deltaTime.

Definition updateRangedAI (enemy : Enemy) (deltaTime distanceToPlayer : number) : M Enemy :=
  let aggroRange := 200 in
  let optimalRange := 120 in
  let tooCloseRange := 80 in
  if Qltb distanceToPlayer aggroRange then
    let* player := getPlayer in
    let* enemy :=
      if Qltb distanceToPlayer tooCloseRange then
        let dx := e_x enemy - p_x player in
        let dy := e_y enemy - p_y player in
        let moveX := js_mul (js_mul (js_div dx distanceToPlayer) (e_speed enemy)) deltaTime in
        let moveY := js_mul (js_mul (js_div dy distanceToPlayer) (e_speed enemy)) deltaTime in
        let newX := js_add (e_x enemy) moveX in
        let newY := js_add (e_y enemy) moveY in
        let* w := isWalkable_js newX newY in
        ret (if w then en_moved newX newY enemy else enemy)
      else if Qgtb distanceToPlayer optimalRange then
        let dx := p_x player - e_x enemy in
        let dy := p_y player - e_y enemy in
        let moveX :=
          js_mul (js_mul (js_mul (js_div dx distanceToPlayer) (e_speed enemy)) deltaTime) 0.5 in
        let moveY :=
          js_mul (js_mul (js_mul (js_div dy distanceToPlayer) (e_speed enemy)) deltaTime) 0.5 in
        let newX := js_add (e_x enemy) moveX in
        let newY := js_add (e_y enemy) moveY in
        let* w := isWalkable_js newX newY in
        ret (if w then en_moved newX newY enemy else enemy)
      else ret enemy in
    ret (en_with_isAttacking (Qltb distanceToPlayer aggroRange) enemy)
  else updatePatrolBehavior enemy deltaTime.

Definition updateFastAI (enemy : Enemy) (deltaTime distanceToPlayer : number) : M Enemy :=
  let aggroRange := 180 in
  let attackRange := 25 in
  if Qltb distanceToPlayer aggroRange then
    let* player := getPlayer in
    let dx := p_x player - e_x enemy in
    let dy := p_y player - e_y enemy in
    let moveX := js_mul (js_mul (js_div dx distanceToPlayer) (e_speed enemy)) deltaTime in
    let moveY := js_mul (js_mul (js_div dy distanceToPlayer) (e_speed enemy)) deltaTime in
    let newX := js_add (e_x enemy) moveX in
    let newY := js_add (e_y enemy) moveY in
    let* w := isWalkable_js newX newY in
    let enemy := if w then en_moved newX newY enemy else enemy in
    ret (en_with_isAttacking (Qltb distanceToPlayer attackRange) enemy)
  else updatePatrolBehavior enemy deltaTime.

Definition updateBossAI (enemy : Enemy) (deltaTime distanceToPlayer : number) : M Enemy :=
  let aggroRange := 300 in
  let* now := js_now in
  if Qltb distanceToPlayer aggroRange then
    let* enemy :=
      if Qgtb (now - e_lastDirectionChange enemy) 2000 then
        let* r := js_random in
        ret (en_with_patrol (r * Math_PI rt * 2) now enemy)
      else ret enemy in
    let patternX := Math_cos rt (e_patrolDirection enemy) * e_speed enemy * deltaTime * 0.5 in
    let patternY := Math_sin rt (e_patrolDirection enemy) * e_speed enemy * deltaTime * 0.5 in
    let* player := getPlayer in
    let dx := p_x player - e_x enemy in
    let dy := p_y player - e_y enemy in
    let chaseX :=
      js_mul (js_mul (js_mul (js_div dx distanceToPlayer) (e_speed enemy)) deltaTime) 0.3 in
    let chaseY :=
      js_mul (js_mul (js_mul (js_div dy distanceToPlayer) (e_speed enemy)) deltaTime) 0.3 in
    let newX := js_add (e_x enemy + patternX) chaseX in
    let newY := js_add (e_y enemy + patternY) chaseY in
    let* w := isWalkable_js newX newY in
    let enemy := if w then en_moved newX newY enemy else enemy in
    ret (en_with_isAttacking true enemy)
  else ret enemy.

Definition updateEnemyAI (enemy : Enemy) (deltaTime : number) : M Enemy :=
  let* player := getPlayer in
  let dx := p_x player - e_x enemy in
  let dy := p_y player - e_y enemy in
  let distanceToPlayer := Math_sqrt rt (dx * dx + dy * dy) in
  match e_type enemy with
  | melee => updateMeleeAI enemy deltaTime distanceToPlayer
  | ranged => updateRangedAI enemy deltaTime distanceToPlayer
  | fast => updateFastAI enemy deltaTime distanceToPlayer
  | boss => updateBossAI enemy deltaTime distanceToPlayer
  end.

Definition createEnemyProjectile (enemy : Enemy) (angleOffset : number) : M unit :=
  let* player := getPlayer in
  let dx := p_x player - e_x enemy in
  let dy := p_y player - e_y enemy in
  let angle := Math_atan2 rt dy dx + angleOffset in
  let speed := 150 in
  let projectile :=
    {| pr_x := e_x enemy; pr_y := e_y enemy;
       pr_vx := Math_cos rt angle * speed;
       pr_vy := Math_sin rt angle * speed;
       pr_damage := e_damage enemy;
       pr_lifetime := 3000 |} in
  modify (with_enemyService (fun s =>
    es_with_enemyProjectiles (enemyProjectiles s ++ [projectile]) s)).

Definition updateEnemyAttack (enemy : Enemy) : M Enemy :=
  if negb (e_isAttacking enemy) then ret enemy
  else
    let* now := js_now in
    if Qltb (now - e_lastAttackTime enemy) (e_attackCooldown enemy) then ret enemy
    else
      let enemy := en_with_lastAttackTime now enemy in
      let* player := getPlayer in
      let dx := p_x player - e_x enemy in
      let dy := p_y player - e_y enemy in
      let distance := Math_sqrt rt (dx * dx + dy * dy) in
      match e_type enemy with
      | melee | fast =>
          when (Qltb distance 40) (takeDamage (e_damage enemy)) >>
          ret enemy
      | ranged | boss =>
          createEnemyProjectile enemy 0 >>
          when (match e_type enemy with boss => true | _ => false end)
            (createEnemyProjectile enemy (-0.3) >>
             createEnemyProjectile enemy 0.3) >>
          ret enemy
      end.

(** [this.enemies.forEach(f)] for a callback that mutates the enemy it is
    given: the indices are those of the array when the loop starts, and an
    index the array no longer has is skipped. *)
Definition forEach_enemy (f : Enemy -> M Enemy) : M unit :=
  let* g := get in
  forM_ (seq 0 (length (enemies (enemyService g)))) (fun i =>
    let* g := get in
    match enemies (enemyService g) !! i with
    | Some enemy =>
        let* enemy' := f enemy in
        modify (with_enemyService (fun s => es_with_enemies (<[i := enemy']> (enemies s)) s))
    | None => ret tt
    end).

Definition updateEnemyProjectiles (deltaTime : number) : M unit :=
  let* g := get in
  let* kept :=
    filterM (fun projectile =>
      let projectile :=
        pr_moved (pr_x projectile + pr_vx projectile * deltaTime)
                 (pr_y projectile + pr_vy projectile * deltaTime)
                 (pr_lifetime projectile - deltaTime * 1000) projectile in
      if Qle_bool (pr_lifetime projectile) 0 then ret (projectile, false)
      else
        let* w := isWalkable (pr_x projectile) (pr_y projectile) in
        if negb w then ret (projectile, false)
        else ret (projectile, true))
      (enemyProjectiles (enemyService g)) in
  modify (with_enemyService (es_with_enemyProjectiles kept)).

(** [killEnemy]: [findIndex] looks the id up in the live array, [splice]
    removes that entry. *)
Fixpoint remove_first_id (id : nat) (l : list Enemy) : list Enemy :=
  match l with
  | [] => []
  | e :: l' => if Nat.eqb (e_id e) id then l' else e :: remove_first_id id l'
  end.

Definition killEnemy (enemy : Enemy) : M unit :=
  gainXP (e_xpValue enemy) >>
  modify (with_enemyService (fun s => es_with_enemies (remove_first_id (e_id enemy) (enemies s)) s)) >>
  onEnemyKilled.

Fixpoint replace_id (enemy : Enemy) (l : list Enemy) : list Enemy :=
  match l with
  | [] => []
  | e :: l' => if Nat.eqb (e_id e) (e_id enemy) then enemy :: l' else e :: replace_id enemy l'
  end.

Definition find_id (id : nat) (l : list Enemy) : option Enemy :=
  find (fun e => Nat.eqb (e_id e) id) l.

(** [damageEnemy(enemy, damage)] through a reference.  The object is the
    entry of [this.enemies] with that id as long as it is alive; once
    spliced out it is only reachable from the pending hits, and [detached]
    holds those objects.  The result is the new [detached]. *)
Definition damageEnemy (ref : nat) (damage : number) (detached : list Enemy)
  : M (list Enemy) :=
  let* g := get in
  match find_id ref (enemies (enemyService g)) with
  | Some enemy =>
      let enemy := en_with_health (e_health enemy - damage) enemy in
      modify (with_enemyService (fun s => es_with_enemies (replace_id enemy (enemies s)) s)) >>
      if Qle_bool (e_health enemy) 0 then
        killEnemy enemy >> ret (enemy :: detached)
      else ret detached
  | None =>
      match find_id ref detached with
      | Some enemy =>
          let enemy := en_with_health (e_health enemy - damage) enemy in
          when (Qle_bool (e_health enemy) 0) (killEnemy enemy) >>
          ret (replace_id enemy detached)
      | None => throw
      end
  end.

Fixpoint apply_hits (hits : list (nat * number)) (detached : list Enemy) : M unit :=
  match hits with
  | [] => ret tt
  | (ref, damage) :: hits' =>
      let* detached := damageEnemy ref damage detached in
      apply_hits hits' detached
  end.

Definition EnemyService_checkProjectileCollisions : M unit :=
  let* g := get in
  let* kept :=
    filterM (fun projectile =>
      let* player := getPlayer in
      let dx := pr_x projectile - p_x player in
      let dy := pr_y projectile - p_y player in
      let distance := Math_sqrt rt (dx * dx + dy * dy) in
      if Qltb distance (p_width player / 2 + 3) then
        takeDamage (pr_damage projectile) >> ret (projectile, false)
      else ret (projectile, true))
      (enemyProjectiles (enemyService g)) in
  modify (with_enemyService (es_with_enemyProjectiles kept)) >>
  let* g := get in
  let* hits := checkProjectileEnemyCollision (enemies (enemyService g)) in
  apply_hits hits [].

Definition EnemyService_update (deltaTime : number) : M unit :=
  let dt := deltaTime / 1000 in
  forEach_enemy (fun enemy =>
    let* enemy := updateEnemyAI enemy dt in
    updateEnemyAttack enemy) >>
  updateEnemyProjectiles dt >>
  EnemyService_checkProjectileCollisions.

Definition checkPlayerCollisions : M unit :=
  forEach_enemy (fun enemy =>
    let* player := getPlayer in
    let dx := p_x player - e_x enemy in
    let dy := p_y player - e_y enemy in
    let distance := Math_sqrt rt (dx * dx + dy * dy) in
    if (match e_type enemy with melee | fast => true | _ => false end)
       && Qltb distance (e_radius enemy + p_width player / 2) then
      let* now := js_now in
      if Qgtb (now - e_lastAttackTime enemy) 500 then
        takeDamage (e_damage enemy * 0.5) >>
        ret (en_with_lastAttackTime now enemy)
      else ret enemy
    else ret enemy).

Definition getEnemyCount : M Z :=
  let* g := get in ret (Z.of_nat (length (enemies (enemyService g)))).

(** *** GameEngineService *)

Definition set_tile (x y : Z) (t : Tile) : M unit :=
  let* g := get in
  let* tl := lift_option (grid_set (tiles (engine g)) x y t) in
  modify (with_engine (eng_with_tiles tl)).

Definition set_tile_type (x y : Z) (ty : TileType) : M unit :=
  let* g := get in
  let* tl := lift_option (grid_set_type (tiles (engine g)) x y ty) in
  modify (with_engine (eng_with_tiles tl)).

Definition generateRooms : M unit :=
  let* r := js_random in
  let roomCount := (Math_floor (r * 8) + 6)%Z in
  forM_ (Zrange 0 roomCount) (fun _ =>
    let* r := js_random in
    let roomWidth := (Math_floor (r * 8) + 4)%Z in
    let* r := js_random in
    let roomHeight := (Math_floor (r * 8) + 4)%Z in
    let* r := js_random in
    let roomX := (Math_floor (r * inject_Z (levelWidth - roomWidth - 2)) + 1)%Z in
    let* r := js_random in
    let roomY := (Math_floor (r * inject_Z (levelHeight - roomHeight - 2)) + 1)%Z in
    forM_ (Zrange roomY (roomY + roomHeight)) (fun y =>
      forM_ (Zrange roomX (roomX + roomWidth)) (fun x =>
        set_tile x y (floor_tile x y)))).

Definition generateCorridors : M unit :=
  forM_ (Zrange 0 50) (fun _ =>
    let* r := js_random in
    let x := Math_floor (r * inject_Z levelWidth) in
    let* r := js_random in
    let y := Math_floor (r * inject_Z levelHeight) in
    when ((x >? 0)%Z && (x <? levelWidth - 1)%Z && (y >? 0)%Z && (y <? levelHeight - 1)%Z)
      (set_tile x y (floor_tile x y))).

Definition placeEntranceAndExit : M unit :=
  let* g := get in
  let* floorTiles := lift_option (floorTiles (tiles (engine g))) in
  match floorTiles with
  | entrance :: rest =>
      when (2 <=? length floorTiles)%nat
        (let exit := List.last rest entrance in
         set_tile_type (fst entrance) (snd entrance) TEntrance >>
         set_tile_type (fst exit) (snd exit) TExit >>
         setPosition (inject_Z (fst entrance) * tileSize + tileSize / 2)
                     (inject_Z (snd entrance) * tileSize + tileSize / 2))
  | [] => ret tt
  end.

Definition generateLevel : M unit :=
  modify (with_engine (eng_with_tiles wall_grid)) >>
  generateRooms >>
  generateCorridors >>
  placeEntranceAndExit.

Definition updateCamera : M unit :=
  let* g := get in
  let p := player (playerService g) in
  modify (with_engine (eng_with_camera
    {| vx_ := p_x p - canvas_width (engine g) / 2;
       vy_ := p_y p - canvas_height (engine g) / 2 |})).

Definition in_level (tileX tileY : Z) : bool :=
  (tileX >=? 0)%Z && (tileX <? levelWidth)%Z && (tileY >=? 0)%Z && (tileY <? levelHeight)%Z.

Definition checkPlayerWallCollision : M unit :=
  let* g := get in
  let p := player (playerService g) in
  let tileX := Math_floor (p_x p / tileSize) in
  let tileY := Math_floor (p_y p / tileSize) in
  when (in_level tileX tileY)
    (let* tile := lift_option (tile_at (tiles (engine g)) tileX tileY) in
     when (negb (walkable tile)) handleWallCollision).

Definition checkProjectileCollisions : M unit := ret tt.

Definition checkCollisions : M unit :=
  checkPlayerWallCollision >>
  checkPlayerCollisions >>
  checkProjectileCollisions.

Definition is_exit (ty : TileType) : bool :=
  match ty with TExit => true | _ => false end.

Definition nextFloor : M unit :=
  modify (with_engine (fun e => eng_with_currentFloor (currentFloor e + 1)%Z e)) >>
  generateLevel >>
  let* g := get in
  spawnEnemiesForFloor (currentFloor (engine g)) >>
  let* g := get in
  when (Z.rem (currentFloor (engine g)) 5 =? 0)%Z spawnBoss.

Definition checkLevelProgression : M unit :=
  let* g := get in
  let p := player (playerService g) in
  let tileX := Math_floor (p_x p / tileSize) in
  let tileY := Math_floor (p_y p / tileSize) in
  when (in_level tileX tileY)
    (let* tile := lift_option (tile_at (tiles (engine g)) tileX tileY) in
     let* count := getEnemyCount in
     when (is_exit (tile_type tile) && (count =? 0)%Z) nextFloor).

Definition updateGameStats : M unit :=
  let* now := js_now in
  modify (with_engine (fun e =>
    let timeSurvived := (now - startTime e) / 1000 in
    eng_with_gameStats
      {| gs_currentFloor := currentFloor e;
         gs_enemiesKilled := enemiesKilled e;
         gs_timeSurvived := timeSurvived |} e)).

Definition startGame : M unit :=
  modify (with_engine (eng_with_currentFloor 1)) >>
  modify (with_engine (eng_with_enemiesKilled 0)) >>
  let* now := js_now in
  modify (with_engine (eng_with_startTime now)) >>
  modify (with_engine (eng_with_lastUpdateTime 0)) >>
  generateLevel >>
  resetPlayer >>
  let* g := get in
  spawnEnemiesForFloor (currentFloor (engine g)) >>
  modify (with_engine (eng_with_gameState PLAYING)).

Definition restartGame : M unit := startGame.

Definition is_playing (s : GameState) : bool :=
  match s with PLAYING => true | _ => false end.

(** What [update] does in a frame before it checks the level progression. *)
Definition update_simulation (timestamp : number) : M unit :=
  let* g := get in
  let deltaTime := timestamp - lastUpdateTime (engine g) in
  modify (with_engine (eng_with_lastUpdateTime timestamp)) >>
  PlayerService_update deltaTime >>
  EnemyService_update deltaTime >>
  updateCamera >>
  checkCollisions.

Definition update (timestamp : number) : M unit :=
  let* g := get in
  if negb (is_playing (gameState (engine g))) then ret tt
  else
    update_simulation timestamp >>
    checkLevelProgression >>
    updateGameStats.

Definition upgrade_effect (u : UpgradeId) : M unit :=
  match u with
  | U_health => upgradeMaxHealth 20
  | U_damage => upgradeDamage 5
  | U_speed => upgradeSpeed 0.1
  | U_attack_speed => upgradeAttackSpeed 0.2
  | U_regeneration => enableRegeneration
  end.

Definition selectUpgrade (upgrade : UpgradeId) : M unit :=
  upgrade_effect upgrade >>
  modify (with_engine (eng_with_gameState PLAYING)).

End Services.

(** ** A sample runtime and a sample game, to run the methods on *)

(** Rational stand-ins for the runtime's functions: a square root rounded
    down to three decimals; for the cosine and sine of [a] the point of the
    unit circle with half-angle tangent [a/2], which is exactly on the
    circle and close to [(cos a, sin a)] for small [a]; a first-order
    arctangent for [atan2]. *)
Definition sample_sqrt (x : number) : number :=
  Z.sqrt (Qfloor (x * 1000000)) # 1000.

Definition sample_cos (a : number) : number :=
  (1 - (a / 2) * (a / 2)) / (1 + (a / 2) * (a / 2)).

Definition sample_sin (a : number) : number :=
  (2 * (a / 2)) / (1 + (a / 2) * (a / 2)).

Definition sample_atan (z : number) : number := z / (1 + 0.28 * z * z).

Definition sample_atan2 (y x : number) : number :=
  if Qle_bool (Qabs y) (Qabs x) then
    if Qeq_bool x 0 then 0
    else if Qltb 0 x then sample_atan (y / x)
    else if Qle_bool 0 y then sample_atan (y / x) + 3.14159
    else sample_atan (y / x) - 3.14159
  else
    if Qltb 0 y then 1.5708 - sample_atan (x / y)
    else - 1.5708 - sample_atan (x / y).

Definition sample_runtime : Runtime :=
  {| Math_random := fun n => Z.of_nat (Nat.modulo (7 * n + 3) 16) # 16;
     Date_now := fun n => (1700000000000 + 16 * Z.of_nat n)%Z;
     Math_sqrt := sample_sqrt;
     Math_cos := sample_cos;
     Math_sin := sample_sin;
     Math_atan2 := sample_atan2;
     Math_PI := 3.14159;
     sort_random := fun n l => (rev l, (n + 4)%nat) |}.

Definition initial_engine : Engine :=
  {| gameState := MENU;
     gameStats := {| gs_currentFloor := 1; gs_enemiesKilled := 0; gs_timeSurvived := 0 |};
     currentFloor := 1; enemiesKilled := 0; startTime := 0; lastUpdateTime := 0;
     tiles := []; camera := {| vx_ := 0; vy_ := 0 |}; levelUpOptions := [];
     canvas_width := 800; canvas_height := 600 |}.

Definition initial_playerService : PlayerService :=
  {| player := default_player; playerStats := stats_of default_player;
     currentInput := {| in_up := false; in_down := false; in_left := false;
                        in_right := false; in_attack := false;
                        mouseX := 0; mouseY := 0 |};
     projectiles := [] |}.

Definition initial_enemyService : EnemyService :=
  {| enemies := []; enemyProjectiles := []; nextEnemyId := 0 |}.

Definition initial_game : Game :=
  {| engine := initial_engine; playerService := initial_playerService;
     enemyService := initial_enemyService; random_calls := 0; clock_calls := 0 |}.

Definition started_game : Game :=
  match startGame sample_runtime initial_game with
  | Some (_, g) => g
  | None => initial_game
  end.

(** ** Tables and predicates of the specification *)

(** The per-type base statistics as the specification tabulates them. *)
Definition spec_base_health (t : EnemyType) : number :=
  match t with melee => 30 | ranged => 20 | fast => 15 | boss => 200 end.

Definition spec_base_damage (t : EnemyType) : number :=
  match t with melee => 15 | ranged => 12 | fast => 8 | boss => 25 end.

Definition spec_speed (t : EnemyType) : number :=
  match t with melee => 80 | ranged => 60 | fast => 120 | boss => 40 end.

Definition spec_attackCooldown (t : EnemyType) : number :=
  match t with melee => 1500 | ranged => 2000 | fast => 800 | boss => 1000 end.

Definition spec_radius (t : EnemyType) : number :=
  match t with melee => 16 | ranged => 14 | fast => 12 | boss => 32 end.

(** The health and the damage the specification's formulas give, in exact
    arithmetic. *)
Definition spec_health (t : EnemyType) (f : Z) : number :=
  spec_base_health t * (1 + (inject_Z f - 1) * 0.3).

Definition spec_damage (t : EnemyType) (f : Z) : number :=
  spec_base_damage t * (1 + (inject_Z f - 1) * 0.2).

(** The same formulas in double arithmetic, every operation rounded to the
    nearest double. *)
Definition double_base_health (t : EnemyType) : float :=
  match t with melee => 30 | ranged => 20 | fast => 15 | boss => 200 end%float.

Definition double_base_damage (t : EnemyType) : float :=
  match t with melee => 15 | ranged => 12 | fast => 8 | boss => 25 end%float.

Definition double_health (t : EnemyType) (f : Z) : number :=
  Q_of_double (double_base_health t * (1 + (double_of_Z f - 1) * 0.3))%float.

Definition double_damage (t : EnemyType) (f : Z) : number :=
  Q_of_double (double_base_damage t * (1 + (double_of_Z f - 1) * 0.2))%float.

(** [x] is within a relative error of 2^-51 of [exact]: what the three
    roundings of a double product [base * (1 + (f - 1) * step)] leave. *)
Definition rounds_to (x exact : number) : Prop :=
  Qabs (x - exact) <= (1 # 2 ^ 51) * exact.

Definition rounds_tob (x exact : number) : bool :=
  Qle_bool (Qabs (x - exact)) ((1 # 2 ^ 51) * exact).

Definition enemyKinds : list EnemyType := [melee; ranged; fast; boss].

(** On floor [f] the health and damage of every type's [baseStats] are
    within that error of the specification's values. *)
Definition stats_roundedb (f : Z) : bool :=
  forallb (fun t =>
             let '(health, damage, _, _, _, _, _) := baseStats t f in
             rounds_tob health (spec_health t f) &&
             rounds_tob damage (spec_damage t f)) enemyKinds.

(** A tile array of [levelHeight] rows of [levelWidth] cells. *)
Definition wf_grid (tl : grid) : Prop :=
  length tl = Z.to_nat levelHeight /\
  Forall (fun row : list Tile => length row = Z.to_nat levelWidth) tl.

(** [m] run on [g] returns, and its result and final state satisfy [Q]. *)
Definition returns {A : Type} (m : M A) (g : Game) (Q : A -> Game -> Prop) : Prop :=
  exists a g', m g = Some (a, g') /\ Q a g'.

(** The two states differ at most in the number of [Math.random()] calls. *)
Definition same_but_random (g g' : Game) : Prop :=
  engine g' = engine g /\ playerService g' = playerService g /\
  enemyService g' = enemyService g /\ clock_calls g' = clock_calls g.

Definition normal_type (t : EnemyType) : Prop :=
  t = melee \/ t = ranged \/ t = fast.

(** What one call of [spawnRandomEnemy] leaves behind. *)
Definition spawned_one (g g' : Game) : Prop :=
  engine g' = engine g /\ playerService g' = playerService g /\
  enemyProjectiles (enemyService g') = enemyProjectiles (enemyService g) /\
  nextEnemyId (enemyService g') = S (nextEnemyId (enemyService g)) /\
  exists e, enemies (enemyService g') = enemies (enemyService g) ++ [e] /\
            normal_type (e_type e) /\
            e_id e = nextEnemyId (enemyService g).

(** What a run of [n] calls of [spawnRandomEnemy] leaves behind. *)
Definition spawned_many (n : nat) (g g' : Game) : Prop :=
  engine g' = engine g /\ playerService g' = playerService g /\
  enemyProjectiles (enemyService g') = enemyProjectiles (enemyService g) /\
  nextEnemyId (enemyService g') = (nextEnemyId (enemyService g) + n)%nat /\
  exists new, enemies (enemyService g') = enemies (enemyService g) ++ new /\
              length new = n /\
              Forall (fun e => normal_type (e_type e)) new /\
              Forall (fun e => (nextEnemyId (enemyService g) <= e_id e)%nat) new /\
              map e_id new = seq (nextEnemyId (enemyService g)) n.

Definition is_entrance (ty : TileType) : bool :=
  match ty with TEntrance => true | _ => false end.

(** The number of cells of the array whose tile satisfies [P]. *)
Definition count_tiles (P : Tile -> bool) (tl : grid) : nat :=
  length (List.filter P (concat tl)).

(** A grid on which no entrance and no exit has been placed yet, as
    [generateRooms] and [generateCorridors] leave it. *)
Definition unplaced (tl : grid) : Prop :=
  Forall (Forall (fun t => is_entrance (tile_type t) = false /\
                           is_exit (tile_type t) = false)) tl.

Definition walkable_at (tl : grid) (c : Z * Z) : bool :=
  match tile_at tl (fst c) (snd c) with
  | Some t => walkable t
  | None => false
  end.

Definition b2n (b : bool) : nat := if b then 1%nat else 0%nat.

(** The two states differ at most in the tile array, the player's position
    and the number of [Math.random()] calls: what [generateLevel] may touch. *)
Definition level_changed (g g' : Game) : Prop :=
  enemyService g' = enemyService g /\ clock_calls g' = clock_calls g /\
  engine g' = eng_with_tiles (tiles (engine g')) (engine g) /\
  playerService g' =
    ps_with_player
      (pl_with_pos (p_x (player (playerService g')))
                   (p_y (player (playerService g')))
                   (player (playerService g)))
      (playerService g).

(** The state of a level under generation: a full grid without entrance
    and exit. *)
Definition generating (g : Game) : Prop :=
  wf_grid (tiles (engine g)) /\ unplaced (tiles (engine g)).

(** The tile the player occupies has type [exit]. *)
Definition exit_reached (g : Game) : bool :=
  let p := player (playerService g) in
  let tileX := Math_floor (p_x p / tileSize) in
  let tileY := Math_floor (p_y p / tileSize) in
  in_level tileX tileY &&
  match tile_at (tiles (engine g)) tileX tileY with
  | Some t => is_exit (tile_type t)
  | None => false
  end.

(** The live enemy count is 0. *)
Definition floor_cleared (g : Game) : bool :=
  (length (enemies (enemyService g)) =? 0)%nat.

Definition is_boss (e : Enemy) : bool :=
  match e_type e with boss => true | _ => false end.

(** What a floor transition from [g] leaves behind: the counter is one
    higher, the tiles are those [generateLevel] builds from there, the
    roster is the new floor's, with one boss on top exactly on a floor
    that is a multiple of 5. *)
Definition floor_advanced (rt : Runtime) (g g' : Game) : Prop :=
  let f' := (currentFloor (engine g) + 1)%Z in
  let boss_floor := (f' mod 5 =? 0)%Z in
  currentFloor (engine g') = f' /\
  (exists g1, generateLevel rt (with_engine (eng_with_currentFloor f') g) = Some (tt, g1) /\
              tiles (engine g') = tiles (engine g1)) /\
  wf_grid (tiles (engine g')) /\
  Z.of_nat (length (enemies (enemyService g'))) =
    (Z.min (3 + f' / 2) 15 + (if boss_floor then 1 else 0))%Z /\
  length (List.filter is_boss (enemies (enemyService g'))) =
    (if boss_floor then 1 else 0)%nat /\
  Forall (fun e => (nextEnemyId (enemyService g) <= e_id e)%nat)
         (enemies (enemyService g')) /\
  List.NoDup (map e_id (enemies (enemyService g'))) /\
  enemyProjectiles (enemyService g') = [].

(** The call left the level alone: same tiles, same floor number. *)
Definition level_kept (g g' : Game) : Prop :=
  tiles (engine g') = tiles (engine g) /\
  currentFloor (engine g') = currentFloor (engine g).

(** Whenever [m] returns, it has left the level alone. *)
Definition preserves {A : Type} (m : M A) : Prop :=
  forall g a g', m g = Some (a, g') -> level_kept g g'.

(** A call that changes the player's health or maximum health: damage,
    a regeneration tick, or the effect of a level-up option chosen on the
    level-up screen. *)
Inductive PlayerCall :=
| Call_takeDamage (damage : number)
| Call_handleRegeneration (deltaTime : number)
| Call_selectUpgrade (upgrade : UpgradeId).

Section Calls.

Variable rt : Runtime.

Definition run_call (c : PlayerCall) : M unit :=
  match c with
  | Call_takeDamage damage => takeDamage damage
  | Call_handleRegeneration deltaTime => handleRegeneration rt deltaTime
  | Call_selectUpgrade upgrade => selectUpgrade rt upgrade
  end.

Definition run_calls (cs : list PlayerCall) : M unit := forM_ cs run_call.

End Calls.

Definition nonneg_damage (c : PlayerCall) : Prop :=
  match c with
  | Call_takeDamage damage => 0 <= damage
  | _ => True
  end.

Definition player_health_ok (g : Game) : Prop :=
  let p := player (playerService g) in
  0 <= p_health p /\ p_health p <= p_maxHealth p.

Definition enemy_health_ok (e : Enemy) : Prop :=
  0 <= e_health e /\ e_health e <= e_maxHealth e.

(** A hit with a damage that is not negative, on an enemy of the array. *)
Definition valid_hit (g : Game) (hit : nat * number) : Prop :=
  0 <= snd hit /\ is_Some (find_id (fst hit) (enemies (enemyService g))).

(** The player's health and maximum health are the same in both states. *)
Definition same_player_health (g g' : Game) : Prop :=
  p_health (player (playerService g')) = p_health (player (playerService g)) /\
  p_maxHealth (player (playerService g')) = p_maxHealth (player (playerService g)).

(** The reference reaches an enemy object: one of the array or one already
    spliced out of it. *)
Definition reachable (ref : nat) (live detached : list Enemy) : Prop :=
  is_Some (find_id ref live) \/ is_Some (find_id ref detached).

(** The projectile a shot of player [p] is. *)
Definition shot_of (rt : Runtime) (p : Player) : Projectile :=
  {| pr_x := p_x p; pr_y := p_y p;
     pr_vx := Math_cos rt (p_facing p) * 300;
     pr_vy := Math_sin rt (p_facing p) * 300;
     pr_damage := p_damage p;
     pr_lifetime := 2000 |}.

(** The projectile enemy [e] sends towards player [p], [offset] radians off
    the direction to the player. *)
Definition enemy_shot (rt : Runtime) (e : Enemy) (p : Player) (offset : number)
  : Projectile :=
  let dx := p_x p - e_x e in
  let dy := p_y p - e_y e in
  {| pr_x := e_x e; pr_y := e_y e;
     pr_vx := Math_cos rt (Math_atan2 rt dy dx + offset) * 150;
     pr_vy := Math_sin rt (Math_atan2 rt dy dx + offset) * 150;
     pr_damage := e_damage e;
     pr_lifetime := 3000 |}.

(** Successive times of the list are more than [c] apart. *)
Fixpoint spaced (c : number) (ts : list number) : Prop :=
  match ts with
  | [] => True
  | t1 :: rest =>
      match rest with
      | [] => True
      | t2 :: _ => c < t2 - t1
      end /\ spaced c rest
  end.

(** The value of the next [Date.now()]. *)
Definition next_now (rt : Runtime) (g : Game) : number :=
  inject_Z (Date_now rt (clock_calls g)).

(** The state after one more [Date.now()]. *)
Definition clock_ticked (g : Game) : Game :=
  {| engine := engine g; playerService := playerService g;
     enemyService := enemyService g; random_calls := random_calls g;
     clock_calls := S (clock_calls g) |}.

(** [handleAttack] called in [n] successive frames; the result lists, call
    by call, the time [Date.now()] has in store for the call and the
    projectiles the call has appended to the player's. *)
Fixpoint hold_attack (rt : Runtime) (n : nat) : M (list (number * list Projectile)) :=
  match n with
  | O => ret []
  | S n' =>
      let* before := get in
      let* _ := handleAttack rt in
      let* after := get in
      let added := drop (length (projectiles (playerService before)))
                        (projectiles (playerService after)) in
      let* rest := hold_attack rt n' in
      ret ((next_now rt before, added) :: rest)
  end.

(** A call of the log is due when its time is more than [c] after the last
    fire before it, [last] at first.  Every due call has appended the one
    projectile [shot]; every other call has appended nothing. *)
Fixpoint fires_when_due (c last : number) (shot : Projectile)
    (log : list (number * list Projectile)) : Prop :=
  match log with
  | [] => True
  | (t, added) :: rest =>
      if Qgtb (t - last) c
      then added = [shot] /\ fires_when_due c t shot rest
      else added = [] /\ fires_when_due c last shot rest
  end.

(** The call has appended a projectile. *)
Definition fired (call : number * list Projectile) : bool :=
  match snd call with
  | [] => false
  | _ :: _ => true
  end.

(** The times of the calls that have fired. *)
Definition fire_times (log : list (number * list Projectile)) : list number :=
  map fst (List.filter fired log).

(** On a generated level [m] returns. *)
Definition safe {A : Type} (m : M A) : Prop :=
  forall g, wf_grid (tiles (engine g)) -> exists a g', m g = Some (a, g').

(** Whenever [m] run on [g] returns, its result and final state satisfy [Q]. *)
Definition ensures {A : Type} (m : M A) (g : Game) (Q : A -> Game -> Prop) : Prop :=
  forall a g', m g = Some (a, g') -> Q a g'.

(** Whenever [m] returns from a state that satisfies [I], so does the state
    it leaves. *)
Definition maintains {A : Type} (I : Game -> Prop) (m : M A) : Prop :=
  forall g, I g -> ensures m g (fun _ g' => I g').

(** The distance from the enemy to the player, as [updateEnemyAI] computes
    it. *)
Definition distance_to (rt : Runtime) (p : Player) (e : Enemy) : number :=
  let dx := p_x p - e_x e in
  let dy := p_y p - e_y e in
  Math_sqrt rt (dx * dx + dy * dy).

(** The enemy is not at distance 0 from the player: the quotients of its
    chase vector are finite. *)
Definition apart (rt : Runtime) (p : Player) (e : Enemy) : Prop :=
  Qeq_bool (distance_to rt p e) 0 = false.

(** In the frame at [timestamp] no enemy is at distance 0 from where
    [handleMovement] puts the player. *)
Definition frame_defined (rt : Runtime) (timestamp : number) (g : Game) : Prop :=
  forall g1,
    handleMovement rt (timestamp - lastUpdateTime (engine g)) g = Some (tt, g1) ->
    Forall (apart rt (player (playerService g1))) (enemies (enemyService g)).

(** The enemy array is [l] and the player is at [(x, y)]. *)
Definition at_rest (l : list Enemy) (x y : number) (g : Game) : Prop :=
  enemies (enemyService g) = l /\
  p_x (player (playerService g)) = x /\ p_y (player (playerService g)) = y.

Definition is_wall (ty : TileType) : bool :=
  match ty with TWall => true | _ => false end.

(** The cells of the outermost rows and columns. *)
Definition on_border (x y : Z) : bool :=
  (x =? 0)%Z || (x =? levelWidth - 1)%Z || (y =? 0)%Z || (y =? levelHeight - 1)%Z.

(** Every tile records its own cell, is walkable exactly when it is not a
    wall, and is a wall on the border of the level. *)
Definition coherent (tl : grid) : Prop :=
  forall x y t, tile_at tl x y = Some t ->
    tile_x t = x /\ tile_y t = y /\
    walkable t = negb (is_wall (tile_type t)) /\
    (on_border x y = true -> tile_type t = TWall).

(** At least two cells are walkable. *)
Definition two_walkable (tl : grid) : Prop :=
  exists c1 c2, c1 <> c2 /\ walkable_at tl c1 = true /\ walkable_at tl c2 = true.

(** Every cell walkable in [tl] is walkable in [tl']. *)
Definition grown (tl tl' : grid) : Prop :=
  forall c, walkable_at tl c = true -> walkable_at tl' c = true.

(** The state of a level while rooms and corridors are carved. *)
Definition carving (g : Game) : Prop :=
  generating g /\ coherent (tiles (engine g)).

(** What carving may change, and how: the level only grows. *)
Definition carved (g g' : Game) : Prop :=
  level_changed g g' /\ grown (tiles (engine g)) (tiles (engine g')).

(** The centre of cell [c], in world coordinates. *)
Definition cell_centre (c : Z * Z) : number * number :=
  (inject_Z (fst c) * tileSize + tileSize / 2,
   inject_Z (snd c) * tileSize + tileSize / 2).

(** A finished tile array: full and coherent, with exactly one entrance and
    exactly one exit. *)
Definition level_built (tl : grid) : Prop :=
  wf_grid tl /\ coherent tl /\
  count_tiles (fun t => is_entrance (tile_type t)) tl = 1%nat /\
  count_tiles (fun t => is_exit (tile_type t)) tl = 1%nat.

(** The player stands at the centre of the entrance cell. *)
Definition on_entrance (g : Game) : Prop :=
  exists c t, tile_at (tiles (engine g)) (fst c) (snd c) = Some t /\
              tile_type t = TEntrance /\
              p_x (player (playerService g)) = fst (cell_centre c) /\
              p_y (player (playerService g)) = snd (cell_centre c).

(** A finished level, as [generateLevel] leaves it. *)
Definition level_ready (g : Game) : Prop :=
  level_built (tiles (engine g)) /\ on_entrance g.

(** Executable form of [frame_defined]. *)
Definition frame_definedb (rt : Runtime) (timestamp : number) (g : Game) : bool :=
  match handleMovement rt (timestamp - lastUpdateTime (engine g)) g with
  | Some (_, g1) =>
      forallb (fun e => negb (Qeq_bool (distance_to rt (player (playerService g1)) e) 0))
              (enemies (enemyService g))
  | None => true
  end.

(** Executable forms of [wf_grid] and [unplaced]. *)
Definition wf_gridb (tl : grid) : bool :=
  (length tl =? Z.to_nat levelHeight)%nat &&
  forallb (fun row : list Tile => (length row =? Z.to_nat levelWidth)%nat) tl.

Definition unplacedb (tl : grid) : bool :=
  forallb (forallb (fun t => negb (is_entrance (tile_type t)) &&
                             negb (is_exit (tile_type t)))) tl.

(** ** Sample states *)

(** The level of [initial_game] after rooms and corridors, before the
    entrance and the exit are placed. *)
Definition carved_game : Game :=
  match (modify (with_engine (eng_with_tiles wall_grid)) >>
         generateRooms sample_runtime >>
         generateCorridors sample_runtime) initial_game with
  | Some (_, g) => g
  | None => initial_game
  end.

Definition exit_cell (tl : grid) : option (Z * Z) :=
  List.find (fun c => match tile_at tl (fst c) (snd c) with
                      | Some t => is_exit (tile_type t)
                      | None => false
                      end) scan_order.

(** [started_game] on floor 4, all enemies killed, the player on the exit. *)
Definition cleared_game : Game :=
  match exit_cell (tiles (engine started_game)) with
  | Some (x, y) =>
      with_engine (eng_with_currentFloor 4)
        (with_enemyService (es_with_enemies [])
           (with_player (pl_with_pos (inject_Z x * tileSize + tileSize / 2)
                                     (inject_Z y * tileSize + tileSize / 2))
              started_game))
  | None => started_game
  end.

Definition cleared_game_mid : Game :=
  match update_simulation sample_runtime 16 cleared_game with
  | Some (_, g) => g
  | None => cleared_game
  end.

(** [started_game] with the attack input held. *)
Definition attacking_game : Game :=
  with_playerService
    (ps_with_currentInput
       {| in_up := false; in_down := false; in_left := false; in_right := false;
          in_attack := true; mouseX := 0; mouseY := 0 |})
    started_game.

(** A boss in aggro range of the player of [started_game]. *)
Definition sample_boss : Enemy :=
  {| e_id := 7; e_x := 500; e_y := 300; e_radius := 32;
     e_health := 440; e_maxHealth := 440; e_damage := 45; e_speed := 40;
     e_type := boss; e_attackCooldown := 1000; e_lastAttackTime := 0;
     e_targetX := 800; e_targetY := 800; e_isAttacking := true;
     e_patrolDirection := 0; e_lastDirectionChange := 0;
     e_color := "#ffaa00"; e_xpValue := 100 |}.

(** [Array.prototype.sort] returns a rearrangement of the array it is given. *)
Definition sort_permutes (rt : Runtime) : Prop :=
  forall n l, Permutation (fst (sort_random rt n l)) l.

(** The state with tile array [tl]. *)
Definition with_tiles (tl : grid) (g : Game) : Game :=
  with_engine (eng_with_tiles tl) g.

(** Some enemy of the array is within reach of the projectile. *)
Definition hits_some (rt : Runtime) (enemies : list Enemy) (projectile : Projectile) : bool :=
  match first_hit rt projectile enemies with
  | Some _ => true
  | None => false
  end.

(** The player after [gainXP(amount)]. *)
Definition xp_gained (amount : number) (p : Player) : Player :=
  let p := pl_with_xp (p_xp p + amount) p in
  if Qgeb (p_xp p) (getXPRequirement (p_level p))
  then pl_with_xp 0 (pl_with_level (p_level p + 1) p)
  else p.

(** The enemy ids of the array are pairwise distinct. *)
Definition unique_ids (g : Game) : Prop :=
  List.NoDup (map e_id (enemies (enemyService g))).

(** A shot of damage 500 at the position of [sample_boss]. *)
Definition heavy_shot : Projectile :=
  {| pr_x := 500; pr_y := 300; pr_vx := 0; pr_vy := 0;
     pr_damage := 500; pr_lifetime := 2000 |}.

(** [sample_boss] alone, with two heavy shots on it in the same frame. *)
Definition double_hit_game : Game :=
  with_enemyService (es_with_enemies [sample_boss])
    (with_playerService (ps_with_projectiles [heavy_shot; heavy_shot]) initial_game).

(** [cleared_game] with one melee enemy at the very position of the player,
    and a shot of the player on it. *)
Definition overlapped_game : Game :=
  let p := player (playerService cleared_game) in
  with_playerService
    (ps_with_projectiles
       [{| pr_x := p_x p; pr_y := p_y p; pr_vx := 0; pr_vy := 0;
           pr_damage := 500; pr_lifetime := 2000 |}])
    (with_enemyService
       (es_with_enemies
          [{| e_id := 3; e_x := p_x p; e_y := p_y p; e_radius := 16;
              e_health := 30; e_maxHealth := 30; e_damage := 15; e_speed := 80;
              e_type := melee; e_attackCooldown := 1500; e_lastAttackTime := 0;
              e_targetX := p_x p; e_targetY := p_y p; e_isAttacking := false;
              e_patrolDirection := 0; e_lastDirectionChange := 0;
              e_color := "#ff4444"; e_xpValue := 10 |}])
       cleared_game).

(** * Theorems *)

(** ** Evaluating methods *)

Ltac run :=
  cbv beta delta [bind ret modify get when lift_option throw getPlayer] iota; cbn.

(** ** PlayerService.resetPlayer *)

(** C9. [resetPlayer()] is idempotent: whatever the player state and the
    projectile list were, one call leaves the fixed default player
    (position (400,300), health 100 of 100, level 1, xp 0, damage 10,
    speed 150, attackSpeed 1, regeneration off) and an empty projectile
    list, and a second call right after it returns exactly the same state. *)
Theorem resetPlayer_idempotent (g : Game) :
  exists g1,
    resetPlayer g = Some (tt, g1) /\
    resetPlayer g1 = Some (tt, g1) /\
    projectiles (playerService g1) = [] /\
    player (playerService g1) = default_player /\
    let p := player (playerService g1) in
    (p_x p, p_y p) = (400, 300) /\
    (p_health p, p_maxHealth p) = (100, 100) /\
    (p_level p, p_xp p) = (1, 0) /\
    (p_damage p, p_speed p, p_attackSpeed p) = (10, 150, 1) /\
    p_hasRegeneration p = false.
Proof.
  eexists. split; [reflexivity|].
  repeat split.
Qed.

(** ** PlayerService.gainXP *)

Lemma Qgeb_spec (a b : Q) : Qgeb a b = true <-> b <= a.
Proof. unfold Qgeb. apply Qle_bool_iff. Qed.

Lemma Qltb_spec (a b : Q) : Qltb a b = true <-> a < b.
Proof.
  unfold Qltb. rewrite negb_true_iff. split; intros H.
  - apply Qnot_le_lt. intros Hle. apply Qle_bool_iff in Hle. congruence.
  - destruct (Qle_bool b a) eqn:E; [|reflexivity].
    apply Qle_bool_iff in E. exfalso. revert H. apply Qle_not_lt, E.
Qed.

Lemma Qltb_false (a b : Q) : Qltb a b = false <-> b <= a.
Proof.
  unfold Qltb. rewrite negb_false_iff. apply Qle_bool_iff.
Qed.

Lemma Qgtb_spec (a b : Q) : Qgtb a b = true <-> b < a.
Proof. unfold Qgtb. apply Qltb_spec. Qed.

(** C2. [gainXP(amount)] with the player at level [L] and xp [X] first adds
    the amount; when [X + amount >= L*100] it levels up exactly once (the
    level becomes [L+1], the xp is zeroed, the engine shows the level-up
    screen), however large the amount; otherwise the level stays and the xp
    is [X + amount].  The published stats follow the player. *)
Theorem gainXP_single_level_up (rt : Runtime) (g : Game) (amount : number) :
  let p := player (playerService g) in
  let reached := Qgeb (p_xp p + amount) (getXPRequirement (p_level p)) in
  exists g',
    gainXP rt amount g = Some (tt, g') /\
    (reached = true <-> p_level p * 100 <= p_xp p + amount) /\
    let p' := player (playerService g') in
    p_level p' = (if reached then p_level p + 1 else p_level p) /\
    p_xp p' = (if reached then 0 else p_xp p + amount) /\
    gameState (engine g') = (if reached then LEVEL_UP else gameState (engine g)) /\
    playerStats (playerService g') = stats_of p'.
Proof.
  intros p reached. subst p reached.
  pose proof (Qgeb_spec (p_xp (player (playerService g)) + amount)
                (getXPRequirement (p_level (player (playerService g))))) as Hiff.
  unfold gainXP, levelUp, showLevelUpScreen, generateLevelUpOptions, updatePlayerStats.
  run.
  destruct (Qgeb _ _) eqn:E; run.
  - destruct (sort_random rt (random_calls g) allUpgrades) as [shuffled n]. run.
    eexists. split; [reflexivity|]. split; [exact Hiff|repeat split].
  - eexists. split; [reflexivity|]. split; [exact Hiff|repeat split].
Qed.

(** A gain that would pay for several levels still gives one. *)
Example gainXP_large_amount :
  match gainXP sample_runtime 1000 started_game with
  | Some (_, g') => p_level (player (playerService g')) == 2 /\
                    p_xp (player (playerService g')) == 0
  | None => False
  end.
Proof. vm_compute. split; reflexivity. Qed.

(** ** GameEngineService.isWalkable *)

Lemma arr_get_Some {A : Type} (l : list A) (i : Z) :
  (0 <= i < Z.of_nat (length l))%Z -> exists a, arr_get l i = Some a.
Proof.
  intros [Hlo Hhi]. unfold arr_get.
  destruct (i <? 0)%Z eqn:E; [apply Z.ltb_lt in E; lia|].
  destruct (lookup_lt_is_Some_2 l (Z.to_nat i)) as [a Ha]; [lia|].
  exists a. exact Ha.
Qed.

Lemma arr_get_lookup {A : Type} (l : list A) (i : Z) (a : A) :
  arr_get l i = Some a -> (0 <= i)%Z /\ l !! Z.to_nat i = Some a.
Proof.
  unfold arr_get. destruct (i <? 0)%Z eqn:E; [discriminate|].
  apply Z.ltb_ge in E. auto.
Qed.

Lemma wf_grid_row (tl : grid) (y : Z) (row : list Tile) :
  wf_grid tl -> arr_get tl y = Some row -> length row = Z.to_nat levelWidth.
Proof.
  intros [_ Hrows] Hget. apply arr_get_lookup in Hget as [_ Hget].
  rewrite Forall_forall in Hrows. apply Hrows.
  apply list_elem_of_lookup. eauto.
Qed.

Lemma tile_at_wf (tl : grid) (x y : Z) :
  wf_grid tl -> (0 <= x < levelWidth)%Z -> (0 <= y < levelHeight)%Z ->
  exists t, tile_at tl x y = Some t.
Proof.
  intros Hwf Hx Hy. unfold tile_at.
  destruct (arr_get_Some tl y) as [row Hrow].
  { destruct Hwf as [Hlen _]. rewrite Hlen. unfold levelHeight in *. lia. }
  rewrite Hrow. apply arr_get_Some.
  rewrite (wf_grid_row tl y row Hwf Hrow). unfold levelWidth in *. lia.
Qed.

Lemma in_level_spec (x y : Z) :
  in_level x y = true <-> (0 <= x < levelWidth)%Z /\ (0 <= y < levelHeight)%Z.
Proof.
  unfold in_level. rewrite !andb_true_iff, !Z.geb_le, !Z.ltb_lt. lia.
Qed.

Lemma out_of_level (x y : Z) :
  (x <? 0)%Z || (x >=? levelWidth)%Z || (y <? 0)%Z || (y >=? levelHeight)%Z
  = negb (in_level x y).
Proof.
  unfold in_level. rewrite !Z.geb_leb.
  destruct (Z.ltb_spec x 0), (Z.leb_spec levelWidth x), (Z.leb_spec 0 x),
    (Z.ltb_spec x levelWidth), (Z.ltb_spec y 0), (Z.leb_spec levelHeight y),
    (Z.leb_spec 0 y), (Z.ltb_spec y levelHeight); cbn; try reflexivity; lia.
Qed.

Lemma isWalkable_on_wf (tl : grid) (x y : number) :
  wf_grid tl -> exists b, isWalkable_on tl x y = Some b.
Proof.
  intros Hwf. unfold isWalkable_on. rewrite out_of_level.
  destruct (in_level _ _) eqn:E; cbn [negb]; [|eauto].
  apply in_level_spec in E as [Hx Hy].
  destruct (tile_at_wf tl _ _ Hwf Hx Hy) as [t Ht]. rewrite Ht. eauto.
Qed.

Lemma Qfloor_neg (x : Q) : x < 0 -> (Qfloor x < 0)%Z.
Proof.
  intros Hx. pose proof (Qfloor_le x) as Hle.
  assert (H : inject_Z (Qfloor x) < 0) by (eapply Qle_lt_trans; eauto).
  unfold Qlt in H. cbn in H. lia.
Qed.

Lemma Qfloor_ge (x : Q) (n : Z) : inject_Z n <= x -> (n <= Qfloor x)%Z.
Proof.
  intros H. apply Qfloor_resp_le in H. rewrite Qfloor_Z in H. exact H.
Qed.

Lemma tile_index_neg (x : number) : x < 0 -> (Math_floor (x / tileSize) < 0)%Z.
Proof.
  intros Hx. apply Qfloor_neg. unfold tileSize.
  apply Qlt_shift_div_r; [reflexivity|]. lra.
Qed.

Lemma tile_index_large (x : number) :
  1600 <= x -> (levelWidth <= Math_floor (x / tileSize))%Z.
Proof.
  intros Hx. apply Qfloor_ge. unfold tileSize, levelWidth.
  apply Qle_shift_div_l; [reflexivity|].
  eapply Qle_trans; [|exact Hx]. vm_compute. discriminate.
Qed.

(** C10. On a generated 50x50 tile array [isWalkable(x, y)] always returns
    and leaves the state alone.  It answers [false] whenever the tile index
    [floor(x/32)] or [floor(y/32)] is outside the grid, which includes every
    negative coordinate and every coordinate from 1600 on, without reading
    the array; inside the grid the cell exists and the answer is its
    [walkable] flag. *)
Theorem isWalkable_total (g : Game) (x y : number)
  (Hwf : wf_grid (tiles (engine g))) :
  let tileX := Math_floor (x / tileSize) in
  let tileY := Math_floor (y / tileSize) in
  exists b,
    isWalkable x y g = Some (b, g) /\
    (in_level tileX tileY = false -> b = false) /\
    (x < 0 \/ y < 0 \/ 1600 <= x \/ 1600 <= y -> b = false) /\
    (in_level tileX tileY = true ->
     exists t, tile_at (tiles (engine g)) tileX tileY = Some t /\ b = walkable t).
Proof.
  intros tileX tileY.
  assert (Hout : in_level tileX tileY = false ->
                 isWalkable_on (tiles (engine g)) x y = Some false).
  { intros E. unfold isWalkable_on. fold tileX tileY.
    rewrite out_of_level, E. reflexivity. }
  assert (Hrun : forall b, isWalkable_on (tiles (engine g)) x y = Some b ->
                           isWalkable x y g = Some (b, g)).
  { intros b Hb. unfold isWalkable. run. rewrite Hb. reflexivity. }
  destruct (in_level tileX tileY) eqn:E.
  - pose proof E as E'. apply in_level_spec in E' as [Hx Hy].
    destruct (tile_at_wf _ _ _ Hwf Hx Hy) as [t Ht].
    assert (Hin : isWalkable_on (tiles (engine g)) x y = Some (walkable t)).
    { unfold isWalkable_on. fold tileX tileY. rewrite out_of_level, E. cbn [negb].
      rewrite Ht. reflexivity. }
    exists (walkable t).
    split; [exact (Hrun _ Hin)|]. split; [intros Hc; discriminate Hc|].
    split; [|eauto].
    intros Hxy. exfalso.
    pose proof (tile_index_neg x) as Hxn. pose proof (tile_index_neg y) as Hyn.
    pose proof (tile_index_large x) as Hxl. pose proof (tile_index_large y) as Hyl.
    fold tileX in Hxn, Hxl. fold tileY in Hyn, Hyl.
    unfold levelWidth, levelHeight in *.
    destruct Hxy as [Hc|[Hc|[Hc|Hc]]];
      [specialize (Hxn Hc)|specialize (Hyn Hc)
      |specialize (Hxl Hc)|specialize (Hyl Hc)]; lia.
  - exists false.
    split; [exact (Hrun _ (Hout eq_refl))|].
    split; [reflexivity|]. split; [reflexivity|].
    intros Hc. discriminate Hc.
Qed.

(** ** Reasoning about method calls *)

Lemma returns_ret {A : Type} (a : A) (g : Game) (Q : A -> Game -> Prop) :
  Q a g -> returns (ret a) g Q.
Proof. intros H. exists a, g. split; [reflexivity|exact H]. Qed.

Lemma returns_bind {A B : Type} (m : M A) (k : A -> M B) (g : Game)
  (Q : B -> Game -> Prop) :
  returns m g (fun a g1 => returns (k a) g1 Q) -> returns (bind m k) g Q.
Proof.
  intros (a & g1 & Hm & b & g2 & Hk & HQ).
  exists b, g2. split; [|exact HQ]. unfold bind. rewrite Hm. exact Hk.
Qed.

Lemma returns_weaken {A : Type} (m : M A) (g : Game) (P Q : A -> Game -> Prop) :
  returns m g P -> (forall a g', P a g' -> Q a g') -> returns m g Q.
Proof. intros (a & g' & Hm & HP) HPQ. exists a, g'. auto. Qed.

Lemma returns_modify (f : Game -> Game) (g : Game) (Q : unit -> Game -> Prop) :
  Q tt (f g) -> returns (modify f) g Q.
Proof. intros H. exists tt, (f g). split; [reflexivity|exact H]. Qed.

Lemma returns_get (g : Game) (Q : Game -> Game -> Prop) :
  Q g g -> returns get g Q.
Proof. intros H. exists g, g. split; [reflexivity|exact H]. Qed.

Lemma returns_lift_option {A : Type} (o : option A) (a : A) (g : Game)
  (Q : A -> Game -> Prop) :
  o = Some a -> Q a g -> returns (lift_option o) g Q.
Proof. intros -> H. exists a, g. split; [reflexivity|exact H]. Qed.

Lemma returns_inv {A : Type} (m : M A) (g : Game) (Q : A -> Game -> Prop)
  (a : A) (g' : Game) :
  returns m g Q -> m g = Some (a, g') -> Q a g'.
Proof. intros (a0 & g0 & Hm & HQ) Heq. rewrite Hm in Heq. congruence. Qed.

Lemma returns_js_random (rt : Runtime) (g : Game) (Q : number -> Game -> Prop) :
  (forall g', same_but_random g g' -> random_calls g' = S (random_calls g) ->
              Q (Math_random rt (random_calls g)) g') ->
  returns (js_random rt) g Q.
Proof.
  intros H. eexists _, _. split; [reflexivity|].
  apply H; [repeat split|reflexivity].
Qed.

Lemma returns_isWalkable (x y : number) (g : Game) (Q : bool -> Game -> Prop) :
  wf_grid (tiles (engine g)) -> (forall b, Q b g) -> returns (isWalkable x y) g Q.
Proof.
  intros Hwf HQ. destruct (isWalkable_on_wf _ x y Hwf) as [b Hb].
  exists b, g. split; [|apply HQ]. unfold isWalkable. run. rewrite Hb. reflexivity.
Qed.

Lemma same_but_random_trans (g1 g2 g3 : Game) :
  same_but_random g1 g2 -> same_but_random g2 g3 -> same_but_random g1 g3.
Proof.
  unfold same_but_random. intros (?&?&?&?) (?&?&?&?). repeat split; congruence.
Qed.

Lemma same_but_random_refl (g : Game) : same_but_random g g.
Proof. repeat split. Qed.

(** ** EnemyService.spawnEnemiesForFloor *)

Lemma Qfloor_range (x : Q) (lo hi : Z) :
  inject_Z lo <= x -> x < inject_Z hi -> (lo <= Qfloor x < hi)%Z.
Proof.
  intros Hlo Hhi. split; [apply Qfloor_ge, Hlo|].
  pose proof (Qfloor_le x) as Hle.
  assert (H : inject_Z (Qfloor x) < inject_Z hi) by (eapply Qle_lt_trans; eauto).
  rewrite <- Zlt_Qlt in H. exact H.
Qed.

(** [Math.floor(Math.random() * n)] is one of [0 .. n-1]. *)
Lemma random_index (r : Q) (n : Z) :
  0 <= r -> r < 1 -> (0 < n)%Z -> (0 <= Math_floor (r * inject_Z n) < n)%Z.
Proof.
  intros H0 H1 Hn. apply Qfloor_range.
  - apply Qmult_le_0_compat; [exact H0|]. rewrite <- (Zle_Qle 0). lia.
  - assert (Hpos : 0 < inject_Z n) by (rewrite <- (Zlt_Qlt 0); exact Hn).
    apply Qlt_le_trans with (1 * inject_Z n).
    + apply Qmult_lt_compat_r; assumption.
    + rewrite Qmult_1_l. apply Qle_refl.
Qed.

Lemma pick_position_returns (rt : Runtime) (fuel : nat) :
  forall (attempts : Z) (g : Game),
    wf_grid (tiles (engine g)) ->
    (49 - attempts <= Z.of_nat fuel)%Z ->
    returns (pick_position rt fuel attempts) g (fun _ g' => same_but_random g g').
Proof.
  induction fuel as [|fuel IH]; intros attempts g Hwf Hfuel.
  - cbn [pick_position].
    apply returns_bind, returns_js_random. intros g1 Hs1 _.
    apply returns_bind, returns_js_random. intros g2 Hs2 _.
    pose proof (same_but_random_trans _ _ _ Hs1 Hs2) as Hs.
    apply returns_bind, returns_isWalkable.
    { destruct Hs as [-> _]. exact Hwf. }
    intros w.
    destruct (attempts + 1 <? 50)%Z eqn:E; [apply Z.ltb_lt in E; lia|].
    rewrite andb_false_r. apply returns_ret. exact Hs.
  - cbn [pick_position].
    apply returns_bind, returns_js_random. intros g1 Hs1 _.
    apply returns_bind, returns_js_random. intros g2 Hs2 _.
    pose proof (same_but_random_trans _ _ _ Hs1 Hs2) as Hs.
    apply returns_bind, returns_isWalkable.
    { destruct Hs as [-> _]. exact Hwf. }
    intros w.
    destruct (negb w && (attempts + 1 <? 50)%Z) eqn:E.
    + eapply returns_weaken.
      * apply IH; [destruct Hs as [-> _]; exact Hwf|lia].
      * intros a g' Hs'. cbn beta in Hs'.
        exact (same_but_random_trans _ _ _ Hs Hs').
    + apply returns_ret. exact Hs.
Qed.

Lemma createEnemy_returns (rt : Runtime) (t : EnemyType) (x y : number) (f : Z) (g : Game) :
  returns (createEnemy rt t x y f) g (fun e g' =>
    engine g' = engine g /\ playerService g' = playerService g /\
    enemies (enemyService g') = enemies (enemyService g) /\
    enemyProjectiles (enemyService g') = enemyProjectiles (enemyService g) /\
    nextEnemyId (enemyService g') = S (nextEnemyId (enemyService g)) /\
    e_id e = nextEnemyId (enemyService g) /\ e_type e = t /\
    e_health e = e_maxHealth e /\
    (e_health e, e_damage e, e_speed e, e_attackCooldown e, e_radius e,
     e_color e, e_xpValue e) = baseStats t f).
Proof.
  unfold returns, createEnemy, js_random, js_now. run.
  destruct (baseStats t f) as [[[[[[health damage] speed] cooldown] radius] color] xp].
  do 2 eexists. split; [reflexivity|]. repeat split.
Qed.

Lemma random_enemy_type (r : Q) :
  0 <= r -> r < 1 ->
  exists t, arr_get enemyTypes
              (Math_floor (r * inject_Z (Z.of_nat (length enemyTypes)))) = Some t /\
            normal_type t.
Proof.
  intros H0 H1.
  pose proof (random_index r (Z.of_nat (length enemyTypes)) H0 H1 eq_refl) as Hi.
  remember (Math_floor (r * inject_Z (Z.of_nat (length enemyTypes)))) as i eqn:Ei.
  clear Ei. change (Z.of_nat (length enemyTypes)) with 3%Z in Hi.
  assert (Hcases : i = 0%Z \/ i = 1%Z \/ i = 2%Z) by lia.
  unfold normal_type.
  destruct Hcases as [ -> | [ -> | -> ] ]; cbn; eauto 6.
Qed.

Lemma spawnRandomEnemy_returns (rt : Runtime) (f : Z) (g : Game) :
  random_in_range rt -> wf_grid (tiles (engine g)) ->
  returns (spawnRandomEnemy rt f) g (fun _ g' => spawned_one g g').
Proof.
  intros Hrnd Hwf. unfold spawnRandomEnemy.
  apply returns_bind, returns_js_random. intros g1 Hs1 _.
  destruct (Hrnd (random_calls g)) as [H0 H1].
  destruct (random_enemy_type _ H0 H1) as (t & Ht & Hnormal).
  apply returns_bind. eapply returns_lift_option; [exact Ht|].
  apply returns_bind. eapply returns_weaken.
  { apply (pick_position_returns rt 50 0 g1); [|cbn; lia].
    destruct Hs1 as [-> _]. exact Hwf. }
  intros [[x y] attempts] g2 Hs2. cbn beta in Hs2.
  pose proof (same_but_random_trans _ _ _ Hs1 Hs2) as (He & Hp & Hes & _).
  destruct (attempts >=? 50)%Z.
  - apply returns_bind. eapply returns_weaken; [apply createEnemy_returns|].
    intros e g3 (He3 & Hp3 & Hen3 & Hpr3 & Hid3 & Hide & Hty & _). cbn beta.
    apply returns_modify. unfold spawned_one. cbn.
    rewrite Hes in Hen3, Hpr3, Hid3, Hide.
    split; [congruence|]. split; [congruence|]. split; [congruence|].
    split; [congruence|].
    exists e. rewrite Hen3, Hty. auto.
  - apply returns_bind. eapply returns_weaken; [apply createEnemy_returns|].
    intros e g3 (He3 & Hp3 & Hen3 & Hpr3 & Hid3 & Hide & Hty & _). cbn beta.
    apply returns_modify. unfold spawned_one. cbn.
    rewrite Hes in Hen3, Hpr3, Hid3, Hide.
    split; [congruence|]. split; [congruence|]. split; [congruence|].
    split; [congruence|].
    exists e. rewrite Hen3, Hty. auto.
Qed.

Lemma spawn_loop_returns (rt : Runtime) (f : Z) (l : list Z) :
  random_in_range rt ->
  forall g, wf_grid (tiles (engine g)) ->
    returns (forM_ l (fun _ => spawnRandomEnemy rt f)) g
            (fun _ g' => spawned_many (length l) g g').
Proof.
  intros Hrnd. induction l as [|i l IH]; intros g Hwf; cbn [forM_ length].
  - apply returns_ret. unfold spawned_many. rewrite Nat.add_0_r.
    repeat split. exists []. rewrite app_nil_r. repeat split; constructor.
  - apply returns_bind. eapply returns_weaken.
    { apply spawnRandomEnemy_returns; assumption. }
    intros _ g1 (He1 & Hp1 & Hpr1 & Hid1 & e & Hen1 & Hty & Hide). cbn beta.
    eapply returns_weaken.
    { apply IH. rewrite He1. exact Hwf. }
    intros _ g2 (He2 & Hp2 & Hpr2 & Hid2 & new & Hen2 & Hlen & Htys & Hids & Hseq).
    unfold spawned_many.
    split; [congruence|]. split; [congruence|]. split; [congruence|].
    split; [rewrite Hid2, Hid1; lia|].
    exists (e :: new). rewrite Hen2, Hen1, <- app_assoc. cbn.
    split; [reflexivity|]. split; [congruence|]. split; [|split].
    + constructor; assumption.
    + constructor; [lia|].
      eapply Forall_impl; [exact Hids|]. cbn. intros e' He'. rewrite Hid1 in He'. lia.
    + rewrite Hseq, Hid1, Hide. reflexivity.
Qed.

Lemma length_Zrange (lo hi : Z) : length (Zrange lo hi) = Z.to_nat (hi - lo).
Proof. unfold Zrange. rewrite length_map, length_seq. reflexivity. Qed.

Lemma half_floor (f : Z) : Math_floor (inject_Z f / 2) = (f / 2)%Z.
Proof. unfold Math_floor. symmetry. apply (Zdiv_Qdiv f 2). Qed.

Lemma spawnEnemiesForFloor_returns (rt : Runtime) (f : Z) (g : Game) :
  random_in_range rt -> wf_grid (tiles (engine g)) ->
  returns (spawnEnemiesForFloor rt f) g (fun _ g' =>
    spawned_many (Z.to_nat (Z.min (3 + f / 2) 15))
      (with_enemyService (es_with_enemyProjectiles [])
         (with_enemyService (es_with_enemies []) g)) g').
Proof.
  intros Hrnd Hwf. unfold spawnEnemiesForFloor.
  apply returns_bind, returns_modify.
  apply returns_bind, returns_modify.
  rewrite half_floor. eapply returns_weaken.
  { apply spawn_loop_returns; [exact Hrnd|exact Hwf]. }
  intros u g' Hsp. cbn beta in Hsp.
  rewrite length_Zrange, Z.sub_0_r in Hsp. exact Hsp.
Qed.

(** C4. For a floor number [f >= 1], on a generated level,
    [spawnEnemiesForFloor(f)] returns and replaces the enemy collection by
    exactly [min(3 + floor(f/2), 15)] newly created enemies, each of type
    melee, ranged or fast and none of type boss; the enemy projectiles are
    cleared. *)
Theorem spawnEnemiesForFloor_count (rt : Runtime) (g : Game) (f : Z)
  (Hrnd : random_in_range rt)
  (Hwf : wf_grid (tiles (engine g)))
  (Hf : (1 <= f)%Z) :
  exists g',
    spawnEnemiesForFloor rt f g = Some (tt, g') /\
    Z.of_nat (length (enemies (enemyService g'))) = Z.min (3 + f / 2) 15 /\
    Forall (fun e => e_type e = melee \/ e_type e = ranged \/ e_type e = fast)
           (enemies (enemyService g')) /\
    Forall (fun e => e_type e <> boss) (enemies (enemyService g')) /\
    Forall (fun e => (nextEnemyId (enemyService g) <= e_id e)%nat)
           (enemies (enemyService g')) /\
    enemyProjectiles (enemyService g') = [] /\
    engine g' = engine g /\ playerService g' = playerService g.
Proof.
  pose proof (spawnEnemiesForFloor_returns rt f g Hrnd Hwf) as H.
  destruct H as ([] & g' & Hrun & He & Hp & Hpr & Hid & new & Hen & Hlen & Htys & Hids & _).
  cbn in He, Hp, Hpr, Hid, Hen, Hids.
  exists g'. split; [exact Hrun|]. rewrite Hen.
  split.
  { rewrite Hlen. apply Z2Nat.id.
    assert (0 <= f / 2)%Z by (apply Z.div_pos; lia). lia. }
  split; [exact Htys|]. split.
  { eapply Forall_impl; [exact Htys|]. cbn. intros e [H|[H|H]]; rewrite H; discriminate. }
  split; [exact Hids|]. auto.
Qed.

(** ** GameEngineService.placeEntranceAndExit *)

Lemma In_Zrange (lo hi i : Z) : In i (Zrange lo hi) <-> (lo <= i < hi)%Z.
Proof.
  unfold Zrange. rewrite in_map_iff. split.
  - intros (k & <- & Hk). apply in_seq in Hk. lia.
  - intros H. exists (Z.to_nat (i - lo)). split; [lia|]. apply in_seq. lia.
Qed.

Lemma In_scan_order (c : Z * Z) :
  In c scan_order <->
  (0 <= fst c < levelWidth)%Z /\ (0 <= snd c < levelHeight)%Z.
Proof.
  unfold scan_order. rewrite in_flat_map. split.
  - intros (y & Hy & Hc). apply in_map_iff in Hc as (x & <- & Hx).
    apply In_Zrange in Hy, Hx. cbn. auto.
  - intros [Hx Hy]. exists (snd c). split; [apply In_Zrange, Hy|].
    apply in_map_iff. exists (fst c). split; [destruct c; reflexivity|].
    apply In_Zrange, Hx.
Qed.

Lemma NoDup_map_injective {A B : Type} (f : A -> B) (l : list A) :
  (forall a a', f a = f a' -> a = a') -> List.NoDup l -> List.NoDup (map f l).
Proof.
  intros Hinj. induction 1 as [|a l Hnotin Hnd IH]; cbn [map]; constructor.
  - intros Hin. apply in_map_iff in Hin as (a' & Heq & Hin').
    apply Hinj in Heq. subst a'. contradiction.
  - exact IH.
Qed.

Lemma NoDup_Zrange (lo hi : Z) : List.NoDup (Zrange lo hi).
Proof.
  unfold Zrange. apply NoDup_map_injective; [intros a a' H; lia|].
  apply List.seq_NoDup.
Qed.

Lemma NoDup_rows (xs ys : list Z) :
  List.NoDup xs -> List.NoDup ys ->
  List.NoDup (flat_map (fun y => map (fun x => (x, y)) xs) ys).
Proof.
  intros Hxs. induction 1 as [|y ys Hnotin Hnd IH]; cbn [flat_map]; [constructor|].
  apply List.NoDup_app.
  - apply NoDup_map_injective; [|exact Hxs]. intros a a' [= ->]. reflexivity.
  - exact IH.
  - intros c Hc Hc'. apply in_map_iff in Hc as (x & <- & _).
    apply in_flat_map in Hc' as (y' & Hy' & Hc').
    apply in_map_iff in Hc' as (x' & [= _ ->] & _). contradiction.
Qed.

Lemma NoDup_scan_order : List.NoDup scan_order.
Proof. apply NoDup_rows; apply NoDup_Zrange. Qed.

Lemma collect_walkable_filter (tl : grid) (cs : list (Z * Z)) :
  wf_grid tl ->
  (forall c, In c cs -> In c scan_order) ->
  collect_walkable tl cs = Some (List.filter (walkable_at tl) cs).
Proof.
  intros Hwf. induction cs as [|[x y] cs IH]; intros Hin; [reflexivity|].
  cbn [collect_walkable List.filter].
  destruct (proj1 (In_scan_order (x, y)) (Hin _ (or_introl eq_refl))) as [Hx Hy].
  destruct (tile_at_wf tl x y Hwf Hx Hy) as [t Ht].
  unfold walkable_at at 1. cbn [fst snd]. rewrite Ht, IH.
  - reflexivity.
  - intros c Hc. apply Hin. right. exact Hc.
Qed.

Lemma floorTiles_filter (tl : grid) :
  wf_grid tl -> floorTiles tl = Some (List.filter (walkable_at tl) scan_order).
Proof. intros Hwf. apply collect_walkable_filter; auto. Qed.

Lemma count_insert (P : Tile -> bool) (row : list Tile) (i : nat) (old new : Tile) :
  row !! i = Some old ->
  (length (List.filter P (<[i := new]> row)) + b2n (P old) =
   length (List.filter P row) + b2n (P new))%nat.
Proof.
  intros Hi.
  assert (Hlt : (i < length row)%nat) by (eapply lookup_lt_Some; eauto).
  rewrite insert_take_drop by exact Hlt.
  rewrite <- (take_drop_middle row i old Hi) at 3.
  rewrite !List.filter_app, !length_app. cbn [List.filter].
  destruct (P old), (P new); cbn [length b2n]; lia.
Qed.

Lemma count_tiles_insert (P : Tile -> bool) (tl : grid) (i : nat) (row row' : list Tile) :
  tl !! i = Some row ->
  (count_tiles P (<[i := row']> tl) + length (List.filter P row) =
   count_tiles P tl + length (List.filter P row'))%nat.
Proof.
  intros Hi. unfold count_tiles.
  assert (Hlt : (i < length tl)%nat) by (eapply lookup_lt_Some; eauto).
  rewrite insert_take_drop by exact Hlt.
  rewrite <- (take_drop_middle tl i row Hi) at 3.
  rewrite !concat_app. cbn [concat].
  rewrite !List.filter_app, !length_app. lia.
Qed.

Lemma grid_set_inv (tl tl' : grid) (x y : Z) (t : Tile) :
  grid_set tl x y t = Some tl' ->
  exists row, tl !! Z.to_nat y = Some row /\ (0 <= y)%Z /\
              (0 <= x)%Z /\ (Z.to_nat x < length row)%nat /\
              tl' = <[Z.to_nat y := <[Z.to_nat x := t]> row]> tl.
Proof.
  unfold grid_set. destruct (arr_get tl y) as [row|] eqn:Hrow; [|discriminate].
  apply arr_get_lookup in Hrow as [Hy Hrow].
  destruct ((0 <=? x)%Z && (x <? Z.of_nat (length row))%Z) eqn:E; [|discriminate].
  apply andb_true_iff in E as [E1 E2]. apply Z.leb_le in E1. apply Z.ltb_lt in E2.
  intros [= <-]. exists row. repeat split; try assumption; lia.
Qed.

Lemma grid_set_count (P : Tile -> bool) (tl tl' : grid) (x y : Z) (old new : Tile) :
  tile_at tl x y = Some old ->
  grid_set tl x y new = Some tl' ->
  (count_tiles P tl' + b2n (P old) = count_tiles P tl + b2n (P new))%nat.
Proof.
  intros Hold Hset.
  apply grid_set_inv in Hset as (row & Hrow & Hy & Hx & Hlt & ->).
  unfold tile_at, arr_get in Hold.
  destruct (y <? 0)%Z eqn:Ey; [apply Z.ltb_lt in Ey; lia|].
  rewrite Hrow in Hold.
  destruct (x <? 0)%Z eqn:Ex; [apply Z.ltb_lt in Ex; lia|].
  pose proof (count_tiles_insert P tl _ row (<[Z.to_nat x := new]> row) Hrow) as H1.
  pose proof (count_insert P row _ old new Hold) as H2.
  lia.
Qed.

Lemma grid_set_wf (tl tl' : grid) (x y : Z) (t : Tile) :
  wf_grid tl -> grid_set tl x y t = Some tl' -> wf_grid tl'.
Proof.
  intros [Hlen Hrows] Hset.
  apply grid_set_inv in Hset as (row & Hrow & Hy & Hx & Hlt & ->).
  split; [rewrite length_insert; exact Hlen|].
  apply Forall_insert; [exact Hrows|].
  rewrite length_insert. rewrite Forall_forall in Hrows. apply Hrows.
  apply list_elem_of_lookup. eauto.
Qed.

Lemma tile_at_grid_set_eq (tl tl' : grid) (x y : Z) (t : Tile) :
  grid_set tl x y t = Some tl' -> tile_at tl' x y = Some t.
Proof.
  intros Hset.
  apply grid_set_inv in Hset as (row & Hrow & Hy & Hx & Hlt & ->).
  unfold tile_at, arr_get.
  destruct (y <? 0)%Z eqn:Ey; [apply Z.ltb_lt in Ey; lia|].
  rewrite list_lookup_insert_eq by (eapply lookup_lt_Some; eauto).
  destruct (x <? 0)%Z eqn:Ex; [apply Z.ltb_lt in Ex; lia|].
  apply list_lookup_insert_eq. exact Hlt.
Qed.

Lemma tile_at_grid_set_ne (tl tl' : grid) (x y x' y' : Z) (t : Tile) :
  grid_set tl x y t = Some tl' -> (x', y') <> (x, y) ->
  tile_at tl' x' y' = tile_at tl x' y'.
Proof.
  intros Hset Hne.
  apply grid_set_inv in Hset as (row & Hrow & Hy & Hx & Hlt & ->).
  unfold tile_at, arr_get.
  destruct (y' <? 0)%Z eqn:Ey; [reflexivity|]. apply Z.ltb_ge in Ey.
  destruct (decide (Z.to_nat y = Z.to_nat y')) as [Heq|Hneq].
  - assert (y' = y) by lia. subst y'.
    rewrite list_lookup_insert_eq by (eapply lookup_lt_Some; eauto).
    rewrite Hrow.
    destruct (x' <? 0)%Z eqn:Ex; [reflexivity|]. apply Z.ltb_ge in Ex.
    apply list_lookup_insert_ne. intros Hc.
    assert (x' = x) by lia. subst x'. apply Hne. reflexivity.
  - rewrite list_lookup_insert_ne by exact Hneq. reflexivity.
Qed.

Lemma grid_set_type_inv (tl tl' : grid) (x y : Z) (ty : TileType) :
  grid_set_type tl x y ty = Some tl' ->
  exists old, tile_at tl x y = Some old /\
              grid_set tl x y (tile_with_type ty old) = Some tl'.
Proof.
  unfold grid_set_type. destruct (tile_at tl x y) as [old|]; [|discriminate].
  eauto.
Qed.

Lemma grid_set_type_wf (tl : grid) (x y : Z) (ty : TileType) :
  wf_grid tl -> (0 <= x < levelWidth)%Z -> (0 <= y < levelHeight)%Z ->
  exists tl' old, tile_at tl x y = Some old /\
                  grid_set_type tl x y ty = Some tl' /\
                  grid_set tl x y (tile_with_type ty old) = Some tl'.
Proof.
  intros Hwf Hx Hy.
  destruct (tile_at_wf tl x y Hwf Hx Hy) as [old Hold].
  unfold grid_set_type. rewrite Hold. unfold grid_set.
  unfold tile_at in Hold.
  destruct (arr_get tl y) as [row|] eqn:Hrow; [|discriminate].
  rewrite (wf_grid_row tl y row Hwf Hrow).
  destruct ((0 <=? x)%Z && (x <? Z.of_nat (Z.to_nat levelWidth))%Z) eqn:E.
  - eauto.
  - apply andb_false_iff in E as [E|E];
      [apply Z.leb_gt in E|apply Z.ltb_ge in E]; unfold levelWidth in *; lia.
Qed.

Lemma unplaced_tile (tl : grid) (x y : Z) (t : Tile) :
  unplaced tl -> tile_at tl x y = Some t ->
  is_entrance (tile_type t) = false /\ is_exit (tile_type t) = false.
Proof.
  intros Hun Ht. unfold tile_at in Ht.
  destruct (arr_get tl y) as [row|] eqn:Hrow; [|discriminate].
  apply arr_get_lookup in Hrow as [_ Hrow]. apply arr_get_lookup in Ht as [_ Ht].
  unfold unplaced in Hun. rewrite Forall_forall in Hun.
  assert (Hr := Hun row (proj2 (list_elem_of_lookup _ _) (ex_intro _ _ Hrow))).
  rewrite Forall_forall in Hr. apply Hr. apply list_elem_of_lookup. eauto.
Qed.

Lemma unplaced_count (tl : grid) :
  unplaced tl ->
  count_tiles (fun t => is_entrance (tile_type t)) tl = 0%nat /\
  count_tiles (fun t => is_exit (tile_type t)) tl = 0%nat.
Proof.
  unfold unplaced, count_tiles. induction 1 as [|row tl Hrow _ [IH1 IH2]]; [auto|].
  cbn [concat]. rewrite !List.filter_app, !length_app, IH1, IH2.
  clear IH1 IH2. induction Hrow as [|t row [Ht1 Ht2] _ [IH1 IH2]]; [auto|].
  cbn [List.filter]. rewrite Ht1, Ht2. auto.
Qed.

Lemma returns_set_tile_type (x y : Z) (ty : TileType) (g : Game) (tl' : grid)
  (Q : unit -> Game -> Prop) :
  grid_set_type (tiles (engine g)) x y ty = Some tl' ->
  Q tt (with_engine (eng_with_tiles tl') g) ->
  returns (set_tile_type x y ty) g Q.
Proof.
  intros Hset HQ. unfold set_tile_type.
  apply returns_bind, returns_get.
  apply returns_bind. eapply returns_lift_option; [exact Hset|].
  apply returns_modify. exact HQ.
Qed.

Lemma last_In {A : Type} (l : list A) (d : A) : l <> [] -> In (List.last l d) l.
Proof.
  induction l as [|a [|b l] IH]; intros Hne; [congruence|left; reflexivity|].
  right. apply IH. discriminate.
Qed.

(** C8. On a generated grid (50x50, nothing placed yet) the array
    [floorTiles] is the list of walkable cells in row-major order.  With at
    least two of them, [placeEntranceAndExit] makes the first one the
    entrance and the last one the exit, these are then the only entrance
    and the only exit of the grid, every other cell is untouched, and the
    player is moved to the centre of the entrance cell.  With fewer than
    two, the call changes nothing: no entrance, no exit, same player
    position. *)
Theorem placeEntranceAndExit_spec (g : Game)
  (Hwf : wf_grid (tiles (engine g)))
  (Hun : unplaced (tiles (engine g))) :
  let tl := tiles (engine g) in
  let cells := List.filter (walkable_at tl) scan_order in
  floorTiles tl = Some cells /\
  match cells with
  | entrance :: (_ :: _) as rest =>
      let exit := List.last rest entrance in
      exists g',
        placeEntranceAndExit g = Some (tt, g') /\
        let tl' := tiles (engine g') in
        count_tiles (fun t => is_entrance (tile_type t)) tl' = 1%nat /\
        count_tiles (fun t => is_exit (tile_type t)) tl' = 1%nat /\
        (exists t, tile_at tl' (fst entrance) (snd entrance) = Some t /\
                   tile_type t = TEntrance) /\
        (exists t, tile_at tl' (fst exit) (snd exit) = Some t /\
                   tile_type t = TExit) /\
        (forall x y, (x, y) <> entrance -> (x, y) <> exit ->
                     tile_at tl' x y = tile_at tl x y) /\
        p_x (player (playerService g')) =
          inject_Z (fst entrance) * tileSize + tileSize / 2 /\
        p_y (player (playerService g')) =
          inject_Z (snd entrance) * tileSize + tileSize / 2
  | _ => placeEntranceAndExit g = Some (tt, g)
  end.
Proof.
  intros tl cells.
  pose proof (floorTiles_filter tl Hwf) as Hfloor. fold cells in Hfloor.
  split; [exact Hfloor|].
  assert (Hsub : forall c, In c cells -> In c scan_order).
  { intros c Hc. apply List.filter_In in Hc. tauto. }
  assert (Hnd : List.NoDup cells) by apply List.NoDup_filter, NoDup_scan_order.
  assert (Hrun : forall Q,
            returns (match cells with
                     | entrance :: rest =>
                         when (2 <=? length cells)%nat
                           (let exit := List.last rest entrance in
                            set_tile_type (fst entrance) (snd entrance) TEntrance >>
                            set_tile_type (fst exit) (snd exit) TExit >>
                            setPosition (inject_Z (fst entrance) * tileSize + tileSize / 2)
                                        (inject_Z (snd entrance) * tileSize + tileSize / 2))
                     | [] => ret tt
                     end) g Q ->
            returns placeEntranceAndExit g Q).
  { intros Q HQ. unfold placeEntranceAndExit.
    apply returns_bind, returns_get.
    apply returns_bind. eapply returns_lift_option; [exact Hfloor|]. exact HQ. }
  destruct cells as [|entrance [|c rest]] eqn:Ecells.
  - destruct (Hrun (fun _ g' => g' = g)) as ([] & g' & Hg' & ->);
      [apply returns_ret; reflexivity|exact Hg'].
  - destruct (Hrun (fun _ g' => g' = g)) as ([] & g' & Hg' & ->);
      [apply returns_ret; reflexivity|exact Hg'].
  - set (exit := List.last (c :: rest) entrance).
    assert (Hexit_in : In exit (c :: rest)) by (apply last_In; discriminate).
    assert (Hne : exit <> entrance).
    { intros Heq. apply List.NoDup_cons_iff in Hnd as [Hnotin _].
      apply Hnotin. rewrite <- Heq. exact Hexit_in. }
    destruct (proj1 (In_scan_order entrance) (Hsub _ (or_introl eq_refl))) as [Hex Hey].
    destruct (proj1 (In_scan_order exit) (Hsub _ (or_intror Hexit_in))) as [Hxx Hxy].
    destruct (grid_set_type_wf tl _ _ TEntrance Hwf Hex Hey)
      as (tl1 & old1 & Hold1 & Hty1 & Hset1).
    pose proof (grid_set_wf _ _ _ _ _ Hwf Hset1) as Hwf1.
    destruct (grid_set_type_wf tl1 _ _ TExit Hwf1 Hxx Hxy)
      as (tl2 & old2 & Hold2 & Hty2 & Hset2).
    assert (Hold2' : tile_at tl (fst exit) (snd exit) = Some old2).
    { rewrite <- Hold2. symmetry. eapply tile_at_grid_set_ne; [exact Hset1|].
      rewrite <- !surjective_pairing. exact Hne. }
    destruct (unplaced_tile tl _ _ _ Hun Hold1) as [Ho1e Ho1x].
    destruct (unplaced_tile tl _ _ _ Hun Hold2') as [Ho2e Ho2x].
    destruct (unplaced_count tl Hun) as [Hc0e Hc0x].
    pose proof (grid_set_count (fun t => is_entrance (tile_type t)) _ _ _ _ _ _ Hold1 Hset1) as Hc1e.
    pose proof (grid_set_count (fun t => is_exit (tile_type t)) _ _ _ _ _ _ Hold1 Hset1) as Hc1x.
    pose proof (grid_set_count (fun t => is_entrance (tile_type t)) _ _ _ _ _ _ Hold2 Hset2) as Hc2e.
    pose proof (grid_set_count (fun t => is_exit (tile_type t)) _ _ _ _ _ _ Hold2 Hset2) as Hc2x.
    cbn beta in Hc1e, Hc1x, Hc2e, Hc2x.
    rewrite Ho1e, Hc0e in Hc1e. rewrite Ho1x, Hc0x in Hc1x.
    rewrite Ho2e in Hc2e. rewrite Ho2x in Hc2x.
    cbn [b2n is_entrance is_exit tile_with_type tile_type] in Hc1e, Hc1x, Hc2e, Hc2x.
    set (px := inject_Z (fst entrance) * tileSize + tileSize / 2).
    set (py := inject_Z (snd entrance) * tileSize + tileSize / 2).
    destruct (Hrun (fun _ g' =>
                g' = with_player (pl_with_pos px py)
                       (with_engine (eng_with_tiles tl2)
                          (with_engine (eng_with_tiles tl1) g))))
      as ([] & g' & Hg' & ->).
    { cbn [length Nat.leb when]. fold exit.
      apply returns_bind. eapply returns_set_tile_type; [exact Hty1|].
      apply returns_bind. eapply returns_set_tile_type; [exact Hty2|].
      apply returns_modify. reflexivity. }
    eexists. split; [exact Hg'|].
    cbn [with_player with_playerService with_engine engine playerService tiles
         eng_with_tiles player ps_with_player pl_with_pos p_x p_y].
    split; [lia|]. split; [lia|].
    split.
    { rewrite (tile_at_grid_set_ne _ _ _ _ _ _ _ Hset2)
        by (rewrite <- !surjective_pairing; congruence).
      rewrite (tile_at_grid_set_eq _ _ _ _ _ Hset1). eauto. }
    split.
    { rewrite (tile_at_grid_set_eq _ _ _ _ _ Hset2). eauto. }
    split; [|split; reflexivity].
    intros x y Hxe Hxx'.
    rewrite (tile_at_grid_set_ne _ _ _ _ _ _ _ Hset2)
      by (rewrite <- surjective_pairing; exact Hxx').
    apply (tile_at_grid_set_ne _ _ _ _ _ _ _ Hset1).
    rewrite <- surjective_pairing. exact Hxe.
Qed.

(** ** EnemyService.createEnemy *)

Lemma stats_rounded_range : forallb stats_roundedb (Zrange 1 1001) = true.
Proof. vm_compute. reflexivity. Qed.

Lemma rounds_tob_sound (x exact : number) : rounds_tob x exact = true -> rounds_to x exact.
Proof. unfold rounds_tob, rounds_to. apply Qle_bool_iff. Qed.

Lemma baseStats_rounded (t : EnemyType) (f : Z) :
  (1 <= f <= 1000)%Z ->
  let '(health, damage, speed, cooldown, radius, _, _) := baseStats t f in
  rounds_to health (spec_health t f) /\ rounds_to damage (spec_damage t f) /\
  speed = spec_speed t /\ cooldown = spec_attackCooldown t /\ radius = spec_radius t.
Proof.
  intros Hf.
  assert (Hin : In f (Zrange 1 1001)) by (apply In_Zrange; lia).
  pose proof (proj1 (forallb_forall _ _) stats_rounded_range f Hin) as H.
  unfold stats_roundedb in H. rewrite forallb_forall in H.
  assert (Ht : In t enemyKinds) by (destruct t; cbn; tauto).
  specialize (H t Ht).
  destruct t; unfold baseStats in *; cbv beta iota zeta in *;
    apply andb_true_iff in H as [H1 H2];
    apply rounds_tob_sound in H1, H2; repeat split; assumption.
Qed.

Lemma baseStats_floor_1 (t : EnemyType) :
  let '(health, damage, _, _, _, _, _) := baseStats t 1 in
  health == spec_base_health t /\ damage == spec_base_damage t.
Proof. destruct t; vm_compute; split; reflexivity. Qed.

Lemma baseStats_in_doubles (t : EnemyType) (f : Z) :
  let '(health, damage, _, _, _, _, _) := baseStats t f in
  health = double_health t f /\ damage = double_damage t f.
Proof. destruct t; split; reflexivity. Qed.

Lemma baseStats_table (t : EnemyType) (f : Z) :
  let '(_, _, speed, attackCooldown, radius, _, _) := baseStats t f in
  speed = spec_speed t /\ attackCooldown = spec_attackCooldown t /\ radius = spec_radius t.
Proof. destruct t; repeat split. Qed.

Lemma double_bases (t : EnemyType) :
  Q_of_double (double_base_health t) == spec_base_health t /\
  Q_of_double (double_base_damage t) == spec_base_damage t.
Proof. destruct t; split; vm_compute; reflexivity. Qed.

(** C5, as amended.  An enemy of type [t] created on floor [f], an integer
    from 1 up that a double holds, has [health = maxHealth], and its health
    and damage are [base_health(t) * (1 + (f-1)*0.3)] and
    [base_damage(t) * (1 + (f-1)*0.2)] as double arithmetic evaluates them,
    with the bases melee 30/15, ranged 20/12, fast 15/8, boss 200/25: on
    floor 1 exactly the bases, and on the floors 1 to 1000 within a relative
    error of 2^-51 of the exact products.  Its speed, attack cooldown and
    radius are the tabulated values, not scaled by the floor. *)
Theorem createEnemy_stats (rt : Runtime) (t : EnemyType) (x y : number) (f : Z) (g : Game)
  (Hf : (1 <= f <= 2 ^ 53)%Z) :
  exists e g',
    createEnemy rt t x y f g = Some (e, g') /\
    e_type e = t /\
    e_health e = e_maxHealth e /\
    e_health e = double_health t f /\
    e_damage e = double_damage t f /\
    ((f <= 1000)%Z ->
     rounds_to (e_health e) (spec_health t f) /\
     rounds_to (e_damage e) (spec_damage t f)) /\
    (f = 1%Z -> e_health e == spec_base_health t /\ e_damage e == spec_base_damage t) /\
    e_speed e = spec_speed t /\
    e_attackCooldown e = spec_attackCooldown t /\
    e_radius e = spec_radius t.
Proof.
  destruct (createEnemy_returns rt t x y f g)
    as (e & g' & Hrun & _ & _ & _ & _ & _ & _ & Hty & Hmax & Hstats).
  exists e, g'. split; [exact Hrun|]. split; [exact Hty|]. split; [exact Hmax|].
  pose proof (baseStats_in_doubles t f) as Hdouble.
  pose proof (baseStats_table t f) as Htable.
  pose proof (baseStats_floor_1 t) as Hone.
  assert (Hone' : f = 1%Z ->
                  let '(health, damage, _, _, _, _, _) := baseStats t f in
                  health == spec_base_health t /\ damage == spec_base_damage t)
    by (intros ->; exact Hone).
  assert (Hround : (f <= 1000)%Z ->
                   let '(health, damage, _, _, _, _, _) := baseStats t f in
                   rounds_to health (spec_health t f) /\
                   rounds_to damage (spec_damage t f)).
  { intros Hle. pose proof (baseStats_rounded t f ltac:(lia)) as H.
    destruct (baseStats t f) as [[[[[[h d] sp] cd] r] c] xp]. tauto. }
  clear Hone. rewrite <- Hstats in Hdouble, Htable, Hone', Hround.
  destruct Hdouble as [Hh Hd]. destruct Htable as (Hs & Hc & Hr).
  split; [exact Hh|]. split; [exact Hd|]. split; [exact Hround|].
  split; [exact Hone'|]. auto.
Qed.

(** A boss of floor 5: the double [200 * (1 + 4 * 0.3)] is
    440.00000000000006, the rational below. *)
Lemma createEnemy_stats_witness :
  exists e g',
    createEnemy sample_runtime boss 800 800 5 initial_game = Some (e, g') /\
    e_health e = 7740561859543041 # 17592186044416 /\
    rounds_to (e_health e) 440.
Proof.
  destruct (createEnemy_stats sample_runtime boss 800 800 5 initial_game)
    as (e & g' & Hrun & _ & _ & Hdouble & _ & Hround & _); [lia|].
  exists e, g'. split; [exact Hrun|]. split.
  - rewrite Hdouble. vm_compute. reflexivity.
  - destruct Hround as [Hh _]; [lia|].
    unfold rounds_to in *. unfold spec_health in Hh.
    assert (E : spec_base_health boss * (1 + (inject_Z 5 - 1) * 0.3) == 440)
      by (vm_compute; reflexivity).
    rewrite <- E. exact Hh.
Defined.

(** The specification's exact values are not the code's: the health of a
    boss of floor 5 is not 440, and the damage of a ranged enemy of floor 2
    (14.399999999999999) is not 14.4. *)
Lemma createEnemy_not_exact :
  ~ (forall (t : EnemyType) (f : Z), (1 <= f)%Z ->
       forall e g',
         createEnemy sample_runtime t 800 800 f initial_game = Some (e, g') ->
         e_health e == spec_base_health t * (1 + (inject_Z f - 1) * 0.3) /\
         e_damage e == spec_base_damage t * (1 + (inject_Z f - 1) * 0.2)).
Proof.
  intros H.
  destruct (createEnemy sample_runtime boss 800 800 5 initial_game) as [[e g']|] eqn:E;
    [|vm_compute in E; discriminate E].
  destruct (H boss 5%Z ltac:(lia) e g' E) as [Hh _].
  vm_compute in E. injection E as <- _.
  vm_compute in Hh. discriminate Hh.
Qed.

(** ** GameEngineService.generateLevel *)

Lemma returns_forM_ {A : Type} (I : Game -> Prop) (R : Game -> Game -> Prop)
  (P : A -> Prop) (f : A -> M unit) :
  (forall g, R g g) ->
  (forall g1 g2 g3, R g1 g2 -> R g2 g3 -> R g1 g3) ->
  (forall a g, P a -> I g -> returns (f a) g (fun _ g' => I g' /\ R g g')) ->
  forall l g, Forall P l -> I g ->
    returns (forM_ l f) g (fun _ g' => I g' /\ R g g').
Proof.
  intros Hrefl Htrans Hf. induction l as [|a l IH]; intros g Hl HI; cbn [forM_].
  - apply returns_ret. auto.
  - apply Forall_cons in Hl as [Ha Hl].
    apply returns_bind. eapply returns_weaken; [apply Hf; assumption|].
    intros u g1 [HI1 HR1]. cbn beta.
    eapply returns_weaken; [apply IH; assumption|].
    intros u' g2 [HI2 HR2]. eauto.
Qed.

Lemma level_changed_refl (g : Game) : level_changed g g.
Proof.
  unfold level_changed. repeat split.
  - destruct (engine g); reflexivity.
  - destruct g as [e [p st inp prs] es r c]. destruct p. reflexivity.
Qed.

Lemma level_changed_trans (g1 g2 g3 : Game) :
  level_changed g1 g2 -> level_changed g2 g3 -> level_changed g1 g3.
Proof.
  unfold level_changed. intros (Hes1 & Hc1 & He1 & Hp1) (Hes2 & Hc2 & He2 & Hp2).
  split; [congruence|]. split; [congruence|]. split.
  - rewrite He2, He1. reflexivity.
  - rewrite Hp2. cbn. rewrite Hp1. reflexivity.
Qed.

Lemma same_but_random_level_changed (g g' : Game) :
  same_but_random g g' -> level_changed g g'.
Proof.
  intros (He & Hp & Hes & Hc). unfold level_changed.
  split; [exact Hes|]. split; [exact Hc|]. rewrite He, Hp.
  destruct (level_changed_refl g) as (_ & _ & H1 & H2). auto.
Qed.

Lemma Forall_Zrange (P : Z -> Prop) (lo hi : Z) :
  (forall i, (lo <= i < hi)%Z -> P i) -> Forall P (Zrange lo hi).
Proof.
  intros H. apply Forall_forall. intros i Hi. apply H.
  apply In_Zrange. apply list_elem_of_In. exact Hi.
Qed.

Lemma grid_set_floor (tl : grid) (x y : Z) :
  wf_grid tl -> unplaced tl ->
  (0 <= x < levelWidth)%Z -> (0 <= y < levelHeight)%Z ->
  exists tl', grid_set tl x y (floor_tile x y) = Some tl' /\
              wf_grid tl' /\ unplaced tl'.
Proof.
  intros Hwf Hun Hx Hy.
  destruct (arr_get_Some tl y) as [row Hrow].
  { destruct Hwf as [Hlen _]. rewrite Hlen. unfold levelHeight in *. lia. }
  assert (Hset : grid_set tl x y (floor_tile x y) =
                 Some (<[Z.to_nat y := <[Z.to_nat x := floor_tile x y]> row]> tl)).
  { unfold grid_set. rewrite Hrow, (wf_grid_row tl y row Hwf Hrow).
    destruct ((0 <=? x)%Z && (x <? Z.of_nat (Z.to_nat levelWidth))%Z) eqn:E;
      [reflexivity|].
    apply andb_false_iff in E as [E|E];
      [apply Z.leb_gt in E|apply Z.ltb_ge in E]; unfold levelWidth in *; lia. }
  eexists. split; [exact Hset|]. split; [eapply grid_set_wf; eauto|].
  apply arr_get_lookup in Hrow as [_ Hrow].
  unfold unplaced in *. apply Forall_insert; [exact Hun|].
  apply Forall_insert; [|split; reflexivity].
  rewrite Forall_forall in Hun. apply Hun. apply list_elem_of_lookup. eauto.
Qed.

Lemma set_floor_returns (x y : Z) (g : Game) :
  generating g -> (0 <= x < levelWidth)%Z -> (0 <= y < levelHeight)%Z ->
  returns (set_tile x y (floor_tile x y)) g
          (fun _ g' => generating g' /\ level_changed g g').
Proof.
  intros [Hwf Hun] Hx Hy.
  destruct (grid_set_floor _ x y Hwf Hun Hx Hy) as (tl' & Hset & Hwf' & Hun').
  unfold set_tile. apply returns_bind, returns_get.
  apply returns_bind. eapply returns_lift_option; [exact Hset|].
  apply returns_modify. split; [split; assumption|].
  unfold level_changed. cbn. repeat split.
  destruct g as [e [p st inp prs] es r c]. destruct p. reflexivity.
Qed.

Lemma generateRooms_returns (rt : Runtime) (g : Game) :
  random_in_range rt -> generating g ->
  returns (generateRooms rt) g (fun _ g' => generating g' /\ level_changed g g').
Proof.
  intros Hrnd Hgen. unfold generateRooms.
  apply returns_bind, returns_js_random. intros g0 Hs0 _.
  assert (Hgen0 : generating g0) by (destruct Hs0 as [He _]; unfold generating; rewrite He; exact Hgen).
  eapply returns_weaken.
  { apply (returns_forM_ generating level_changed (fun _ => True));
      [apply level_changed_refl|apply level_changed_trans| |apply Forall_forall; auto|exact Hgen0].
    clear g0 Hs0 Hgen0. intros _ g0 _ Hgen0.
    apply returns_bind, returns_js_random. intros g1 Hs1 _.
    destruct (Hrnd (random_calls g0)) as [Hw0 Hw1].
    pose proof (random_index _ 8 Hw0 Hw1 eq_refl) as Hw.
    change (inject_Z 8) with 8 in Hw.
    set (roomWidth := (Math_floor (Math_random rt (random_calls g0) * 8) + 4)%Z).
    apply returns_bind, returns_js_random. intros g2 Hs2 _.
    destruct (Hrnd (random_calls g1)) as [Hh0 Hh1].
    pose proof (random_index _ 8 Hh0 Hh1 eq_refl) as Hh.
    change (inject_Z 8) with 8 in Hh.
    set (roomHeight := (Math_floor (Math_random rt (random_calls g1) * 8) + 4)%Z).
    apply returns_bind, returns_js_random. intros g3 Hs3 _.
    destruct (Hrnd (random_calls g2)) as [Hx0 Hx1].
    assert (Hx : (0 <= Math_floor (Math_random rt (random_calls g2) *
                                   inject_Z (levelWidth - roomWidth - 2))
                  < levelWidth - roomWidth - 2)%Z).
    { apply random_index; [assumption..|]. unfold levelWidth, roomWidth. lia. }
    apply returns_bind, returns_js_random. intros g4 Hs4 _.
    destruct (Hrnd (random_calls g3)) as [Hy0 Hy1].
    assert (Hy : (0 <= Math_floor (Math_random rt (random_calls g3) *
                                   inject_Z (levelHeight - roomHeight - 2))
                  < levelHeight - roomHeight - 2)%Z).
    { apply random_index; [assumption..|]. unfold levelHeight, roomHeight. lia. }
    set (roomX := (_ + 1)%Z) in *. set (roomY := (_ + 1)%Z) in *.
    pose proof (same_but_random_trans _ _ _ (same_but_random_trans _ _ _ Hs1 Hs2)
                  (same_but_random_trans _ _ _ Hs3 Hs4)) as Hs.
    assert (Hgen4 : generating g4)
      by (destruct Hs as [He _]; unfold generating; rewrite He; exact Hgen0).
    eapply returns_weaken.
    { apply (returns_forM_ generating level_changed
               (fun y => (0 <= y < levelHeight)%Z));
        [apply level_changed_refl|apply level_changed_trans| | |exact Hgen4].
      - intros y g5 Hyb Hgen5.
        apply (returns_forM_ generating level_changed
                 (fun x => (0 <= x < levelWidth)%Z));
          [apply level_changed_refl|apply level_changed_trans| | |exact Hgen5].
        + intros x g6 Hxb Hgen6. apply set_floor_returns; assumption.
        + apply Forall_Zrange. intros x Hxr.
          unfold levelWidth, roomWidth in *. lia.
      - apply Forall_Zrange. intros y Hyr.
        unfold levelHeight, roomHeight in *. lia. }
    intros u g5 [Hgen5 Hch5]. split; [exact Hgen5|].
    eapply level_changed_trans; [|exact Hch5].
    apply same_but_random_level_changed, Hs. }
  intros u g1 [Hgen1 Hch1]. split; [exact Hgen1|].
  eapply level_changed_trans; [|exact Hch1].
  apply same_but_random_level_changed, Hs0.
Qed.

Lemma generateCorridors_returns (rt : Runtime) (g : Game) :
  random_in_range rt -> generating g ->
  returns (generateCorridors rt) g (fun _ g' => generating g' /\ level_changed g g').
Proof.
  intros Hrnd Hgen. unfold generateCorridors.
  apply (returns_forM_ generating level_changed (fun _ => True));
    [apply level_changed_refl|apply level_changed_trans| |apply Forall_forall; auto|exact Hgen].
  clear g Hgen. intros _ g _ Hgen.
  apply returns_bind, returns_js_random. intros g1 Hs1 _.
  apply returns_bind, returns_js_random. intros g2 Hs2 _.
  pose proof (same_but_random_trans _ _ _ Hs1 Hs2) as Hs.
  assert (Hgen2 : generating g2)
    by (destruct Hs as [He _]; unfold generating; rewrite He; exact Hgen).
  set (x := Math_floor _). set (y := Math_floor _).
  destruct ((x >? 0)%Z && (x <? levelWidth - 1)%Z && (y >? 0)%Z && (y <? levelHeight - 1)%Z) eqn:E;
    cbn [when].
  - apply andb_true_iff in E as [E Ey2]. apply andb_true_iff in E as [E Ey1].
    apply andb_true_iff in E as [Ex1 Ex2].
    apply Z.gtb_lt in Ex1, Ey1. apply Z.ltb_lt in Ex2, Ey2.
    eapply returns_weaken.
    { apply set_floor_returns; [exact Hgen2|unfold levelWidth in *; lia
                               |unfold levelHeight in *; lia]. }
    intros u g3 [Hgen3 Hch3]. split; [exact Hgen3|].
    eapply level_changed_trans; [|exact Hch3].
    apply same_but_random_level_changed, Hs.
  - apply returns_ret. split; [exact Hgen2|].
    apply same_but_random_level_changed, Hs.
Qed.

Lemma set_tile_type_returns (x y : Z) (ty : TileType) (g : Game) :
  wf_grid (tiles (engine g)) ->
  (0 <= x < levelWidth)%Z -> (0 <= y < levelHeight)%Z ->
  returns (set_tile_type x y ty) g
          (fun _ g' => wf_grid (tiles (engine g')) /\ level_changed g g').
Proof.
  intros Hwf Hx Hy.
  destruct (grid_set_type_wf _ x y ty Hwf Hx Hy) as (tl' & old & _ & Hty & Hset).
  eapply returns_set_tile_type; [exact Hty|].
  split; [eapply grid_set_wf; eauto|].
  unfold level_changed. cbn. repeat split.
  destruct g as [e [p st inp prs] es r c]. destruct p. reflexivity.
Qed.

Lemma placeEntranceAndExit_returns (g : Game) :
  wf_grid (tiles (engine g)) ->
  returns placeEntranceAndExit g
          (fun _ g' => wf_grid (tiles (engine g')) /\ level_changed g g').
Proof.
  intros Hwf. unfold placeEntranceAndExit.
  apply returns_bind, returns_get.
  apply returns_bind. eapply returns_lift_option; [apply floorTiles_filter, Hwf|].
  set (cells := List.filter _ _).
  assert (Hsub : forall c, In c cells -> In c scan_order).
  { intros c Hc. apply List.filter_In in Hc. tauto. }
  destruct cells as [|entrance rest].
  { apply returns_ret. split; [exact Hwf|apply level_changed_refl]. }
  destruct (2 <=? length (entrance :: rest))%nat eqn:E; cbn [when];
    [|apply returns_ret; split; [exact Hwf|apply level_changed_refl]].
  assert (Hrest : rest <> []).
  { intros ->. cbn in E. discriminate. }
  pose proof (last_In rest entrance Hrest) as Hlast.
  destruct (proj1 (In_scan_order entrance) (Hsub _ (or_introl eq_refl))) as [Hex Hey].
  destruct (proj1 (In_scan_order _) (Hsub _ (or_intror Hlast))) as [Hxx Hxy].
  cbv zeta.
  apply returns_bind. eapply returns_weaken; [apply set_tile_type_returns; assumption|].
  intros u g1 [Hwf1 Hch1]. cbn beta.
  apply returns_bind. eapply returns_weaken; [apply set_tile_type_returns; assumption|].
  intros u' g2 [Hwf2 Hch2]. cbn beta.
  apply returns_modify. split; [exact Hwf2|].
  eapply level_changed_trans; [exact Hch1|].
  eapply level_changed_trans; [exact Hch2|].
  unfold level_changed. cbn. repeat split.
  destruct (engine g2); reflexivity.
Qed.

Lemma wall_grid_generating : wf_grid wall_grid /\ unplaced wall_grid.
Proof.
  unfold wf_grid, unplaced, wall_grid. split; [split|].
  - rewrite length_map, length_Zrange. reflexivity.
  - apply Forall_forall. intros row Hrow.
    apply list_elem_of_In, in_map_iff in Hrow as (y & <- & _).
    rewrite length_map, length_Zrange. reflexivity.
  - apply Forall_forall. intros row Hrow.
    apply list_elem_of_In, in_map_iff in Hrow as (y & <- & _).
    apply Forall_forall. intros t Ht.
    apply list_elem_of_In, in_map_iff in Ht as (x & <- & _).
    split; reflexivity.
Qed.

(** The grid [generateLevel] hands to [placeEntranceAndExit] is a full grid
    on which nothing is placed yet. *)
Lemma carving_returns (rt : Runtime) (g : Game) :
  random_in_range rt ->
  returns (modify (with_engine (eng_with_tiles wall_grid)) >>
           generateRooms rt >>
           generateCorridors rt) g
          (fun _ g' => wf_grid (tiles (engine g')) /\ unplaced (tiles (engine g'))).
Proof.
  intros Hrnd. apply returns_bind, returns_modify.
  apply returns_bind. eapply returns_weaken.
  { apply generateRooms_returns; [exact Hrnd|exact wall_grid_generating]. }
  intros u1 g1 [Hgen1 _]. cbn beta.
  eapply returns_weaken; [apply generateCorridors_returns; assumption|].
  intros u2 g2 [Hgen2 _]. exact Hgen2.
Qed.

(** [generateLevel] always returns: every write of the generation falls
    inside the 50x50 array.  It leaves a full grid and touches nothing but
    the tiles, the player's position and the random source. *)
Lemma generateLevel_returns (rt : Runtime) (g : Game) :
  random_in_range rt ->
  returns (generateLevel rt) g
          (fun _ g' => wf_grid (tiles (engine g')) /\ level_changed g g').
Proof.
  intros Hrnd. unfold generateLevel.
  apply returns_bind, returns_modify.
  set (g0 := with_engine (eng_with_tiles wall_grid) g).
  assert (Hch0 : level_changed g g0).
  { unfold level_changed, g0. cbn. repeat split.
    destruct g as [e [p st inp prs] es r c]. destruct p. reflexivity. }
  assert (Hgen0 : generating g0) by exact wall_grid_generating.
  apply returns_bind. eapply returns_weaken; [apply generateRooms_returns; assumption|].
  intros u1 g1 [Hgen1 Hch1]. cbn beta.
  apply returns_bind. eapply returns_weaken; [apply generateCorridors_returns; assumption|].
  intros u2 g2 [Hgen2 Hch2]. cbn beta.
  eapply returns_weaken; [apply placeEntranceAndExit_returns, Hgen2|].
  intros u3 g3 [Hwf3 Hch3]. split; [exact Hwf3|].
  eauto using level_changed_trans.
Qed.

(** ** The simulation part of a frame leaves the level alone *)

Lemma level_kept_refl (g : Game) : level_kept g g.
Proof. split; reflexivity. Qed.

Lemma level_kept_trans (g1 g2 g3 : Game) :
  level_kept g1 g2 -> level_kept g2 g3 -> level_kept g1 g3.
Proof. unfold level_kept. intros [? ?] [? ?]. split; congruence. Qed.

Lemma preserves_ret {A : Type} (a : A) : preserves (ret a).
Proof. intros g a' g' [= _ <-]. apply level_kept_refl. Qed.

Lemma preserves_throw {A : Type} : preserves (@throw A).
Proof. intros g a g' H. discriminate H. Qed.

Lemma preserves_get : preserves get.
Proof. intros g a g' [= _ <-]. apply level_kept_refl. Qed.

Lemma preserves_bind {A B : Type} (m : M A) (k : A -> M B) :
  preserves m -> (forall a, preserves (k a)) -> preserves (bind m k).
Proof.
  intros Hm Hk g b g' H. unfold bind in H.
  destruct (m g) as [[a g1]|] eqn:E; [|discriminate].
  eapply level_kept_trans; [eapply Hm; eauto|eapply Hk; eauto].
Qed.

Lemma preserves_modify (f : Game -> Game) :
  (forall g, level_kept g (f g)) -> preserves (modify f).
Proof. intros Hf g a g' [= _ <-]. apply Hf. Qed.

Lemma preserves_when (b : bool) (m : M unit) : preserves m -> preserves (when b m).
Proof. intros Hm. destruct b; [exact Hm|apply preserves_ret]. Qed.

Lemma preserves_lift_option {A : Type} (o : option A) : preserves (lift_option o).
Proof. destruct o; [apply preserves_ret|apply preserves_throw]. Qed.

Lemma preserves_forM_ {A : Type} (l : list A) (f : A -> M unit) :
  (forall a, preserves (f a)) -> preserves (forM_ l f).
Proof.
  intros Hf. induction l as [|a l IH]; cbn [forM_].
  - apply preserves_ret.
  - apply preserves_bind; [apply Hf|intros _; exact IH].
Qed.

Lemma preserves_filterM {A : Type} (f : A -> M (A * bool)) (l : list A) :
  (forall a, preserves (f a)) -> preserves (filterM f l).
Proof.
  intros Hf. induction l as [|a l IH]; cbn [filterM].
  - apply preserves_ret.
  - apply preserves_bind; [apply Hf|]. intros [a' keep].
    apply preserves_bind; [exact IH|]. intros rest. apply preserves_ret.
Qed.

Lemma preserves_js_random (rt : Runtime) : preserves (js_random rt).
Proof. intros g a g' [= _ <-]. split; reflexivity. Qed.

Lemma preserves_js_now (rt : Runtime) : preserves (js_now rt).
Proof. intros g a g' [= _ <-]. split; reflexivity. Qed.

Create HintDb pres.

#[local] Hint Resolve preserves_js_random preserves_js_now : pres.

Ltac pres_step :=
  cbv beta zeta;
  match goal with
  | |- preserves (bind _ _) => apply preserves_bind; [|intros ?]
  | |- preserves (ret _) => apply preserves_ret
  | |- preserves throw => apply preserves_throw
  | |- preserves get => apply preserves_get
  | |- preserves (modify _) =>
      apply preserves_modify; intros ?; split; reflexivity
  | |- preserves (when _ _) => apply preserves_when
  | |- preserves (lift_option _) => apply preserves_lift_option
  | |- preserves (forM_ _ _) => apply preserves_forM_; intros ?
  | |- preserves (filterM _ _) => apply preserves_filterM; intros ?
  | |- preserves (if ?b then _ else _) => destruct b
  | |- preserves (match ?x with _ => _ end) => destruct x
  | |- preserves _ => solve [auto with pres]
  end.

Ltac pres := repeat pres_step.

Lemma preserves_isWalkable (x y : number) : preserves (isWalkable x y).
Proof. unfold isWalkable. pres. Qed.
#[local] Hint Resolve preserves_isWalkable : pres.

Lemma preserves_isWalkable_js (x y : jsnum) : preserves (isWalkable_js x y).
Proof. unfold isWalkable_js. pres. Qed.
#[local] Hint Resolve preserves_isWalkable_js : pres.

Lemma preserves_getPlayer : preserves getPlayer.
Proof. unfold getPlayer. pres. Qed.
#[local] Hint Resolve preserves_getPlayer : pres.

Lemma preserves_updatePlayerStats : preserves updatePlayerStats.
Proof. unfold updatePlayerStats. pres. Qed.
#[local] Hint Resolve preserves_updatePlayerStats : pres.

Lemma preserves_takeDamage (damage : number) : preserves (takeDamage damage).
Proof. unfold takeDamage, onPlayerDeath, stopGame. pres. Qed.
#[local] Hint Resolve preserves_takeDamage : pres.

Lemma preserves_showLevelUpScreen (rt : Runtime) : preserves (showLevelUpScreen rt).
Proof. unfold showLevelUpScreen, generateLevelUpOptions. pres. Qed.
#[local] Hint Resolve preserves_showLevelUpScreen : pres.

Lemma preserves_gainXP (rt : Runtime) (amount : number) : preserves (gainXP rt amount).
Proof. unfold gainXP, levelUp. pres. Qed.
#[local] Hint Resolve preserves_gainXP : pres.

Lemma preserves_PlayerService_update (rt : Runtime) (deltaTime : number) :
  preserves (PlayerService_update rt deltaTime).
Proof.
  unfold PlayerService_update, handleMovement, handleAttack, attack,
    handleRegeneration, updateProjectiles.
  pres.
Qed.
#[local] Hint Resolve preserves_PlayerService_update : pres.

Lemma preserves_updatePatrolBehavior (rt : Runtime) (enemy : Enemy) (deltaTime : number) :
  preserves (updatePatrolBehavior rt enemy deltaTime).
Proof. unfold updatePatrolBehavior. pres. Qed.
#[local] Hint Resolve preserves_updatePatrolBehavior : pres.

Lemma preserves_updateEnemyAI (rt : Runtime) (enemy : Enemy) (deltaTime : number) :
  preserves (updateEnemyAI rt enemy deltaTime).
Proof.
  unfold updateEnemyAI, updateMeleeAI, updateRangedAI, updateFastAI, updateBossAI.
  pres.
Qed.
#[local] Hint Resolve preserves_updateEnemyAI : pres.

Lemma preserves_createEnemyProjectile (rt : Runtime) (enemy : Enemy) (angleOffset : number) :
  preserves (createEnemyProjectile rt enemy angleOffset).
Proof. unfold createEnemyProjectile. pres. Qed.
#[local] Hint Resolve preserves_createEnemyProjectile : pres.

Lemma preserves_updateEnemyAttack (rt : Runtime) (enemy : Enemy) :
  preserves (updateEnemyAttack rt enemy).
Proof. unfold updateEnemyAttack. pres. Qed.
#[local] Hint Resolve preserves_updateEnemyAttack : pres.

Lemma preserves_forEach_enemy (f : Enemy -> M Enemy) :
  (forall e, preserves (f e)) -> preserves (forEach_enemy f).
Proof. intros Hf. unfold forEach_enemy. pres. Qed.

Lemma preserves_killEnemy (rt : Runtime) (enemy : Enemy) : preserves (killEnemy rt enemy).
Proof. unfold killEnemy, onEnemyKilled. pres. Qed.
#[local] Hint Resolve preserves_killEnemy : pres.

Lemma preserves_damageEnemy (rt : Runtime) (ref : nat) (damage : number)
  (detached : list Enemy) :
  preserves (damageEnemy rt ref damage detached).
Proof. unfold damageEnemy. pres. Qed.
#[local] Hint Resolve preserves_damageEnemy : pres.

Lemma preserves_apply_hits (rt : Runtime) (hits : list (nat * number)) :
  forall detached, preserves (apply_hits rt hits detached).
Proof.
  induction hits as [|[ref damage] hits IH]; intros detached; cbn [apply_hits].
  - apply preserves_ret.
  - apply preserves_bind; [apply preserves_damageEnemy|]. intros d. apply IH.
Qed.
#[local] Hint Resolve preserves_apply_hits : pres.

Lemma preserves_EnemyService_update (rt : Runtime) (deltaTime : number) :
  preserves (EnemyService_update rt deltaTime).
Proof.
  unfold EnemyService_update, updateEnemyProjectiles,
    EnemyService_checkProjectileCollisions, checkProjectileEnemyCollision.
  pres_step; [apply preserves_forEach_enemy; intros e; pres|].
  pres.
Qed.
#[local] Hint Resolve preserves_EnemyService_update : pres.

Lemma preserves_checkCollisions (rt : Runtime) : preserves (checkCollisions rt).
Proof.
  unfold checkCollisions, checkPlayerWallCollision, handleWallCollision,
    checkPlayerCollisions, checkProjectileCollisions.
  pres_step; [pres|]. pres_step; [apply preserves_forEach_enemy; intros e; pres|].
  pres.
Qed.
#[local] Hint Resolve preserves_checkCollisions : pres.

Lemma preserves_update_simulation (rt : Runtime) (timestamp : number) :
  preserves (update_simulation rt timestamp).
Proof. unfold update_simulation, updateCamera. pres. Qed.

(** ** GameEngineService.checkLevelProgression and nextFloor *)

Lemma spawnBoss_returns (rt : Runtime) (g : Game) :
  returns (spawnBoss rt) g (fun _ g' =>
    engine g' = engine g /\ playerService g' = playerService g /\
    enemyProjectiles (enemyService g') = enemyProjectiles (enemyService g) /\
    exists b, enemies (enemyService g') = enemies (enemyService g) ++ [b] /\
              e_type b = boss /\ e_id b = nextEnemyId (enemyService g)).
Proof.
  unfold spawnBoss. cbv zeta. apply returns_bind, returns_get.
  apply returns_bind. eapply returns_weaken; [apply createEnemy_returns|].
  intros b g1 (He & Hp & Hen & Hpr & _ & Hid & Hty & _). cbn beta.
  apply returns_modify. cbn.
  split; [exact He|]. split; [exact Hp|]. split; [exact Hpr|].
  exists b. rewrite Hen. auto.
Qed.

Lemma rem_mod_5 (a : Z) : (Z.rem a 5 =? 0)%Z = (a mod 5 =? 0)%Z.
Proof.
  destruct (Z.eqb_spec (Z.rem a 5) 0) as [H|H], (Z.eqb_spec (a mod 5) 0) as [H'|H'];
    try reflexivity; exfalso.
  - apply H'. apply Z.mod_divide; [lia|]. apply Z.rem_divide in H; [exact H|lia].
  - apply H. apply Z.rem_divide; [lia|]. apply Z.mod_divide in H'; [exact H'|lia].
Qed.

Lemma normal_not_boss (l : list Enemy) :
  Forall (fun e => normal_type (e_type e)) l -> List.filter is_boss l = [].
Proof.
  induction 1 as [|e l He _ IH]; [reflexivity|].
  cbn [List.filter]. unfold is_boss at 1.
  destruct He as [-> | [-> | ->]]; exact IH.
Qed.

Lemma nextFloor_returns (rt : Runtime) (g : Game) :
  random_in_range rt -> (0 <= currentFloor (engine g))%Z ->
  returns (nextFloor rt) g (fun _ g' => floor_advanced rt g g').
Proof.
  intros Hrnd Hfloor. unfold nextFloor.
  apply returns_bind, returns_modify.
  set (f' := (currentFloor (engine g) + 1)%Z).
  change (with_engine _ g) with (with_engine (eng_with_currentFloor f') g).
  set (g0 := with_engine (eng_with_currentFloor f') g).
  destruct (generateLevel_returns rt g0 Hrnd) as ([] & g1 & Hgen & Hwf1 & Hch1).
  apply returns_bind. exists tt, g1. split; [exact Hgen|].
  apply returns_bind, returns_get.
  destruct Hch1 as (Hes1 & _ & He1 & _).
  assert (Hf1 : currentFloor (engine g1) = f') by (rewrite He1; reflexivity).
  rewrite Hf1.
  apply returns_bind. eapply returns_weaken.
  { apply spawnEnemiesForFloor_returns; assumption. }
  intros u g2 (He2 & _ & Hpr2 & Hid2 & new & Hen2 & Hlen & Htys & Hids & Hseq).
  cbn in He2, Hpr2, Hid2, Hen2, Hids, Hseq. cbn beta.
  apply returns_bind, returns_get.
  rewrite He2, Hf1, rem_mod_5.
  assert (Hcount : Z.of_nat (length new) = Z.min (3 + f' / 2) 15).
  { rewrite Hlen. apply Z2Nat.id.
    assert (0 <= f' / 2)%Z by (apply Z.div_pos; lia). lia. }
  rewrite Hes1 in Hids. change (enemyService g0) with (enemyService g) in Hids.
  destruct (f' mod 5 =? 0)%Z eqn:E5; cbn [when].
  - eapply returns_weaken; [apply spawnBoss_returns|].
    intros u' g3 (He3 & _ & Hpr3 & b & Hen3 & Htyb & Hidb).
    unfold floor_advanced. fold f'. rewrite E5.
    split; [rewrite He3, He2; exact Hf1|].
    split; [exists g1; split; [exact Hgen|rewrite He3, He2; reflexivity]|].
    split; [rewrite He3, He2; exact Hwf1|].
    rewrite Hen3, Hen2.
    split; [rewrite length_app; cbn [length]; lia|].
    split.
    { rewrite List.filter_app, normal_not_boss by exact Htys.
      cbn. unfold is_boss. rewrite Htyb. reflexivity. }
    split; [|split; [|congruence]].
    + apply Forall_app. split; [exact Hids|].
      constructor; [|constructor]. rewrite Hidb, Hid2, Hes1. cbn. lia.
    + rewrite map_app, Hseq. cbn [map]. rewrite Hidb, Hid2, <- List.seq_S.
      apply List.seq_NoDup.
  - apply returns_ret.
    unfold floor_advanced. fold f'. rewrite E5.
    split; [rewrite He2; exact Hf1|].
    split; [exists g1; split; [exact Hgen|rewrite He2; reflexivity]|].
    split; [rewrite He2; exact Hwf1|].
    rewrite Hen2.
    split; [lia|].
    split; [rewrite normal_not_boss by exact Htys; reflexivity|].
    split; [exact Hids|]. split; [|exact Hpr2].
    rewrite Hseq. apply List.seq_NoDup.
Qed.

Lemma checkLevelProgression_returns (rt : Runtime) (g : Game) :
  random_in_range rt -> wf_grid (tiles (engine g)) ->
  (0 <= currentFloor (engine g))%Z ->
  returns (checkLevelProgression rt) g (fun _ g' =>
    if exit_reached g && floor_cleared g then floor_advanced rt g g' else g' = g).
Proof.
  intros Hrnd Hwf Hfloor. unfold checkLevelProgression, exit_reached. cbv zeta.
  apply returns_bind, returns_get.
  set (tileX := Math_floor _). set (tileY := Math_floor _).
  destruct (in_level tileX tileY) eqn:Ein; cbn [when andb];
    [|apply returns_ret; reflexivity].
  pose proof Ein as Ein'. apply in_level_spec in Ein' as [Hx Hy].
  destruct (tile_at_wf _ _ _ Hwf Hx Hy) as [t Ht]. rewrite Ht.
  apply returns_bind. eapply returns_lift_option; [reflexivity|].
  unfold getEnemyCount. apply returns_bind, returns_bind, returns_get.
  apply returns_ret. unfold floor_cleared.
  replace (Z.of_nat (length (enemies (enemyService g))) =? 0)%Z
    with (length (enemies (enemyService g)) =? 0)%nat
    by (destruct (enemies (enemyService g)); reflexivity).
  destruct (is_exit (tile_type t) && (length (enemies (enemyService g)) =? 0)%nat);
    cbn [when].
  - apply nextFloor_returns; assumption.
  - apply returns_ret. reflexivity.
Qed.

Lemma updateGameStats_returns (rt : Runtime) (g : Game) :
  returns (updateGameStats rt) g (fun _ g' =>
    playerService g' = playerService g /\ enemyService g' = enemyService g /\
    currentFloor (engine g') = currentFloor (engine g) /\
    tiles (engine g') = tiles (engine g) /\
    gs_currentFloor (gameStats (engine g')) = currentFloor (engine g)).
Proof.
  unfold updateGameStats, js_now. eexists _, _. split; [reflexivity|].
  repeat split.
Qed.

(** The progression check of a frame, given the state [mid] its simulation
    part has produced. *)
Lemma floor_progression_after (rt : Runtime) (timestamp : number) (g mid : Game)
  (Hrnd : random_in_range rt)
  (Hwf : wf_grid (tiles (engine g)))
  (Hfloor : (1 <= currentFloor (engine g))%Z)
  (Hplay : gameState (engine g) = PLAYING)
  (Hsim : update_simulation rt timestamp g = Some (tt, mid)) :
  exists g',
    update rt timestamp g = Some (tt, g') /\
    level_kept g mid /\
    (currentFloor (engine g') = (currentFloor (engine g) + 1)%Z <->
     exit_reached mid = true /\ enemies (enemyService mid) = []) /\
    (enemies (enemyService mid) <> [] -> level_kept g g') /\
    (if exit_reached mid && floor_cleared mid
     then floor_advanced rt mid g'
     else level_kept g g' /\ enemyService g' = enemyService mid /\
          playerService g' = playerService mid).
Proof.
  pose proof (preserves_update_simulation rt timestamp g tt mid Hsim) as Hkept.
  destruct Hkept as [Htiles Hfl].
  assert (Hwfm : wf_grid (tiles (engine mid))) by (rewrite Htiles; exact Hwf).
  assert (Hflm : (0 <= currentFloor (engine mid))%Z) by lia.
  destruct (checkLevelProgression_returns rt mid Hrnd Hwfm Hflm)
    as ([] & g1 & Hcheck & Hcase).
  destruct (updateGameStats_returns rt g1) as ([] & g' & Hstats & Hp & Hes & Hf' & Ht' & _).
  assert (Hupd : update rt timestamp g = Some (tt, g')).
  { unfold update, bind at 1, get. rewrite Hplay. cbn [is_playing negb].
    unfold bind. rewrite Hsim, Hcheck. exact Hstats. }
  assert (Hclear : floor_cleared mid = true <-> enemies (enemyService mid) = []).
  { unfold floor_cleared. destruct (enemies (enemyService mid)); cbn; split; congruence. }
  exists g'. split; [exact Hupd|]. split; [split; assumption|].
  destruct (exit_reached mid && floor_cleared mid) eqn:E.
  - assert (Hadv : floor_advanced rt mid g').
    { destruct Hcase as (H1 & H2 & H3 & H4 & H5 & H6 & H7 & H8).
      unfold floor_advanced. rewrite Hes, Ht', Hf'.
      split; [exact H1|]. split; [exact H2|]. split; [exact H3|].
      split; [exact H4|]. split; [exact H5|]. split; [exact H6|].
      split; [exact H7|exact H8]. }
    apply andb_true_iff in E as [Eexit Eclear].
    split; [|split; [|exact Hadv]].
    + split; [intros _; split; [exact Eexit|apply Hclear, Eclear]|].
      intros _. destruct Hadv as [-> _]. rewrite Hfl. reflexivity.
    + intros Hne. exfalso. apply Hne, Hclear, Eclear.
  - subst g1.
    assert (Hk : level_kept g g') by (split; congruence).
    split; [|split; [intros _; exact Hk|auto]].
    split.
    + intros Hc. destruct Hk as [_ Hk]. lia.
    + intros [Eexit Eempty]. apply Hclear in Eempty.
      rewrite Eexit, Eempty in E. discriminate.
Qed.

(** Outside [PLAYING] a frame does nothing. *)
Lemma update_idle (rt : Runtime) (timestamp : number) (g : Game) :
  gameState (engine g) <> PLAYING -> update rt timestamp g = Some (tt, g).
Proof.
  intros H. unfold update, bind, get.
  destruct (gameState (engine g)); try reflexivity. congruence.
Qed.

(** ** The sample runtime and the sample states *)

Lemma sample_random_in_range : random_in_range sample_runtime.
Proof.
  intros n. cbn [Math_random sample_runtime].
  pose proof (Nat.mod_upper_bound (7 * n + 3) 16 ltac:(discriminate)) as H.
  split.
  - unfold Qle. cbn. lia.
  - unfold Qlt. cbn. lia.
Qed.

Lemma wf_gridb_sound (tl : grid) : wf_gridb tl = true -> wf_grid tl.
Proof.
  unfold wf_gridb, wf_grid. intros H.
  apply andb_true_iff in H as [Hlen Hrows].
  apply Nat.eqb_eq in Hlen. split; [exact Hlen|].
  apply Forall_forall. intros row Hrow.
  rewrite forallb_forall in Hrows. apply Nat.eqb_eq, Hrows.
  apply list_elem_of_In. exact Hrow.
Qed.

Lemma unplacedb_sound (tl : grid) : unplacedb tl = true -> unplaced tl.
Proof.
  unfold unplacedb, unplaced. intros H.
  apply Forall_forall. intros row Hrow. apply Forall_forall. intros t Ht.
  rewrite forallb_forall in H.
  specialize (H row (proj1 (list_elem_of_In _ _) Hrow)).
  rewrite forallb_forall in H.
  specialize (H t (proj1 (list_elem_of_In _ _) Ht)).
  apply andb_true_iff in H as [H1 H2].
  apply negb_true_iff in H1, H2. auto.
Qed.

(** Before the first [generateLevel] the tile array is empty, and a query
    inside the bounds reads a property of [undefined]. *)
Example isWalkable_before_generation : isWalkable 100 100 initial_game = None.
Proof. reflexivity. Qed.

Lemma isWalkable_total_witness :
  exists b, isWalkable (-5) 100 started_game = Some (b, started_game) /\ b = false.
Proof.
  destruct (isWalkable_total started_game (-5) 100) as (b & Hrun & _ & Hneg & _).
  - apply wf_gridb_sound. vm_compute. reflexivity.
  - exists b. split; [exact Hrun|]. apply Hneg. left. reflexivity.
Defined.

Lemma spawnEnemiesForFloor_count_witness :
  exists g',
    spawnEnemiesForFloor sample_runtime 7 started_game = Some (tt, g') /\
    Z.of_nat (length (enemies (enemyService g'))) = 6%Z.
Proof.
  destruct (spawnEnemiesForFloor_count sample_runtime started_game 7)
    as (g' & Hrun & Hcount & _).
  - exact sample_random_in_range.
  - apply wf_gridb_sound. vm_compute. reflexivity.
  - lia.
  - exists g'. split; [exact Hrun|exact Hcount].
Defined.

Lemma placeEntranceAndExit_spec_witness :
  exists g',
    placeEntranceAndExit carved_game = Some (tt, g') /\
    count_tiles (fun t => is_entrance (tile_type t)) (tiles (engine g')) = 1%nat /\
    count_tiles (fun t => is_exit (tile_type t)) (tiles (engine g')) = 1%nat.
Proof.
  destruct (placeEntranceAndExit_spec carved_game) as [_ H].
  - apply wf_gridb_sound. vm_compute. reflexivity.
  - apply unplacedb_sound. vm_compute. reflexivity.
  - destruct (List.filter (walkable_at (tiles (engine carved_game))) scan_order)
      as [|entrance [|c rest]] eqn:E.
    + vm_compute in E. discriminate E.
    + vm_compute in E. discriminate E.
    + destruct H as (g' & Hrun & Hent & Hexit & _).
      exists g'. auto.
Defined.

(** ** Health stays between 0 and the maximum *)

Lemma takeDamage_returns (damage : number) (g : Game) :
  returns (takeDamage damage) g (fun _ g' =>
    player (playerService g') =
      pl_with_health (Qmax 0 (p_health (player (playerService g)) - damage))
                     (player (playerService g)) /\
    enemyService g' = enemyService g).
Proof.
  unfold takeDamage, updatePlayerStats, getPlayer, onPlayerDeath, stopGame.
  apply returns_bind, returns_modify.
  apply returns_bind, returns_modify.
  apply returns_bind, returns_bind, returns_get. apply returns_ret.
  match goal with |- returns (when ?b _) _ _ => destruct b end; cbn [when];
    [apply returns_modify|apply returns_ret]; split; reflexivity.
Qed.

Lemma takeDamage_health_ok (damage : number) (g : Game) :
  0 <= damage -> player_health_ok g ->
  returns (takeDamage damage) g (fun _ g' =>
    player_health_ok g' /\ enemyService g' = enemyService g).
Proof.
  intros Hd [H0 Hmax].
  eapply returns_weaken; [apply takeDamage_returns|].
  intros u g' [Hp Hes]. split; [|exact Hes].
  unfold player_health_ok. rewrite Hp. cbn. split.
  - apply Q.le_max_l.
  - apply Q.max_lub; lra.
Qed.

Lemma handleRegeneration_health_ok (rt : Runtime) (deltaTime : number) (g : Game) :
  player_health_ok g ->
  returns (handleRegeneration rt deltaTime) g (fun _ g' => player_health_ok g').
Proof.
  intros [H0 Hmax]. unfold handleRegeneration, getPlayer, updatePlayerStats.
  apply returns_bind, returns_bind, returns_get. apply returns_ret.
  match goal with |- returns (when ?b _) _ _ => destruct b end; cbn [when];
    [|apply returns_ret; split; assumption].
  apply returns_bind. unfold js_now. eexists _, _. split; [reflexivity|].
  match goal with |- returns (when ?b _) _ _ => destruct b end; cbn [when];
    [|apply returns_ret; split; assumption].
  apply returns_bind, returns_modify. apply returns_modify.
  unfold player_health_ok. cbn. split.
  - apply Q.min_glb; lra.
  - apply Q.le_min_l.
Qed.

Lemma selectUpgrade_health_ok (rt : Runtime) (upgrade : UpgradeId) (g : Game) :
  player_health_ok g ->
  returns (selectUpgrade rt upgrade) g (fun _ g' => player_health_ok g').
Proof.
  intros [H0 Hmax]. unfold selectUpgrade.
  destruct upgrade; cbn [upgrade_effect];
    unfold upgradeMaxHealth, upgradeDamage, upgradeSpeed, upgradeAttackSpeed,
      enableRegeneration, updatePlayerStats, js_now;
    eexists _, _; (split; [reflexivity|]); unfold player_health_ok; cbn;
    split; lra.
Qed.

Lemma run_calls_health_ok (rt : Runtime) (calls : list PlayerCall) :
  forall g, Forall nonneg_damage calls -> player_health_ok g ->
    returns (run_calls rt calls) g (fun _ g' => player_health_ok g').
Proof.
  induction calls as [|c calls IH]; intros g Hcalls Hok; cbn [run_calls forM_].
  - apply returns_ret. exact Hok.
  - apply Forall_cons in Hcalls as [Hc Hcalls].
    apply returns_bind. eapply returns_weaken with (P := fun _ g' => player_health_ok g').
    + destruct c as [damage|deltaTime|upgrade]; cbn [run_call].
      * eapply returns_weaken; [apply takeDamage_health_ok; assumption|].
        cbn. tauto.
      * apply handleRegeneration_health_ok, Hok.
      * apply selectUpgrade_health_ok, Hok.
    + intros u g1 Hok1. apply IH; assumption.
Qed.

Lemma find_id_Some (ref : nat) (l : list Enemy) (e : Enemy) :
  find_id ref l = Some e -> In e l /\ e_id e = ref.
Proof.
  unfold find_id. intros H. apply List.find_some in H as [Hin Hid].
  apply Nat.eqb_eq in Hid. auto.
Qed.

Lemma find_id_replace (r : nat) (e' : Enemy) (l : list Enemy) :
  is_Some (find_id r (replace_id e' l)) <-> is_Some (find_id r l).
Proof.
  unfold find_id. induction l as [|e l IH]; [reflexivity|].
  cbn [replace_id]. destruct (Nat.eqb_spec (e_id e) (e_id e')) as [Heq|Hne].
  - cbn [List.find]. rewrite <- Heq.
    destruct (e_id e =? r)%nat; [split; eauto|reflexivity].
  - cbn [List.find]. destruct (e_id e =? r)%nat; [split; eauto|exact IH].
Qed.

Lemma find_id_remove (r ref : nat) (l : list Enemy) :
  r <> ref -> is_Some (find_id r l) -> is_Some (find_id r (remove_first_id ref l)).
Proof.
  unfold find_id. intros Hne. induction l as [|e l IH]; [auto|].
  cbn [remove_first_id List.find].
  destruct (Nat.eqb_spec (e_id e) r) as [Her|Her].
  - destruct (Nat.eqb_spec (e_id e) ref) as [Heref|_]; [congruence|].
    cbn [List.find]. rewrite (proj2 (Nat.eqb_eq _ _) Her). eauto.
  - intros H. destruct (Nat.eqb_spec (e_id e) ref) as [_|_]; [exact H|].
    cbn [List.find]. rewrite (proj2 (Nat.eqb_neq _ _) Her). apply IH, H.
Qed.

Lemma remove_replace (e' : Enemy) (l : list Enemy) :
  remove_first_id (e_id e') (replace_id e' l) = remove_first_id (e_id e') l.
Proof.
  induction l as [|e l IH]; [reflexivity|].
  cbn [replace_id remove_first_id].
  destruct (Nat.eqb_spec (e_id e) (e_id e')) as [Heq|Hne]; cbn [remove_first_id].
  - rewrite Nat.eqb_refl. reflexivity.
  - rewrite (proj2 (Nat.eqb_neq _ _) Hne), IH. reflexivity.
Qed.

Lemma Forall_remove_first_id (P : Enemy -> Prop) (ref : nat) (l : list Enemy) :
  Forall P l -> Forall P (remove_first_id ref l).
Proof.
  induction 1 as [|e l He Hl IH]; [constructor|].
  cbn [remove_first_id]. destruct (e_id e =? ref)%nat; [exact Hl|].
  constructor; assumption.
Qed.

Lemma Forall_replace_id (P : Enemy -> Prop) (e' : Enemy) (l : list Enemy) :
  P e' -> Forall P l -> Forall P (replace_id e' l).
Proof.
  intros He'. induction 1 as [|e l He Hl IH]; [constructor|].
  cbn [replace_id]. destruct (e_id e =? e_id e')%nat; constructor; assumption.
Qed.

Lemma gainXP_returns (rt : Runtime) (amount : number) (g : Game) :
  returns (gainXP rt amount) g (fun _ g' =>
    enemyService g' = enemyService g /\
    p_health (player (playerService g')) = p_health (player (playerService g)) /\
    p_maxHealth (player (playerService g')) = p_maxHealth (player (playerService g))).
Proof.
  unfold returns, gainXP, levelUp, showLevelUpScreen, generateLevelUpOptions,
    updatePlayerStats, getPlayer, bind, modify, get, ret.
  cbn beta iota.
  destruct (Qgeb _ _); cbn [when].
  - destruct (sort_random _ _ _) as [shuffled k].
    eexists _, _. split; [reflexivity|]. repeat split.
  - eexists _, _. split; [reflexivity|]. repeat split.
Qed.

Lemma killEnemy_returns (rt : Runtime) (enemy : Enemy) (g : Game) :
  returns (killEnemy rt enemy) g (fun _ g' =>
    enemies (enemyService g') =
      remove_first_id (e_id enemy) (enemies (enemyService g)) /\
    same_player_health g g').
Proof.
  unfold killEnemy, onEnemyKilled.
  apply returns_bind. eapply returns_weaken; [apply gainXP_returns|].
  intros u g1 (Hes & Hh & Hm). cbn beta.
  apply returns_bind, returns_modify. apply returns_modify.
  cbn. rewrite Hes. repeat split; assumption.
Qed.

Lemma find_id_cons_same (e : Enemy) (l : list Enemy) :
  is_Some (find_id (e_id e) (e :: l)).
Proof. unfold find_id. cbn [List.find]. rewrite Nat.eqb_refl. eauto. Qed.

Lemma find_id_cons_other (r : nat) (e : Enemy) (l : list Enemy) :
  is_Some (find_id r l) -> is_Some (find_id r (e :: l)).
Proof.
  unfold find_id. cbn [List.find]. destruct (e_id e =? r)%nat; eauto.
Qed.

Lemma find_id_None_remove (ref : nat) (l : list Enemy) :
  find_id ref l = None -> remove_first_id ref l = l.
Proof.
  unfold find_id. induction l as [|e l IH]; [reflexivity|].
  cbn [List.find remove_first_id].
  destruct (e_id e =? ref)%nat; [discriminate|]. intros H. rewrite IH; auto.
Qed.

(** One hit, for any property [P] of enemies that survives the loss of
    health of an enemy that stays alive. *)
Lemma damageEnemy_returns (rt : Runtime) (P : Enemy -> Prop) (ref : nat)
  (damage : number) (detached : list Enemy) (g : Game) :
  (forall e, P e -> 0 < e_health e - damage ->
             P (en_with_health (e_health e - damage) e)) ->
  Forall P (enemies (enemyService g)) ->
  reachable ref (enemies (enemyService g)) detached ->
  returns (damageEnemy rt ref damage detached) g (fun detached' g' =>
    Forall P (enemies (enemyService g')) /\
    same_player_health g g' /\
    forall r, reachable r (enemies (enemyService g)) detached ->
              reachable r (enemies (enemyService g')) detached').
Proof.
  intros Hstep Hok Hreach. unfold damageEnemy.
  apply returns_bind, returns_get.
  destruct (find_id ref (enemies (enemyService g))) as [e|] eqn:Elive.
  - destruct (find_id_Some _ _ _ Elive) as [Hin Hid].
    set (e' := en_with_health (e_health e - damage) e).
    assert (Hid' : e_id e' = ref) by exact Hid.
    assert (He : P e).
    { rewrite Forall_forall in Hok. apply Hok, list_elem_of_In, Hin. }
    apply returns_bind, returns_modify.
    destruct (Qle_bool (e_health e') 0) eqn:Edead.
    + apply returns_bind. eapply returns_weaken; [apply killEnemy_returns|].
      intros u g1 (Hen & Hh). cbn beta. apply returns_ret.
      cbn [with_enemyService enemyService es_with_enemies enemies] in Hen.
      rewrite Hen, remove_replace, Hid'.
      split; [apply Forall_remove_first_id, Hok|]. split; [exact Hh|].
      intros r [Hr|Hr].
      * destruct (Nat.eq_dec r ref) as [->|Hne].
        -- right. rewrite <- Hid'. apply find_id_cons_same.
        -- left. apply find_id_remove; assumption.
      * right. apply find_id_cons_other, Hr.
    + apply returns_ret. cbn.
      split; [|split; [split; reflexivity|]].
      * apply Forall_replace_id; [|exact Hok].
        apply Hstep; [exact He|].
        apply Qnot_le_lt. intros Hle. apply Qle_bool_iff in Hle.
        unfold e' in Edead. cbn in Edead. congruence.
      * intros r [Hr|Hr]; [left; apply find_id_replace, Hr|right; exact Hr].
  - destruct Hreach as [[e He]|Hdet]; [congruence|].
    destruct (find_id ref detached) as [e|] eqn:Edet;
      [|destruct Hdet as [e He]; discriminate].
    destruct (find_id_Some _ _ _ Edet) as [Hin Hid].
    set (e' := en_with_health (e_health e - damage) e).
    assert (Hid' : e_id e' = ref) by exact Hid.
    apply returns_bind with (Q := fun detached' g' => _).
    destruct (Qle_bool (e_health e') 0); cbn [when].
    + eapply returns_weaken; [apply killEnemy_returns|].
      intros u g1 (Hen & Hh). cbn beta. apply returns_ret.
      rewrite Hen, Hid', (find_id_None_remove _ _ Elive).
      split; [exact Hok|]. split; [exact Hh|].
      intros r [Hr|Hr]; [left; exact Hr|right; apply find_id_replace, Hr].
    + apply returns_ret. apply returns_ret.
      split; [exact Hok|]. split; [split; reflexivity|].
      intros r [Hr|Hr]; [left; exact Hr|right; apply find_id_replace, Hr].
Qed.

Lemma same_player_health_trans (g1 g2 g3 : Game) :
  same_player_health g1 g2 -> same_player_health g2 g3 -> same_player_health g1 g3.
Proof. unfold same_player_health. intros [? ?] [? ?]. split; congruence. Qed.

Lemma apply_hits_returns (rt : Runtime) (P : Enemy -> Prop)
  (hits : list (nat * number)) :
  forall (detached : list Enemy) (g : Game),
    Forall P (enemies (enemyService g)) ->
    Forall (fun hit =>
              (forall e, P e -> 0 < e_health e - snd hit ->
                         P (en_with_health (e_health e - snd hit) e)) /\
              reachable (fst hit) (enemies (enemyService g)) detached) hits ->
    returns (apply_hits rt hits detached) g (fun _ g' =>
      Forall P (enemies (enemyService g')) /\
      same_player_health g g').
Proof.
  induction hits as [|[ref damage] hits IH]; intros detached g Hok Hhits;
    cbn [apply_hits].
  - apply returns_ret. split; [exact Hok|split; reflexivity].
  - apply Forall_cons in Hhits as [[Hd Hreach] Hhits]. cbn [fst snd] in Hd, Hreach.
    apply returns_bind. eapply returns_weaken.
    { apply (damageEnemy_returns rt P); eassumption. }
    intros detached' g1 (Hok1 & Hh1 & Hreach1). cbn beta.
    eapply returns_weaken.
    { apply IH; [exact Hok1|].
      eapply Forall_impl; [exact Hhits|].
      intros [r d] [Hd' Hr]. split; [exact Hd'|apply Hreach1, Hr]. }
    intros u g2 [Hok2 Hh2]. split; [exact Hok2|].
    eapply same_player_health_trans; eassumption.
Qed.

Lemma enemy_health_ok_damaged (damage : number) (e : Enemy) :
  0 <= damage -> enemy_health_ok e -> 0 < e_health e - damage ->
  enemy_health_ok (en_with_health (e_health e - damage) e).
Proof.
  unfold enemy_health_ok. cbn. intros Hd [H0 Hmax] Hpos. split; lra.
Qed.

(** C3. Health stays within [0, maxHealth].
    Player: from a state where the player's health is in range, any
    sequence of [takeDamage] calls with non-negative amounts, regeneration
    ticks and level-up upgrades returns and leaves it in range.
    Enemies: from a state where every enemy of the live collection has its
    health in range, applying any list of hits with non-negative damage to
    enemies of the collection returns, and every enemy still in the
    collection afterwards has its health in range (an enemy whose health
    drops to 0 or below is removed in the same call); the hits leave the
    player's health alone. *)
Theorem health_stays_in_range (rt : Runtime) (g : Game)
  (calls : list PlayerCall) (hits : list (nat * number))
  (Hplayer : player_health_ok g)
  (Hcalls : Forall nonneg_damage calls)
  (Henemies : Forall enemy_health_ok (enemies (enemyService g)))
  (Hhits : Forall (valid_hit g) hits) :
  (exists g', run_calls rt calls g = Some (tt, g') /\ player_health_ok g') /\
  (exists g', apply_hits rt hits [] g = Some (tt, g') /\
              Forall enemy_health_ok (enemies (enemyService g')) /\
              player_health_ok g').
Proof.
  split.
  - destruct (run_calls_health_ok rt calls g Hcalls Hplayer) as ([] & g' & Hrun & Hok).
    eauto.
  - destruct (apply_hits_returns rt enemy_health_ok hits [] g Henemies)
      as ([] & g' & Hrun & Hok & Hh).
    { eapply Forall_impl; [exact Hhits|].
      intros hit [Hd Hlive]. split; [|left; exact Hlive].
      intros e. apply enemy_health_ok_damaged, Hd. }
    exists g'. split; [exact Hrun|]. split; [exact Hok|].
    destruct Hh as [Hh Hm]. unfold player_health_ok in *. cbn zeta in *.
    rewrite Hh, Hm. exact Hplayer.
Qed.

Lemma health_stays_in_range_witness :
  (exists g',
     run_calls sample_runtime
       [Call_takeDamage 30; Call_handleRegeneration 16;
        Call_selectUpgrade U_health; Call_takeDamage 500] started_game
     = Some (tt, g') /\ player_health_ok g') /\
  (exists g',
     apply_hits sample_runtime [(0%nat, 10); (0%nat, 10); (2%nat, 10); (0%nat, 10)] []
       started_game = Some (tt, g') /\
     Forall enemy_health_ok (enemies (enemyService g')) /\
     player_health_ok g').
Proof.
  apply health_stays_in_range.
  - split; vm_compute; discriminate.
  - repeat constructor; vm_compute; discriminate.
  - let l := eval vm_compute in (enemies (enemyService started_game)) in
    change (Forall enemy_health_ok l).
    repeat (constructor; [split; vm_compute; discriminate|]). constructor.
  - repeat constructor; try (vm_compute; discriminate); vm_compute; eauto.
Defined.

(** ** PlayerService.handleAttack *)

Lemma handleAttack_returns (rt : Runtime) (g : Game) :
  let p := player (playerService g) in
  let fired := in_attack (currentInput (playerService g)) &&
               Qgtb (next_now rt g - p_lastAttackTime p) (1000 / p_attackSpeed p) in
  returns (handleAttack rt) g (fun _ g' =>
    projectiles (playerService g') =
      (if fired then projectiles (playerService g) ++ [shot_of rt p]
       else projectiles (playerService g)) /\
    player (playerService g') =
      (if fired then pl_with_lastAttackTime (next_now rt g) p else p) /\
    currentInput (playerService g') = currentInput (playerService g)).
Proof.
  intros p fired. subst p fired.
  unfold returns, handleAttack, attack, js_now, getPlayer, next_now, bind, get, ret,
    modify.
  cbn beta iota.
  destruct (in_attack (currentInput (playerService g))); cbn [when andb].
  - cbn [playerService player].
    destruct (Qgtb _ _); cbn [when];
      eexists _, _; (split; [reflexivity|]); repeat split.
  - eexists _, _. split; [reflexivity|]. repeat split.
Qed.

Lemma spaced_cons (c t : number) (ts : list number) :
  spaced c (t :: ts) <->
  match ts with [] => True | t2 :: _ => c < t2 - t end /\ spaced c ts.
Proof. reflexivity. Qed.

Lemma pl_with_lastAttackTime_same (p : Player) :
  pl_with_lastAttackTime (p_lastAttackTime p) p = p.
Proof. destruct p; reflexivity. Qed.

Lemma last_cons_default {A : Type} (l : list A) (a d d' : A) :
  List.last (a :: l) d = List.last (a :: l) d'.
Proof.
  revert a. induction l as [|b l IH]; intros a; [reflexivity|].
  change (List.last (b :: l) d = List.last (b :: l) d'). apply IH.
Qed.

Lemma hold_attack_returns (rt : Runtime) (n : nat) :
  forall g,
    in_attack (currentInput (playerService g)) = true ->
    let p := player (playerService g) in
    returns (hold_attack rt n) g (fun log g' =>
      length log = n /\
      fires_when_due (1000 / p_attackSpeed p) (p_lastAttackTime p) (shot_of rt p) log /\
      spaced (1000 / p_attackSpeed p) (p_lastAttackTime p :: fire_times log) /\
      projectiles (playerService g') =
        projectiles (playerService g) ++ concat (map snd log) /\
      player (playerService g') =
        pl_with_lastAttackTime (List.last (fire_times log) (p_lastAttackTime p)) p).
Proof.
  induction n as [|n IH]; intros g Hheld p; cbn [hold_attack].
  - apply returns_ret. cbn. rewrite app_nil_r.
    repeat split. symmetry. apply pl_with_lastAttackTime_same.
  - apply returns_bind, returns_get.
    apply returns_bind. eapply returns_weaken; [apply handleAttack_returns|].
    intros u g1 (Hpr & Hpl & Hin). cbn beta zeta in Hpr, Hpl |- *.
    apply returns_bind, returns_get.
    rewrite Hheld in Hpr, Hpl. cbn [andb] in Hpr, Hpl. fold p in Hpr, Hpl.
    assert (Hheld1 : in_attack (currentInput (playerService g1)) = true)
      by (rewrite Hin; exact Hheld).
    apply returns_bind. eapply returns_weaken; [apply (IH g1 Hheld1)|].
    intros rest g2 (Hlen & Hdue & Hsp & Hpr2 & Hpl2).
    cbn beta zeta in Hdue, Hsp, Hpr2, Hpl2 |- *.
    apply returns_ret. cbn [length fires_when_due].
    destruct (Qgtb (next_now rt g - p_lastAttackTime p) (1000 / p_attackSpeed p)) eqn:E.
    + rewrite Hpl in Hdue, Hsp, Hpl2. rewrite Hpr in Hpr2.
      cbn [pl_with_lastAttackTime p_lastAttackTime p_attackSpeed] in Hdue, Hsp.
      change (shot_of rt (pl_with_lastAttackTime (next_now rt g) p))
        with (shot_of rt p) in Hdue.
      rewrite Hpr, drop_app_length.
      unfold fire_times in *. cbn [List.filter fired snd map fst concat].
      split; [congruence|]. split; [split; [reflexivity|exact Hdue]|].
      split; [apply spaced_cons; split; [apply Qgtb_spec in E; exact E|exact Hsp]|].
      split; [rewrite Hpr2, <- app_assoc; reflexivity|].
      rewrite Hpl2. cbn [pl_with_lastAttackTime p_lastAttackTime].
      destruct (map fst (List.filter fired rest)) as [|t ts]; [reflexivity|].
      change (List.last (next_now rt g :: t :: ts) (p_lastAttackTime p))
        with (List.last (t :: ts) (p_lastAttackTime p)).
      rewrite (last_cons_default ts t _ (p_lastAttackTime p)). reflexivity.
    + rewrite Hpl in Hdue, Hsp, Hpl2. rewrite Hpr in Hpr2.
      rewrite Hpr, drop_all.
      unfold fire_times in *. cbn [List.filter fired snd map fst concat app].
      split; [congruence|]. split; [split; [reflexivity|exact Hdue]|].
      split; [exact Hsp|]. split; [exact Hpr2|exact Hpl2].
Qed.

(** C6. With the attack input held and a positive attack speed, the
    cooldown window [1000 / attackSpeed] is a positive number of
    milliseconds.  Over any number [n] of successive [handleAttack] calls,
    a call fires exactly when [Date.now()] is more than one window after
    the last fire before it; a call that fires appends exactly one
    projectile and every other call appends none, so successive fires are
    more than one window apart.  The projectile is at the player's
    position, with the player's damage and a lifetime of 2000 ms, and its
    velocity is [300 * (cos facing, sin facing)]: directed along the facing
    angle, of squared magnitude [300^2 * (cos^2 + sin^2)]: magnitude 300
    when the pair [Math.cos] and [Math.sin] return is on the unit circle,
    and otherwise off [300^2] by no more, relatively, than that pair is off
    the circle. *)
Theorem attack_rate_and_projectile (rt : Runtime) (g : Game) (n : nat)
  (Hheld : in_attack (currentInput (playerService g)) = true)
  (Hspeed : 0 < p_attackSpeed (player (playerService g))) :
  let p := player (playerService g) in
  let window := 1000 / p_attackSpeed p in
  let shot := shot_of rt p in
  let norm2 := Math_cos rt (p_facing p) * Math_cos rt (p_facing p) +
               Math_sin rt (p_facing p) * Math_sin rt (p_facing p) in
  exists log g',
    hold_attack rt n g = Some (log, g') /\
    length log = n /\
    0 < window /\
    fires_when_due window (p_lastAttackTime p) shot log /\
    spaced window (p_lastAttackTime p :: fire_times log) /\
    projectiles (playerService g') =
      projectiles (playerService g) ++ concat (map snd log) /\
    (pr_x shot, pr_y shot) = (p_x p, p_y p) /\
    (pr_vx shot, pr_vy shot) =
      (Math_cos rt (p_facing p) * 300, Math_sin rt (p_facing p) * 300) /\
    pr_vx shot * pr_vx shot + pr_vy shot * pr_vy shot == 300 * 300 * norm2 /\
    (norm2 == 1 -> pr_vx shot * pr_vx shot + pr_vy shot * pr_vy shot == 300 * 300) /\
    (forall eps, Qabs (norm2 - 1) <= eps ->
       Qabs (pr_vx shot * pr_vx shot + pr_vy shot * pr_vy shot - 300 * 300)
         <= 300 * 300 * eps) /\
    pr_damage shot = p_damage p /\
    pr_lifetime shot = 2000.
Proof.
  intros p window shot norm2.
  destruct (hold_attack_returns rt n g Hheld)
    as (log & g' & Hrun & Hlen & Hdue & Hsp & Hpr & _).
  exists log, g'. split; [exact Hrun|]. split; [exact Hlen|].
  split; [apply Qlt_shift_div_l; [exact Hspeed|lra]|].
  split; [exact Hdue|]. split; [exact Hsp|]. split; [exact Hpr|].
  split; [reflexivity|]. split; [reflexivity|].
  assert (Hnorm : pr_vx shot * pr_vx shot + pr_vy shot * pr_vy shot == 300 * 300 * norm2).
  { unfold shot, shot_of, norm2. cbn [pr_vx pr_vy]. ring. }
  split; [exact Hnorm|].
  split; [intros Hunit; rewrite Hnorm, Hunit; ring|].
  split; [|split; reflexivity].
  intros eps Heps. apply Qabs_Qle_condition in Heps as [Hlo Hhi].
  apply Qabs_Qle_condition. rewrite Hnorm. split; lra.
Qed.

(** In the 70 frames of the sample, 16 ms apart, the calls at 64 ms and at
    1072 ms fire. *)
Example hold_attack_sample :
  match hold_attack sample_runtime 70 attacking_game with
  | Some (log, g') =>
      fire_times log = [inject_Z 1700000000064; inject_Z 1700000001072] /\
      length (projectiles (playerService g')) = 2%nat
  | None => False
  end.
Proof. vm_compute. split; reflexivity. Qed.

Lemma attack_rate_and_projectile_witness :
  exists log g',
    hold_attack sample_runtime 70 attacking_game = Some (log, g') /\
    length log = 70%nat /\
    fire_times log = [inject_Z 1700000000064; inject_Z 1700000001072] /\
    spaced (1000 / 1) (0 :: fire_times log) /\
    length (projectiles (playerService g')) = 2%nat /\
    let shot := shot_of sample_runtime (player (playerService attacking_game)) in
    pr_vx shot * pr_vx shot + pr_vy shot * pr_vy shot == 300 * 300.
Proof.
  destruct (attack_rate_and_projectile sample_runtime attacking_game 70)
    as (log & g' & Hrun & Hlen & _ & _ & Hsp & _ & _ & _ & _ & Hexact & _).
  - reflexivity.
  - reflexivity.
  - pose proof hold_attack_sample as Hsample. rewrite Hrun in Hsample.
    destruct Hsample as [Htimes Hshots].
    exists log, g'. split; [exact Hrun|]. split; [exact Hlen|].
    split; [exact Htimes|]. split; [exact Hsp|]. split; [exact Hshots|].
    apply Hexact. vm_compute. reflexivity.
Defined.

(** ** EnemyService.updateEnemyAttack *)

Lemma createEnemyProjectile_returns (rt : Runtime) (enemy : Enemy) (offset : number)
  (g : Game) :
  returns (createEnemyProjectile rt enemy offset) g (fun _ g' =>
    g' = with_enemyService
           (fun s => es_with_enemyProjectiles
                       (enemyProjectiles s ++
                        [enemy_shot rt enemy (player (playerService g)) offset]) s) g).
Proof.
  unfold createEnemyProjectile, getPlayer.
  apply returns_bind, returns_bind, returns_get. apply returns_ret.
  apply returns_modify. reflexivity.
Qed.

Lemma bind_js_now {A : Type} (rt : Runtime) (k : number -> M A) (g : Game) :
  bind (js_now rt) k g = k (next_now rt g) (clock_ticked g).
Proof. reflexivity. Qed.

(** C7. When an enemy's attack resolves (it is attacking and at least its
    cooldown has passed since its last attack) the enemy records the time
    of the attack and
    - melee, fast: spawns no projectile and deals its damage to the player
      exactly when the distance to the player is strictly below 40;
    - ranged: spawns exactly one projectile, from its position towards the
      player's current position;
    - boss: spawns exactly three, at offsets 0, -0.3 and +0.3 radians from
      the direction to the player;
    ranged and boss attacks leave the player alone.  Until a full cooldown
    has passed again, a further call spawns nothing and deals no damage. *)
Theorem enemy_attack_resolution (rt : Runtime) (enemy : Enemy) (g : Game)
  (Hattacking : e_isAttacking enemy = true)
  (Hcooldown : e_attackCooldown enemy <= next_now rt g - e_lastAttackTime enemy) :
  let p := player (playerService g) in
  let dx := p_x p - e_x enemy in
  let dy := p_y p - e_y enemy in
  let distance := Math_sqrt rt (dx * dx + dy * dy) in
  let attacked := en_with_lastAttackTime (next_now rt g) enemy in
  exists g',
    updateEnemyAttack rt enemy g = Some (attacked, g') /\
    match e_type enemy with
    | melee | fast =>
        enemyProjectiles (enemyService g') = enemyProjectiles (enemyService g) /\
        p_health (player (playerService g')) =
          (if Qltb distance 40 then Qmax 0 (p_health p - e_damage enemy)
           else p_health p)
    | ranged =>
        enemyProjectiles (enemyService g') =
          enemyProjectiles (enemyService g) ++ [enemy_shot rt enemy p 0] /\
        playerService g' = playerService g
    | boss =>
        enemyProjectiles (enemyService g') =
          enemyProjectiles (enemyService g) ++
          [enemy_shot rt enemy p 0; enemy_shot rt enemy p (-0.3);
           enemy_shot rt enemy p 0.3] /\
        playerService g' = playerService g
    end /\
    forall g2,
      next_now rt g2 - next_now rt g < e_attackCooldown enemy ->
      exists g3,
        updateEnemyAttack rt attacked g2 = Some (attacked, g3) /\
        enemyService g3 = enemyService g2 /\
        playerService g3 = playerService g2.
Proof.
  intros p dx dy distance attacked.
  apply Qltb_false in Hcooldown.
  assert (Hlater : forall g2,
            next_now rt g2 - next_now rt g < e_attackCooldown enemy ->
            exists g3,
              updateEnemyAttack rt attacked g2 = Some (attacked, g3) /\
              enemyService g3 = enemyService g2 /\
              playerService g3 = playerService g2).
  { intros g2 Hsoon. apply Qltb_spec in Hsoon.
    unfold updateEnemyAttack, attacked. cbn [e_isAttacking en_with_lastAttackTime].
    rewrite Hattacking. cbn [negb].
    rewrite bind_js_now. cbv beta.
    cbn [e_lastAttackTime e_attackCooldown en_with_lastAttackTime].
    rewrite Hsoon.
    eexists. split; [reflexivity|]. split; reflexivity. }
  unfold updateEnemyAttack. rewrite Hattacking. cbn [negb].
  rewrite bind_js_now. cbv beta. rewrite Hcooldown.
  fold attacked.
  set (g0 := clock_ticked g).
  unfold bind at 1, getPlayer, bind at 1, get, ret.
  change (player (playerService g0)) with p.
  change (p_x p - e_x attacked) with dx. change (p_y p - e_y attacked) with dy.
  fold distance. change (e_type attacked) with (e_type enemy).
  change (e_damage attacked) with (e_damage enemy).
  destruct (e_type enemy) eqn:Ety.
  - destruct (takeDamage_returns (e_damage enemy) g0) as ([] & g1 & Hrun & Hp1 & Hes1).
    destruct (Qltb distance 40); cbn [when]; unfold bind.
    + rewrite Hrun. eexists. split; [reflexivity|]. split; [|exact Hlater].
      rewrite Hes1, Hp1. split; reflexivity.
    + eexists. split; [reflexivity|]. split; [|exact Hlater]. split; reflexivity.
  - destruct (createEnemyProjectile_returns rt attacked 0 g0) as ([] & g1 & Hrun & ->).
    unfold bind. rewrite Hrun. cbn [when].
    eexists. split; [reflexivity|]. split; [|exact Hlater]. split; reflexivity.
  - destruct (takeDamage_returns (e_damage enemy) g0) as ([] & g1 & Hrun & Hp1 & Hes1).
    destruct (Qltb distance 40); cbn [when]; unfold bind.
    + rewrite Hrun. eexists. split; [reflexivity|]. split; [|exact Hlater].
      rewrite Hes1, Hp1. split; reflexivity.
    + eexists. split; [reflexivity|]. split; [|exact Hlater]. split; reflexivity.
  - eexists. split; [reflexivity|]. split; [|exact Hlater].
    cbn [enemyProjectiles enemyService with_enemyService es_with_enemyProjectiles
         playerService].
    rewrite <- !app_assoc. split; reflexivity.
Qed.

Lemma enemy_attack_resolution_witness :
  exists e' g',
    updateEnemyAttack sample_runtime sample_boss started_game = Some (e', g') /\
    length (enemyProjectiles (enemyService g')) = 3%nat /\
    playerService g' = playerService started_game.
Proof.
  destruct (enemy_attack_resolution sample_runtime sample_boss started_game)
    as (g' & Hrun & [Hshots Hplayer] & _).
  - reflexivity.
  - vm_compute. discriminate.
  - eexists _, g'. split; [exact Hrun|]. split; [|exact Hplayer].
    rewrite Hshots. reflexivity.
Defined.

(** A melee enemy 30 away from the player hits; one 50 away does not. *)
Example melee_contact_sample :
  let near := en_with_pos 430 300 (en_with_isAttacking true
                (en_with_lastAttackTime 0 sample_boss)) in
  let far := en_with_pos 450 300 near in
  let melee_of (e : Enemy) :=
    {| e_id := e_id e; e_x := e_x e; e_y := e_y e; e_radius := 16;
       e_health := 30; e_maxHealth := 30; e_damage := 15; e_speed := 80;
       e_type := melee; e_attackCooldown := 1500;
       e_lastAttackTime := 0; e_targetX := 0; e_targetY := 0;
       e_isAttacking := true; e_patrolDirection := 0;
       e_lastDirectionChange := 0; e_color := "#ff4444"; e_xpValue := 10 |} in
  let health_after (e : Enemy) :=
    match updateEnemyAttack sample_runtime (melee_of e)
            (with_player (pl_with_pos 400 300) started_game) with
    | Some (_, g') => Some (Qred (p_health (player (playerService g'))))
    | None => None
    end in
  health_after near = Some 85 /\ health_after far = Some 100.
Proof. vm_compute. split; reflexivity. Qed.

(** ** What a method keeps *)

Lemma ensures_ret {A : Type} (a : A) (g : Game) (Q : A -> Game -> Prop) :
  Q a g -> ensures (ret a) g Q.
Proof. intros H a' g' [= <- <-]. exact H. Qed.

Lemma ensures_throw {A : Type} (g : Game) (Q : A -> Game -> Prop) :
  ensures throw g Q.
Proof. intros a g' H. discriminate H. Qed.

Lemma ensures_bind {A B : Type} (m : M A) (k : A -> M B) (g : Game)
  (Q : B -> Game -> Prop) :
  ensures m g (fun a g1 => ensures (k a) g1 Q) -> ensures (bind m k) g Q.
Proof.
  intros H b g' Hrun. unfold bind in Hrun.
  destruct (m g) as [[a g1]|] eqn:E; [|discriminate].
  exact (H a g1 E b g' Hrun).
Qed.

Lemma ensures_weaken {A : Type} (m : M A) (g : Game) (P Q : A -> Game -> Prop) :
  ensures m g P -> (forall a g', P a g' -> Q a g') -> ensures m g Q.
Proof. intros H HPQ a g' Hrun. apply HPQ, H, Hrun. Qed.

Lemma ensures_modify (f : Game -> Game) (g : Game) (Q : unit -> Game -> Prop) :
  Q tt (f g) -> ensures (modify f) g Q.
Proof. intros H a g' [= <- <-]. exact H. Qed.

Lemma ensures_get (g : Game) (Q : Game -> Game -> Prop) :
  Q g g -> ensures get g Q.
Proof. intros H a g' [= <- <-]. exact H. Qed.

Lemma ensures_lift_option {A : Type} (o : option A) (g : Game) (Q : A -> Game -> Prop) :
  (forall a, o = Some a -> Q a g) -> ensures (lift_option o) g Q.
Proof. intros H. destruct o; [apply ensures_ret; auto|apply ensures_throw]. Qed.

Lemma ensures_js_now (rt : Runtime) (g : Game) (Q : number -> Game -> Prop) :
  Q (next_now rt g) (clock_ticked g) -> ensures (js_now rt) g Q.
Proof. intros H a g' [= <- <-]. exact H. Qed.

Lemma ensures_returns {A : Type} (m : M A) (g : Game) (P Q : A -> Game -> Prop) :
  returns m g P -> ensures m g Q -> returns m g (fun a g' => P a g' /\ Q a g').
Proof. intros (a & g' & Hrun & HP) HQ. exists a, g'. auto. Qed.

Lemma returns_ensures {A : Type} (m : M A) (g : Game) (Q : A -> Game -> Prop) :
  returns m g Q -> ensures m g Q.
Proof. intros H a g' Hrun. eapply returns_inv; eauto. Qed.

Lemma maintains_ret {A : Type} (I : Game -> Prop) (a : A) : maintains I (ret a).
Proof. intros g HI. apply ensures_ret, HI. Qed.

Lemma maintains_throw {A : Type} (I : Game -> Prop) : maintains I (@throw A).
Proof. intros g HI. apply ensures_throw. Qed.

Lemma maintains_get (I : Game -> Prop) : maintains I get.
Proof. intros g HI. apply ensures_get, HI. Qed.

Lemma maintains_bind {A B : Type} (I : Game -> Prop) (m : M A) (k : A -> M B) :
  maintains I m -> (forall a, maintains I (k a)) -> maintains I (bind m k).
Proof.
  intros Hm Hk g HI. apply ensures_bind.
  eapply ensures_weaken; [apply Hm, HI|]. intros a g1 HI1. apply Hk, HI1.
Qed.

Lemma maintains_modify (I : Game -> Prop) (f : Game -> Game) :
  (forall g, I g -> I (f g)) -> maintains I (modify f).
Proof. intros Hf g HI. apply ensures_modify, Hf, HI. Qed.

Lemma maintains_when (I : Game -> Prop) (b : bool) (m : M unit) :
  maintains I m -> maintains I (when b m).
Proof. intros Hm. destruct b; [exact Hm|apply maintains_ret]. Qed.

Lemma maintains_lift_option {A : Type} (I : Game -> Prop) (o : option A) :
  maintains I (lift_option o).
Proof. destruct o; [apply maintains_ret|apply maintains_throw]. Qed.

Lemma maintains_forM_ {A : Type} (I : Game -> Prop) (l : list A) (f : A -> M unit) :
  (forall a, maintains I (f a)) -> maintains I (forM_ l f).
Proof.
  intros Hf. induction l as [|a l IH]; cbn [forM_].
  - apply maintains_ret.
  - apply maintains_bind; [apply Hf|intros _; exact IH].
Qed.

Lemma maintains_filterM {A : Type} (I : Game -> Prop) (f : A -> M (A * bool)) (l : list A) :
  (forall a, maintains I (f a)) -> maintains I (filterM f l).
Proof.
  intros Hf. induction l as [|a l IH]; cbn [filterM].
  - apply maintains_ret.
  - apply maintains_bind; [apply Hf|]. intros [a' keep].
    apply maintains_bind; [exact IH|]. intros rest. apply maintains_ret.
Qed.

Lemma maintains_js_random (rt : Runtime) (I : Game -> Prop) :
  (forall g, I g -> I {| engine := engine g; playerService := playerService g;
                         enemyService := enemyService g;
                         random_calls := S (random_calls g);
                         clock_calls := clock_calls g |}) ->
  maintains I (js_random rt).
Proof. intros H g HI a g' [= <- <-]. apply H, HI. Qed.

Lemma maintains_js_now (rt : Runtime) (I : Game -> Prop) :
  (forall g, I g -> I (clock_ticked g)) -> maintains I (js_now rt).
Proof. intros H g HI a g' [= <- <-]. apply H, HI. Qed.

Lemma maintains_returns {A : Type} (I : Game -> Prop) (m : M A) (g : Game)
  (Q : A -> Game -> Prop) :
  maintains I m -> I g -> returns m g Q -> returns m g (fun a g' => Q a g' /\ I g').
Proof.
  intros Hm HI (a & g' & Hrun & HQ). exists a, g'. split; [exact Hrun|].
  split; [exact HQ|]. exact (Hm g HI a g' Hrun).
Qed.

Create HintDb maint.

Ltac maint_step :=
  cbv beta zeta;
  match goal with
  | |- maintains _ (bind _ _) => apply maintains_bind; [|intros ?]
  | |- maintains _ (ret _) => apply maintains_ret
  | |- maintains _ throw => apply maintains_throw
  | |- maintains _ get => apply maintains_get
  | |- maintains _ (when _ _) => apply maintains_when
  | |- maintains _ (lift_option _) => apply maintains_lift_option
  | |- maintains _ (forM_ _ _) => apply maintains_forM_; intros ?
  | |- maintains _ (filterM _ _) => apply maintains_filterM; intros ?
  | |- maintains _ (if ?b then _ else _) => destruct b
  | |- maintains _ (match ?x with _ => _ end) => destruct x
  | |- maintains _ (modify _) => apply maintains_modify; solve [auto with maint]
  | |- maintains _ (js_random _) => apply maintains_js_random; solve [auto with maint]
  | |- maintains _ (js_now _) => apply maintains_js_now; solve [auto with maint]
  | |- maintains _ _ => solve [auto with maint]
  end.

Ltac maint := repeat maint_step.

(** ** When the simulation part of a frame returns

    On a generated level the simulation part of a frame hands a state to
    the progression check unless the AI of an enemy runs at distance 0 from
    the player: there [0/0] is NaN, and [isWalkable] with a NaN coordinate
    reads a property of [undefined]. *)

Lemma safe_ret {A : Type} (a : A) : safe (ret a).
Proof. intros g _. eexists _, _. reflexivity. Qed.

Lemma safe_get : safe get.
Proof. intros g _. eexists _, _. reflexivity. Qed.

Lemma safe_modify (f : Game -> Game) : safe (modify f).
Proof. intros g _. eexists _, _. reflexivity. Qed.

Lemma safe_js_random (rt : Runtime) : safe (js_random rt).
Proof. intros g _. eexists _, _. reflexivity. Qed.

Lemma safe_js_now (rt : Runtime) : safe (js_now rt).
Proof. intros g _. eexists _, _. reflexivity. Qed.

Lemma safe_isWalkable (x y : number) : safe (isWalkable x y).
Proof.
  intros g Hwf.
  destruct (returns_isWalkable x y g (fun _ _ => True) Hwf) as (b & g' & H & _); eauto.
Qed.

Lemma safe_bind {A B : Type} (m : M A) (k : A -> M B) :
  safe m -> preserves m -> (forall a, safe (k a)) -> safe (bind m k).
Proof.
  intros Hm Hp Hk g Hwf. destruct (Hm g Hwf) as (a & g1 & Hrun).
  destruct (Hp g a g1 Hrun) as [Htiles _].
  destruct (Hk a g1) as (b & g2 & Hrun2); [rewrite Htiles; exact Hwf|].
  exists b, g2. unfold bind. rewrite Hrun. exact Hrun2.
Qed.

Lemma safe_when (b : bool) (m : M unit) : safe m -> safe (when b m).
Proof. intros Hm. destruct b; [exact Hm|apply safe_ret]. Qed.

Lemma safe_forM_ {A : Type} (l : list A) (f : A -> M unit) :
  (forall a, safe (f a)) -> (forall a, preserves (f a)) -> safe (forM_ l f).
Proof.
  intros Hf Hp. induction l as [|a l IH]; cbn [forM_].
  - apply safe_ret.
  - apply safe_bind; [apply Hf|apply Hp|intros _; exact IH].
Qed.

Lemma safe_filterM {A : Type} (f : A -> M (A * bool)) (l : list A) :
  (forall a, safe (f a)) -> (forall a, preserves (f a)) -> safe (filterM f l).
Proof.
  intros Hf Hp. induction l as [|a l IH]; cbn [filterM].
  - apply safe_ret.
  - apply safe_bind; [apply Hf|apply Hp|]. intros [a' keep].
    apply safe_bind; [exact IH|apply preserves_filterM, Hp|].
    intros rest. apply safe_ret.
Qed.

Create HintDb safe.

#[local] Hint Resolve safe_js_random safe_js_now safe_isWalkable : safe.

Ltac safe_step :=
  cbv beta zeta;
  match goal with
  | |- safe (bind _ _) => apply safe_bind; [|solve [pres]|intros ?]
  | |- safe (ret _) => apply safe_ret
  | |- safe get => apply safe_get
  | |- safe (modify _) => apply safe_modify
  | |- safe (when _ _) => apply safe_when
  | |- safe (forM_ _ _) => apply safe_forM_; [intros ?|intros ?; solve [pres]]
  | |- safe (filterM _ _) => apply safe_filterM; [intros ?|intros ?; solve [pres]]
  | |- safe (if ?b then _ else _) => destruct b
  | |- safe (match ?x with _ => _ end) => destruct x
  | |- safe _ => solve [auto with safe]
  end.

Ltac safe_run := repeat safe_step.

Lemma safe_getPlayer : safe getPlayer.
Proof. unfold getPlayer. safe_run. Qed.
#[local] Hint Resolve safe_getPlayer : safe.

Lemma safe_updatePlayerStats : safe updatePlayerStats.
Proof. unfold updatePlayerStats. safe_run. Qed.
#[local] Hint Resolve safe_updatePlayerStats : safe.

Lemma safe_takeDamage (damage : number) : safe (takeDamage damage).
Proof. unfold takeDamage, onPlayerDeath, stopGame. safe_run. Qed.
#[local] Hint Resolve safe_takeDamage : safe.

Lemma safe_PlayerService_update (rt : Runtime) (deltaTime : number) :
  safe (PlayerService_update rt deltaTime).
Proof.
  unfold PlayerService_update, handleMovement, handleAttack, attack,
    handleRegeneration, updateProjectiles.
  safe_run.
Qed.

Lemma safe_updatePatrolBehavior (rt : Runtime) (enemy : Enemy) (deltaTime : number) :
  safe (updatePatrolBehavior rt enemy deltaTime).
Proof. unfold updatePatrolBehavior. safe_run. Qed.
#[local] Hint Resolve safe_updatePatrolBehavior : safe.

(** Away from the player the quotients of the chase vector are finite, and
    the AI of an enemy returns. *)
Lemma safe_updateMeleeAI (rt : Runtime) (enemy : Enemy) (deltaTime d : number) :
  Qeq_bool d 0 = false -> safe (updateMeleeAI rt enemy deltaTime d).
Proof.
  intros Hd. unfold updateMeleeAI, js_div. rewrite Hd.
  cbn [js_mul js_add isWalkable_js en_moved]. safe_run.
Qed.

Lemma safe_updateRangedAI (rt : Runtime) (enemy : Enemy) (deltaTime d : number) :
  Qeq_bool d 0 = false -> safe (updateRangedAI rt enemy deltaTime d).
Proof.
  intros Hd. unfold updateRangedAI, js_div. rewrite Hd.
  cbn [js_mul js_add isWalkable_js en_moved]. safe_run.
Qed.

Lemma safe_updateFastAI (rt : Runtime) (enemy : Enemy) (deltaTime d : number) :
  Qeq_bool d 0 = false -> safe (updateFastAI rt enemy deltaTime d).
Proof.
  intros Hd. unfold updateFastAI, js_div. rewrite Hd.
  cbn [js_mul js_add isWalkable_js en_moved]. safe_run.
Qed.

Lemma safe_updateBossAI (rt : Runtime) (enemy : Enemy) (deltaTime d : number) :
  Qeq_bool d 0 = false -> safe (updateBossAI rt enemy deltaTime d).
Proof.
  intros Hd. unfold updateBossAI, js_div. rewrite Hd.
  cbn [js_mul js_add isWalkable_js en_moved]. safe_run.
Qed.

Lemma updateEnemyAI_returns (rt : Runtime) (enemy : Enemy) (deltaTime : number) (g : Game) :
  wf_grid (tiles (engine g)) -> apart rt (player (playerService g)) enemy ->
  exists e' g', updateEnemyAI rt enemy deltaTime g = Some (e', g').
Proof.
  intros Hwf Hd. unfold apart, distance_to in Hd. cbv zeta in Hd.
  unfold updateEnemyAI, getPlayer, bind, get, ret. cbv beta iota zeta.
  destruct (e_type enemy).
  - apply safe_updateMeleeAI; assumption.
  - apply safe_updateRangedAI; assumption.
  - apply safe_updateFastAI; assumption.
  - apply safe_updateBossAI; assumption.
Qed.

Lemma safe_updateEnemyAttack (rt : Runtime) (enemy : Enemy) :
  safe (updateEnemyAttack rt enemy).
Proof. unfold updateEnemyAttack, createEnemyProjectile. safe_run. Qed.
#[local] Hint Resolve safe_updateEnemyAttack : safe.

Lemma safe_forEach_enemy (f : Enemy -> M Enemy) :
  (forall e, safe (f e)) -> (forall e, preserves (f e)) -> safe (forEach_enemy f).
Proof. intros Hf Hp. unfold forEach_enemy. safe_run. Qed.

Lemma first_hit_reachable (rt : Runtime) (projectile : Projectile)
  (enemies : list Enemy) (enemy : Enemy) :
  first_hit rt projectile enemies = Some enemy ->
  is_Some (find_id (e_id enemy) enemies).
Proof.
  unfold first_hit. intros H. apply List.find_some in H as [Hin _].
  unfold find_id. induction enemies as [|e l IH]; [contradiction|].
  cbn [List.find]. destruct (Nat.eqb_spec (e_id e) (e_id enemy)); [eauto|].
  destruct Hin as [->|Hin]; [congruence|auto].
Qed.

Lemma scan_hits_reachable (rt : Runtime) (ps : list Projectile) (enemies : list Enemy) :
  Forall (fun hit => is_Some (find_id (fst hit) enemies))
         (snd (scan_hits rt ps enemies)).
Proof.
  induction ps as [|projectile ps IH]; cbn [scan_hits]; [constructor|].
  destruct (scan_hits rt ps enemies) as [kept hits]. cbn [snd] in IH.
  destruct (first_hit rt projectile enemies) as [enemy|] eqn:E; cbn [snd];
    [|exact IH].
  constructor; [|exact IH]. cbn [fst]. eapply first_hit_reachable, E.
Qed.

Lemma safe_returns {A : Type} (m : M A) (g : Game) :
  safe m -> preserves m -> wf_grid (tiles (engine g)) ->
  returns m g (fun _ g' => level_kept g g').
Proof.
  intros Hs Hp Hwf. destruct (Hs g Hwf) as (a & g' & Hrun).
  exists a, g'. split; [exact Hrun|]. eapply Hp, Hrun.
Qed.

Lemma safe_checkProjectileCollisions (rt : Runtime) :
  safe (EnemyService_checkProjectileCollisions rt).
Proof.
  intros g Hwf.
  assert (H : returns (EnemyService_checkProjectileCollisions rt) g (fun _ _ => True)).
  { unfold EnemyService_checkProjectileCollisions.
    apply returns_bind, returns_get.
    apply returns_bind. eapply returns_weaken.
    { apply safe_returns; [safe_run|pres|exact Hwf]. }
    intros kept g1 _. cbn beta.
    apply returns_bind, returns_modify. apply returns_bind, returns_get.
    set (g2 := with_enemyService (es_with_enemyProjectiles kept) g1).
    unfold checkProjectileEnemyCollision.
    apply returns_bind, returns_bind, returns_get.
    pose proof (scan_hits_reachable rt (projectiles (playerService g2))
                  (enemies (enemyService g2))) as Hreach.
    destruct (scan_hits rt _ _) as [kept' hits]. cbn [snd] in Hreach.
    apply returns_bind, returns_modify. apply returns_ret.
    eapply returns_weaken.
    { apply (apply_hits_returns rt (fun _ => True)).
      - apply Forall_forall. auto.
      - eapply Forall_impl; [exact Hreach|]. intros hit Hhit.
        split; [auto|left; exact Hhit]. }
    auto. }
  destruct H as (a & g' & Hrun & _). eauto.
Qed.

Lemma safe_after_enemies (rt : Runtime) (dt : number) :
  safe (updateEnemyProjectiles dt >> EnemyService_checkProjectileCollisions rt).
Proof.
  apply safe_bind.
  - unfold updateEnemyProjectiles. safe_run.
  - unfold updateEnemyProjectiles. pres.
  - intros _. apply safe_checkProjectileCollisions.
Qed.

Lemma safe_checkCollisions (rt : Runtime) : safe (checkCollisions rt).
Proof.
  unfold checkCollisions.
  apply safe_bind.
  - intros g Hwf. unfold checkPlayerWallCollision, bind at 1, get. cbv zeta.
    destruct (in_level _ _) eqn:Ein; cbn [when]; [|eexists _, _; reflexivity].
    apply in_level_spec in Ein as [Hx Hy].
    destruct (tile_at_wf _ _ _ Hwf Hx Hy) as [t Ht].
    unfold bind. rewrite Ht. cbn [lift_option]. unfold ret, handleWallCollision.
    destruct (negb (walkable t)); eexists _, _; reflexivity.
  - unfold checkPlayerWallCollision, handleWallCollision. pres.
  - intros _. apply safe_bind.
    + unfold checkPlayerCollisions. apply safe_forEach_enemy; intros e; [safe_run|pres].
    + unfold checkPlayerCollisions. apply preserves_forEach_enemy. intros e. pres.
    + intros _. unfold checkProjectileCollisions. apply safe_ret.
Qed.

(** *** What does not move while the enemies are updated *)

Ltac at_rest_solve := unfold at_rest in *; cbn in *; tauto.

#[local] Hint Extern 1 (at_rest _ _ _ _) => at_rest_solve : maint.

Lemma at_rest_getPlayer (l : list Enemy) (x y : number) : maintains (at_rest l x y) getPlayer.
Proof. unfold getPlayer. maint. Qed.
#[local] Hint Resolve at_rest_getPlayer : maint.

Lemma at_rest_isWalkable (l : list Enemy) (x y x' y' : number) :
  maintains (at_rest l x y) (isWalkable x' y').
Proof. unfold isWalkable. maint. Qed.
#[local] Hint Resolve at_rest_isWalkable : maint.

Lemma at_rest_takeDamage (l : list Enemy) (x y damage : number) :
  maintains (at_rest l x y) (takeDamage damage).
Proof. unfold takeDamage, updatePlayerStats, onPlayerDeath, stopGame. maint. Qed.
#[local] Hint Resolve at_rest_takeDamage : maint.

Lemma at_rest_player_rest (rt : Runtime) (l : list Enemy) (x y deltaTime : number) :
  maintains (at_rest l x y)
    (handleAttack rt >> handleRegeneration rt deltaTime >> updateProjectiles deltaTime).
Proof.
  unfold handleAttack, attack, handleRegeneration, updateProjectiles, updatePlayerStats.
  maint.
Qed.

Lemma at_rest_enemy_step (rt : Runtime) (l : list Enemy) (x y dt : number) (enemy : Enemy) :
  maintains (at_rest l x y)
    (let* enemy := updateEnemyAI rt enemy dt in updateEnemyAttack rt enemy).
Proof.
  unfold updateEnemyAI, updateMeleeAI, updateRangedAI, updateFastAI, updateBossAI,
    updatePatrolBehavior, isWalkable_js, updateEnemyAttack, createEnemyProjectile.
  maint.
Qed.

Lemma apart_at_rest (rt : Runtime) (l : list Enemy) (g g' : Game) (e : Enemy) :
  at_rest l (p_x (player (playerService g))) (p_y (player (playerService g))) g' ->
  apart rt (player (playerService g)) e -> apart rt (player (playerService g')) e.
Proof.
  intros (_ & Hx & Hy). unfold apart, distance_to. cbv zeta. rewrite Hx, Hy. auto.
Qed.

Lemma settled_returns {A : Type} (I : Game -> Prop) (m : M A) (g : Game) :
  safe m -> preserves m -> maintains I m ->
  wf_grid (tiles (engine g)) -> I g ->
  returns m g (fun _ g' => wf_grid (tiles (engine g')) /\ I g').
Proof.
  intros Hs Hp Hm Hwf HI. destruct (Hs g Hwf) as (a & g' & Hrun).
  exists a, g'. split; [exact Hrun|]. split.
  - destruct (Hp g a g' Hrun) as [-> _]. exact Hwf.
  - exact (Hm g HI a g' Hrun).
Qed.

(** The loop over the enemies: each step reads the enemy at its index, and
    the enemies at the later indices are as the loop found them. *)
Lemma forEach_enemy_steps (rt : Runtime) (f : Enemy -> M Enemy) (k : nat) :
  (forall e, preserves (f e)) ->
  (forall e l x y, maintains (at_rest l x y) (f e)) ->
  (forall e g, wf_grid (tiles (engine g)) -> apart rt (player (playerService g)) e ->
               exists e' g', f e g = Some (e', g')) ->
  forall (i : nat) (g : Game),
    wf_grid (tiles (engine g)) ->
    Forall (apart rt (player (playerService g))) (drop i (enemies (enemyService g))) ->
    returns
      (forM_ (seq i k) (fun i =>
         let* g := get in
         match enemies (enemyService g) !! i with
         | Some enemy =>
             let* enemy' := f enemy in
             modify (with_enemyService (fun s => es_with_enemies (<[i := enemy']> (enemies s)) s))
         | None => ret tt
         end)) g
      (fun _ g' => wf_grid (tiles (engine g'))).
Proof.
  intros Hp Hm Hf. induction k as [|k IH]; intros i g Hwf Hall; cbn [seq forM_].
  - apply returns_ret. exact Hwf.
  - apply returns_bind, returns_bind, returns_get.
    destruct (enemies (enemyService g) !! i) as [e|] eqn:Ei.
    + rewrite (drop_S _ _ _ Ei) in Hall. apply Forall_cons in Hall as [He Hall].
      destruct (Hf e g Hwf He) as (e' & g1 & Hrun).
      destruct (Hp e g e' g1 Hrun) as [Htiles _].
      destruct (Hm e (enemies (enemyService g)) (p_x (player (playerService g)))
                  (p_y (player (playerService g))) g
                  (conj eq_refl (conj eq_refl eq_refl)) e' g1 Hrun) as (Hen & Hx & Hy).
      apply returns_bind. exists e', g1. split; [exact Hrun|].
      apply returns_modify. apply IH.
      * cbn. rewrite Htiles. exact Hwf.
      * cbn [enemyService with_enemyService es_with_enemies enemies playerService].
        rewrite Hen, drop_insert_lt by lia.
        eapply Forall_impl; [exact Hall|]. intros e0 He0.
        unfold apart, distance_to in *. cbv zeta in *. rewrite Hx, Hy. exact He0.
    + apply returns_ret. apply IH; [exact Hwf|].
      rewrite drop_ge; [constructor|]. apply lookup_ge_None in Ei. lia.
Qed.

Lemma forEach_enemy_returns (rt : Runtime) (f : Enemy -> M Enemy) (g : Game) :
  (forall e, preserves (f e)) ->
  (forall e l x y, maintains (at_rest l x y) (f e)) ->
  (forall e g, wf_grid (tiles (engine g)) -> apart rt (player (playerService g)) e ->
               exists e' g', f e g = Some (e', g')) ->
  wf_grid (tiles (engine g)) ->
  Forall (apart rt (player (playerService g))) (enemies (enemyService g)) ->
  returns (forEach_enemy f) g (fun _ g' => wf_grid (tiles (engine g'))).
Proof.
  intros Hp Hm Hf Hwf Hall. unfold forEach_enemy.
  apply returns_bind, returns_get.
  apply (forEach_enemy_steps rt f _ Hp Hm Hf 0%nat g Hwf). exact Hall.
Qed.

Lemma enemy_step_returns (rt : Runtime) (dt : number) (e : Enemy) (g : Game) :
  wf_grid (tiles (engine g)) -> apart rt (player (playerService g)) e ->
  exists e' g',
    (let* enemy := updateEnemyAI rt e dt in updateEnemyAttack rt enemy) g = Some (e', g').
Proof.
  intros Hwf He. destruct (updateEnemyAI_returns rt e dt g Hwf He) as (e1 & g1 & Hrun).
  destruct (preserves_updateEnemyAI rt e dt g e1 g1 Hrun) as [Htiles _].
  destruct (safe_updateEnemyAttack rt e1 g1) as (e2 & g2 & Hrun2);
    [rewrite Htiles; exact Hwf|].
  exists e2, g2. unfold bind. rewrite Hrun. exact Hrun2.
Qed.

(** [handleMovement] always returns, and does not look at the time of the
    last frame. *)
Lemma handleMovement_returns (rt : Runtime) (deltaTime timestamp : number) (g : Game) :
  exists g1,
    handleMovement rt deltaTime g = Some (tt, g1) /\
    handleMovement rt deltaTime (with_engine (eng_with_lastUpdateTime timestamp) g)
      = Some (tt, with_engine (eng_with_lastUpdateTime timestamp) g1) /\
    tiles (engine g1) = tiles (engine g) /\
    enemyService g1 = enemyService g.
Proof.
  unfold handleMovement. run.
  destruct (Qneqb (mouseX (currentInput (playerService g))) 0
            || Qneqb (mouseY (currentInput (playerService g))) 0); run;
    eexists; (split; [reflexivity|]); (split; [reflexivity|]); split; reflexivity.
Qed.

(** On a generated level the simulation part of a frame returns, unless an
    enemy is at distance 0 from the player when its AI runs. *)
Lemma update_simulation_returns (rt : Runtime) (timestamp : number) (g : Game) :
  wf_grid (tiles (engine g)) -> frame_defined rt timestamp g ->
  exists mid, update_simulation rt timestamp g = Some (tt, mid).
Proof.
  intros Hwf Hdef.
  assert (H : returns (update_simulation rt timestamp) g (fun _ _ => True)).
  { unfold update_simulation. apply returns_bind, returns_get.
    apply returns_bind, returns_modify.
    set (dt := timestamp - lastUpdateTime (engine g)).
    destruct (handleMovement_returns rt dt timestamp g) as (g1 & Hmove & Hmove0 & Ht1 & Hes1).
    specialize (Hdef g1 Hmove).
    set (g1' := with_engine (eng_with_lastUpdateTime timestamp) g1) in *.
    unfold PlayerService_update.
    apply returns_bind, returns_bind. exists tt, g1'. split; [exact Hmove0|].
    eapply returns_weaken.
    { apply (settled_returns
               (at_rest (enemies (enemyService g)) (p_x (player (playerService g1)))
                        (p_y (player (playerService g1))))).
      - unfold handleAttack, attack, handleRegeneration, updateProjectiles. safe_run.
      - unfold handleAttack, attack, handleRegeneration, updateProjectiles. pres.
      - apply at_rest_player_rest.
      - cbn. rewrite Ht1. exact Hwf.
      - unfold at_rest. cbn. rewrite Hes1. auto. }
    intros u g2 [Hwf2 (Hen2 & Hx2 & Hy2)]. cbn beta.
    unfold EnemyService_update.
    apply returns_bind, returns_bind. eapply returns_weaken.
    { apply (forEach_enemy_returns rt).
      - intros e. pres.
      - intros e l x y. apply at_rest_enemy_step.
      - intros e g0. apply enemy_step_returns.
      - exact Hwf2.
      - rewrite Hen2. eapply Forall_impl; [exact Hdef|]. intros e He.
        unfold apart, distance_to in *. cbv zeta in *. rewrite Hx2, Hy2. exact He. }
    intros u3 g3 Hwf3. cbn beta.
    eapply returns_weaken.
    { apply safe_returns; [apply safe_after_enemies| |exact Hwf3].
      unfold updateEnemyProjectiles, EnemyService_checkProjectileCollisions,
        checkProjectileEnemyCollision.
      pres. }
    intros u4 g4 [Ht4 _]. cbn beta.
    assert (Hwf4 : wf_grid (tiles (engine g4))) by (rewrite Ht4; exact Hwf3).
    apply returns_bind. eapply returns_weaken.
    { apply safe_returns; [|unfold updateCamera; pres|exact Hwf4].
      unfold updateCamera. safe_run. }
    intros u5 g5 [Ht5 _]. cbn beta.
    eapply returns_weaken.
    { apply safe_returns; [apply safe_checkCollisions|auto with pres|].
      rewrite Ht5. exact Hwf4. }
    auto. }
  destruct H as ([] & mid & Hmid & _). eauto.
Qed.

(** ** The level [generateLevel] builds *)

Lemma returns_forM_each {A : Type} (I : Game -> Prop) (R : Game -> Game -> Prop)
  (P : A -> Game -> Prop) (D : A -> Prop) (f : A -> M unit) :
  (forall g, R g g) ->
  (forall g1 g2 g3, R g1 g2 -> R g2 g3 -> R g1 g3) ->
  (forall a g g', P a g -> R g g' -> P a g') ->
  (forall a g, D a -> I g -> returns (f a) g (fun _ g' => I g' /\ R g g' /\ P a g')) ->
  forall l g, Forall D l -> I g ->
    returns (forM_ l f) g (fun _ g' => I g' /\ R g g' /\ Forall (fun a => P a g') l).
Proof.
  intros Hrefl Htrans Hstable Hf.
  induction l as [|a l IH]; intros g Hl HI; cbn [forM_].
  - apply returns_ret. auto.
  - apply Forall_cons in Hl as [Ha Hl].
    apply returns_bind. eapply returns_weaken; [apply Hf; assumption|].
    intros u g1 (HI1 & HR1 & HP1). cbn beta.
    eapply returns_weaken; [apply IH; assumption|].
    intros u' g2 (HI2 & HR2 & HP2). cbn beta.
    split; [exact HI2|]. split; [eauto|].
    constructor; [eapply Hstable; eauto|exact HP2].
Qed.

Lemma lookup_map_Some {A B : Type} (f : A -> B) (l : list A) (k : nat) (b : B) :
  map f l !! k = Some b -> exists a, l !! k = Some a /\ b = f a.
Proof.
  revert k. induction l as [|a l IH]; intros [|k] H; try discriminate.
  - exists a. split; [reflexivity|]. cbn in H. congruence.
  - apply IH. exact H.
Qed.

Lemma lookup_Zrange (lo hi : Z) (k : nat) (i : Z) :
  Zrange lo hi !! k = Some i -> i = (lo + Z.of_nat k)%Z.
Proof.
  unfold Zrange. intros H. apply lookup_map_Some in H as (j & Hj & ->).
  apply lookup_seq in Hj as [-> _]. reflexivity.
Qed.

Lemma tile_at_wall_grid (x y : Z) (t : Tile) :
  tile_at wall_grid x y = Some t -> t = wall_tile x y.
Proof.
  unfold tile_at, wall_grid. intros H.
  destruct (arr_get _ y) as [row|] eqn:Hrow; [|discriminate].
  apply arr_get_lookup in Hrow as [Hy Hrow]. apply arr_get_lookup in H as [Hx H].
  apply lookup_map_Some in Hrow as (y' & Ey & ->).
  apply lookup_map_Some in H as (x' & Ex & ->).
  apply lookup_Zrange in Ey, Ex. f_equal; lia.
Qed.

Lemma coherent_wall_grid : coherent wall_grid.
Proof.
  intros x y t Ht. apply tile_at_wall_grid in Ht. subst t. cbn. auto.
Qed.

Lemma coherent_grid_set (tl tl' : grid) (x y : Z) (t : Tile) :
  coherent tl -> grid_set tl x y t = Some tl' ->
  tile_x t = x -> tile_y t = y ->
  walkable t = negb (is_wall (tile_type t)) ->
  (on_border x y = true -> tile_type t = TWall) ->
  coherent tl'.
Proof.
  intros Hco Hset Hx Hy Hw Hb x' y' t' Ht'.
  destruct (decide ((x', y') = (x, y))) as [[= -> ->]|Hne].
  - rewrite (tile_at_grid_set_eq _ _ _ _ _ Hset) in Ht'. injection Ht' as <-. auto.
  - rewrite (tile_at_grid_set_ne _ _ _ _ _ _ _ Hset Hne) in Ht'. apply Hco, Ht'.
Qed.

Lemma grown_refl (tl : grid) : grown tl tl.
Proof. intros c H. exact H. Qed.

Lemma grown_trans (tl1 tl2 tl3 : grid) : grown tl1 tl2 -> grown tl2 tl3 -> grown tl1 tl3.
Proof. intros H1 H2 c H. apply H2, H1, H. Qed.

Lemma grown_grid_set (tl tl' : grid) (x y : Z) (t : Tile) :
  grid_set tl x y t = Some tl' -> walkable t = true ->
  grown tl tl' /\ walkable_at tl' (x, y) = true.
Proof.
  intros Hset Hw. split.
  - intros [x' y'] H. unfold walkable_at in *. cbn [fst snd] in *.
    destruct (decide ((x', y') = (x, y))) as [[= -> ->]|Hne].
    + rewrite (tile_at_grid_set_eq _ _ _ _ _ Hset). exact Hw.
    + rewrite (tile_at_grid_set_ne _ _ _ _ _ _ _ Hset Hne). exact H.
  - unfold walkable_at. cbn [fst snd].
    rewrite (tile_at_grid_set_eq _ _ _ _ _ Hset). exact Hw.
Qed.

Lemma carved_refl (g : Game) : carved g g.
Proof. split; [apply level_changed_refl|apply grown_refl]. Qed.

Lemma carved_trans (g1 g2 g3 : Game) : carved g1 g2 -> carved g2 g3 -> carved g1 g3.
Proof.
  intros [H1 H1'] [H2 H2']. split; [eapply level_changed_trans|eapply grown_trans]; eauto.
Qed.

Lemma same_but_random_carved (g g' : Game) : same_but_random g g' -> carved g g'.
Proof.
  intros Hs. split; [apply same_but_random_level_changed, Hs|].
  destruct Hs as [-> _]. apply grown_refl.
Qed.

Lemma same_but_random_carving (g g' : Game) :
  same_but_random g g' -> carving g -> carving g'.
Proof. intros [He _]. unfold carving, generating. rewrite He. auto. Qed.

Lemma carve_returns (x y : Z) (g : Game) :
  carving g -> (1 <= x < levelWidth - 1)%Z -> (1 <= y < levelHeight - 1)%Z ->
  returns (set_tile x y (floor_tile x y)) g
          (fun _ g' => carving g' /\ carved g g' /\
                       walkable_at (tiles (engine g')) (x, y) = true).
Proof.
  intros [[Hwf Hun] Hco] Hx Hy.
  destruct (grid_set_floor _ x y Hwf Hun) as (tl' & Hset & Hwf' & Hun');
    [lia..|].
  destruct (grown_grid_set _ _ _ _ _ Hset eq_refl) as [Hgrow Hw].
  unfold set_tile. apply returns_bind, returns_get.
  apply returns_bind. eapply returns_lift_option; [exact Hset|].
  apply returns_modify. cbn.
  split; [split; [split; assumption|]|split; [split|exact Hw]].
  - eapply coherent_grid_set; [exact Hco|exact Hset|reflexivity..|].
    unfold on_border, levelWidth, levelHeight in *.
    destruct (Z.eqb_spec x 0), (Z.eqb_spec x (50 - 1)), (Z.eqb_spec y 0),
      (Z.eqb_spec y (50 - 1)); cbn; intros; try discriminate; lia.
  - unfold level_changed. cbn. repeat split.
    destruct g as [e [p st inp prs] es r c]. destruct p. reflexivity.
  - exact Hgrow.
Qed.

Lemma two_walkable_grown (tl tl' : grid) :
  two_walkable tl -> grown tl tl' -> two_walkable tl'.
Proof. intros (c1 & c2 & Hne & H1 & H2) Hg. exists c1, c2. auto. Qed.

Lemma generateRooms_carved (rt : Runtime) (g : Game) :
  random_in_range rt -> carving g ->
  returns (generateRooms rt) g
          (fun _ g' => carving g' /\ carved g g' /\ two_walkable (tiles (engine g'))).
Proof.
  intros Hrnd Hcar. unfold generateRooms.
  apply returns_bind, returns_js_random. intros g0 Hs0 _.
  pose proof (same_but_random_carving _ _ Hs0 Hcar) as Hcar0.
  destruct (Hrnd (random_calls g)) as [Hc0 Hc1].
  pose proof (random_index _ 8 Hc0 Hc1 eq_refl) as Hcount.
  change (inject_Z 8) with 8 in Hcount.
  set (roomCount := (Math_floor (Math_random rt (random_calls g) * 8) + 6)%Z).
  eapply returns_weaken.
  { apply (returns_forM_each carving carved
             (fun _ g' => two_walkable (tiles (engine g'))) (fun _ => True));
      [apply carved_refl|apply carved_trans| | |apply Forall_forall; auto|exact Hcar0].
    { intros _ g1 g2 H [_ Hg]. eapply two_walkable_grown; eauto. }
    clear g0 Hs0 Hcar0. intros _ g0 _ Hcar0.
    apply returns_bind, returns_js_random. intros g1 Hs1 _.
    destruct (Hrnd (random_calls g0)) as [Hw0 Hw1].
    pose proof (random_index _ 8 Hw0 Hw1 eq_refl) as Hw.
    change (inject_Z 8) with 8 in Hw.
    set (roomWidth := (Math_floor (Math_random rt (random_calls g0) * 8) + 4)%Z).
    apply returns_bind, returns_js_random. intros g2 Hs2 _.
    destruct (Hrnd (random_calls g1)) as [Hh0 Hh1].
    pose proof (random_index _ 8 Hh0 Hh1 eq_refl) as Hh.
    change (inject_Z 8) with 8 in Hh.
    set (roomHeight := (Math_floor (Math_random rt (random_calls g1) * 8) + 4)%Z).
    apply returns_bind, returns_js_random. intros g3 Hs3 _.
    destruct (Hrnd (random_calls g2)) as [Hx0 Hx1].
    assert (Hx : (0 <= Math_floor (Math_random rt (random_calls g2) *
                                   inject_Z (levelWidth - roomWidth - 2))
                  < levelWidth - roomWidth - 2)%Z).
    { apply random_index; [assumption..|]. unfold levelWidth, roomWidth. lia. }
    apply returns_bind, returns_js_random. intros g4 Hs4 _.
    destruct (Hrnd (random_calls g3)) as [Hy0 Hy1].
    assert (Hy : (0 <= Math_floor (Math_random rt (random_calls g3) *
                                   inject_Z (levelHeight - roomHeight - 2))
                  < levelHeight - roomHeight - 2)%Z).
    { apply random_index; [assumption..|]. unfold levelHeight, roomHeight. lia. }
    set (roomX := (Math_floor (Math_random rt (random_calls g2) *
                               inject_Z (levelWidth - roomWidth - 2)) + 1)%Z) in *.
    set (roomY := (Math_floor (Math_random rt (random_calls g3) *
                               inject_Z (levelHeight - roomHeight - 2)) + 1)%Z) in *.
    pose proof (same_but_random_trans _ _ _ (same_but_random_trans _ _ _ Hs1 Hs2)
                  (same_but_random_trans _ _ _ Hs3 Hs4)) as Hs.
    pose proof (same_but_random_carving _ _ Hs Hcar0) as Hcar4.
    eapply returns_weaken.
    { apply (returns_forM_each carving carved
               (fun y g' => Forall (fun x => walkable_at (tiles (engine g')) (x, y) = true)
                                   (Zrange roomX (roomX + roomWidth)))
               (fun y => (1 <= y < levelHeight - 1)%Z));
        [apply carved_refl|apply carved_trans| | | |exact Hcar4].
      - intros y g5 g6 H [_ Hg]. eapply Forall_impl; [exact H|].
        intros x Hx'. apply Hg, Hx'.
      - intros y g5 Hyb Hcar5.
        apply (returns_forM_each carving carved
                 (fun x g' => walkable_at (tiles (engine g')) (x, y) = true)
                 (fun x => (1 <= x < levelWidth - 1)%Z));
          [apply carved_refl|apply carved_trans| | | |exact Hcar5].
        + intros x g6 g7 H [_ Hg]. apply Hg, H.
        + intros x g6 Hxb Hcar6. apply carve_returns; assumption.
        + apply Forall_Zrange. intros x Hxr.
          unfold levelWidth, roomWidth in *. lia.
      - apply Forall_Zrange. intros y Hyr.
        unfold levelHeight, roomHeight in *. lia. }
    intros u g5 (Hcar5 & Hch5 & Hcells). cbn beta.
    split; [exact Hcar5|]. split.
    { eapply carved_trans; [|exact Hch5]. apply same_but_random_carved, Hs. }
    rewrite Forall_forall in Hcells.
    assert (Hrow : Forall (fun x => walkable_at (tiles (engine g5)) (x, roomY) = true)
                          (Zrange roomX (roomX + roomWidth))).
    { apply Hcells, list_elem_of_In, In_Zrange. unfold roomHeight. lia. }
    rewrite Forall_forall in Hrow.
    exists (roomX, roomY), ((roomX + 1)%Z, roomY).
    split; [intros [= Hc]; lia|].
    split; apply Hrow, list_elem_of_In, In_Zrange; unfold roomWidth; lia. }
  intros u g1 (Hcar1 & Hch1 & Hall). cbn beta.
  split; [exact Hcar1|]. split.
  { eapply carved_trans; [|exact Hch1]. apply same_but_random_carved, Hs0. }
  rewrite Forall_forall in Hall.
  apply (Hall 0%Z), list_elem_of_In, In_Zrange. unfold roomCount. lia.
Qed.

Lemma generateCorridors_carved (rt : Runtime) (g : Game) :
  random_in_range rt -> carving g ->
  returns (generateCorridors rt) g (fun _ g' => carving g' /\ carved g g').
Proof.
  intros Hrnd Hcar. unfold generateCorridors.
  apply (returns_forM_ carving carved (fun _ => True));
    [apply carved_refl|apply carved_trans| |apply Forall_forall; auto|exact Hcar].
  clear g Hcar. intros _ g _ Hcar.
  apply returns_bind, returns_js_random. intros g1 Hs1 _.
  apply returns_bind, returns_js_random. intros g2 Hs2 _.
  pose proof (same_but_random_trans _ _ _ Hs1 Hs2) as Hs.
  pose proof (same_but_random_carving _ _ Hs Hcar) as Hcar2.
  set (x := Math_floor _). set (y := Math_floor _).
  destruct ((x >? 0)%Z && (x <? levelWidth - 1)%Z && (y >? 0)%Z && (y <? levelHeight - 1)%Z) eqn:E;
    cbn [when].
  - apply andb_true_iff in E as [E Ey2]. apply andb_true_iff in E as [E Ey1].
    apply andb_true_iff in E as [Ex1 Ex2].
    apply Z.gtb_lt in Ex1, Ey1. apply Z.ltb_lt in Ex2, Ey2.
    eapply returns_weaken.
    { apply carve_returns; [exact Hcar2|lia|lia]. }
    intros u g3 (Hcar3 & Hch3 & _). split; [exact Hcar3|].
    eapply carved_trans; [|exact Hch3].
    apply same_but_random_carved, Hs.
  - apply returns_ret. split; [exact Hcar2|].
    apply same_but_random_carved, Hs.
Qed.

Lemma tile_at_bounds (tl : grid) (x y : Z) (t : Tile) :
  wf_grid tl -> tile_at tl x y = Some t ->
  (0 <= x < levelWidth)%Z /\ (0 <= y < levelHeight)%Z.
Proof.
  intros Hwf Ht. unfold tile_at in Ht.
  destruct (arr_get tl y) as [row|] eqn:Hrow; [|discriminate].
  pose proof (wf_grid_row _ _ _ Hwf Hrow) as Hlen.
  apply arr_get_lookup in Hrow as [Hy Hrow]. apply arr_get_lookup in Ht as [Hx Ht].
  apply lookup_lt_Some in Hrow, Ht. destruct Hwf as [Hh _].
  rewrite Hh in Hrow. rewrite Hlen in Ht. lia.
Qed.

Lemma walkable_at_scan_order (tl : grid) (c : Z * Z) :
  wf_grid tl -> walkable_at tl c = true ->
  In c (List.filter (walkable_at tl) scan_order).
Proof.
  intros Hwf Hw. apply List.filter_In. split; [|exact Hw].
  apply In_scan_order. unfold walkable_at in Hw.
  destruct (tile_at tl (fst c) (snd c)) as [t|] eqn:Ht; [|discriminate].
  eapply tile_at_bounds; eauto.
Qed.

Lemma two_in_list {A : Type} (l : list A) (c1 c2 : A) :
  c1 <> c2 -> In c1 l -> In c2 l -> exists a b rest, l = a :: b :: rest.
Proof.
  intros Hne H1 H2. destruct l as [|a [|b rest]]; [contradiction| |eauto].
  destruct H1 as [<-|[]], H2 as [<-|[]]. congruence.
Qed.

Lemma tile_index_centre (n : Z) :
  Math_floor ((inject_Z n * tileSize + tileSize / 2) / tileSize) = n.
Proof.
  unfold Math_floor, tileSize.
  assert (E : (inject_Z n * 32 + 32 / 2) / 32 == inject_Z n + (1 # 2)) by field.
  rewrite E.
  destruct (Qfloor_range (inject_Z n + (1 # 2)) n (n + 1)) as [H1 H2].
  - lra.
  - rewrite inject_Z_plus. change (inject_Z 1) with 1. lra.
  - lia.
Qed.

Lemma placeEntranceAndExit_placed (g : Game) :
  carving g -> two_walkable (tiles (engine g)) ->
  returns placeEntranceAndExit g (fun _ g' => level_ready g' /\ level_changed g g').
Proof.
  intros [[Hwf Hun] Hco] (c1 & c2 & Hne12 & Hw1 & Hw2).
  set (tl := tiles (engine g)) in *.
  unfold placeEntranceAndExit.
  apply returns_bind, returns_get.
  apply returns_bind. eapply returns_lift_option; [apply floorTiles_filter, Hwf|].
  fold tl.
  destruct (two_in_list (List.filter (walkable_at tl) scan_order) c1 c2 Hne12)
    as (entrance & c & rest & Ecells); [apply walkable_at_scan_order; assumption..|].
  assert (Hnd : List.NoDup (List.filter (walkable_at tl) scan_order))
    by apply List.NoDup_filter, NoDup_scan_order.
  assert (Hsub : forall c0, In c0 (List.filter (walkable_at tl) scan_order) ->
                            In c0 scan_order /\ walkable_at tl c0 = true).
  { intros c0 Hc0. apply List.filter_In in Hc0. exact Hc0. }
  rewrite Ecells in Hnd, Hsub |- *. cbn [length Nat.leb when].
  set (exit := List.last (c :: rest) entrance).
  assert (Hexit_in : In exit (c :: rest)) by (apply last_In; discriminate).
  assert (Hne : exit <> entrance).
  { intros Heq. apply List.NoDup_cons_iff in Hnd as [Hnotin _].
    apply Hnotin. rewrite <- Heq. exact Hexit_in. }
  destruct (Hsub entrance (or_introl eq_refl)) as [Hin1 Hwe].
  destruct (Hsub exit (or_intror Hexit_in)) as [Hin2 Hwx].
  apply In_scan_order in Hin1 as [Hex Hey]. apply In_scan_order in Hin2 as [Hxx Hxy].
  destruct (grid_set_type_wf tl _ _ TEntrance Hwf Hex Hey)
    as (tl1 & old1 & Hold1 & Hty1 & Hset1).
  pose proof (grid_set_wf _ _ _ _ _ Hwf Hset1) as Hwf1.
  destruct (grid_set_type_wf tl1 _ _ TExit Hwf1 Hxx Hxy)
    as (tl2 & old2 & Hold2 & Hty2 & Hset2).
  pose proof (grid_set_wf _ _ _ _ _ Hwf1 Hset2) as Hwf2.
  assert (Hold2' : tile_at tl (fst exit) (snd exit) = Some old2).
  { rewrite <- Hold2. symmetry. eapply tile_at_grid_set_ne; [exact Hset1|].
    rewrite <- !surjective_pairing. exact Hne. }
  unfold walkable_at in Hwe, Hwx. rewrite Hold1 in Hwe. rewrite Hold2' in Hwx.
  destruct (Hco _ _ _ Hold1) as (Hx1 & Hy1 & Hwall1 & Hb1).
  destruct (Hco _ _ _ Hold2') as (Hx2 & Hy2 & Hwall2 & Hb2).
  assert (Hco1 : coherent tl1).
  { eapply coherent_grid_set; [exact Hco|exact Hset1|exact Hx1|exact Hy1|exact Hwe|].
    intros Hb. apply Hb1 in Hb. rewrite Hb in Hwall1. cbn in Hwall1. congruence. }
  assert (Hco2 : coherent tl2).
  { eapply coherent_grid_set; [exact Hco1|exact Hset2|exact Hx2|exact Hy2|exact Hwx|].
    intros Hb. apply Hb2 in Hb. rewrite Hb in Hwall2. cbn in Hwall2. congruence. }
  destruct (unplaced_tile tl _ _ _ Hun Hold1) as [Ho1e Ho1x].
  destruct (unplaced_tile tl _ _ _ Hun Hold2') as [Ho2e Ho2x].
  destruct (unplaced_count tl Hun) as [Hc0e Hc0x].
  pose proof (grid_set_count (fun t => is_entrance (tile_type t)) _ _ _ _ _ _ Hold1 Hset1) as Hc1e.
  pose proof (grid_set_count (fun t => is_exit (tile_type t)) _ _ _ _ _ _ Hold1 Hset1) as Hc1x.
  pose proof (grid_set_count (fun t => is_entrance (tile_type t)) _ _ _ _ _ _ Hold2 Hset2) as Hc2e.
  pose proof (grid_set_count (fun t => is_exit (tile_type t)) _ _ _ _ _ _ Hold2 Hset2) as Hc2x.
  cbn beta in Hc1e, Hc1x, Hc2e, Hc2x.
  rewrite Ho1e, Hc0e in Hc1e. rewrite Ho1x, Hc0x in Hc1x.
  rewrite Ho2e in Hc2e. rewrite Ho2x in Hc2x.
  cbn [b2n is_entrance is_exit tile_with_type tile_type] in Hc1e, Hc1x, Hc2e, Hc2x.
  apply returns_bind. eapply returns_set_tile_type; [exact Hty1|].
  apply returns_bind. eapply returns_set_tile_type; [exact Hty2|].
  apply returns_modify. split.
  - unfold level_ready, level_built, on_entrance.
    cbn [with_player with_playerService with_engine engine playerService tiles
         eng_with_tiles player ps_with_player pl_with_pos p_x p_y].
    split; [split; [exact Hwf2|]; split; [exact Hco2|]; split; lia|].
    exists entrance, (tile_with_type TEntrance old1).
    split; [|split; [reflexivity|split; reflexivity]].
    rewrite (tile_at_grid_set_ne _ _ _ _ _ _ _ Hset2)
      by (rewrite <- !surjective_pairing; congruence).
    apply (tile_at_grid_set_eq _ _ _ _ _ Hset1).
  - unfold level_changed. cbn. repeat split.
Qed.

Lemma generateLevel_ready (rt : Runtime) (g : Game) :
  random_in_range rt ->
  returns (generateLevel rt) g (fun _ g' => level_ready g' /\ level_changed g g').
Proof.
  intros Hrnd. unfold generateLevel.
  apply returns_bind, returns_modify.
  set (g0 := with_engine (eng_with_tiles wall_grid) g).
  assert (Hch0 : level_changed g g0).
  { unfold level_changed, g0. cbn. repeat split.
    destruct g as [e [p st inp prs] es r c]. destruct p. reflexivity. }
  assert (Hcar0 : carving g0) by (split; [exact wall_grid_generating|exact coherent_wall_grid]).
  apply returns_bind. eapply returns_weaken; [apply generateRooms_carved; assumption|].
  intros u1 g1 (Hcar1 & [Hch1 _] & Htwo1). cbn beta.
  apply returns_bind. eapply returns_weaken; [apply generateCorridors_carved; assumption|].
  intros u2 g2 (Hcar2 & [Hch2 Hgrow2]). cbn beta.
  eapply returns_weaken.
  { apply placeEntranceAndExit_placed; [exact Hcar2|].
    eapply two_walkable_grown; eauto. }
  intros u3 g3 [Hready Hch3]. split; [exact Hready|].
  eauto using level_changed_trans.
Qed.

Lemma level_ready_not_on_exit (g : Game) : level_ready g -> exit_reached g = false.
Proof.
  intros (_ & c & t & Ht & Hty & Hpx & Hpy).
  unfold exit_reached. cbv zeta. rewrite Hpx, Hpy. unfold cell_centre. cbn [fst snd].
  rewrite !tile_index_centre, Ht, Hty. apply andb_false_r.
Qed.

Lemma returns_js_now (rt : Runtime) (g : Game) (Q : number -> Game -> Prop) :
  Q (next_now rt g) (clock_ticked g) -> returns (js_now rt) g Q.
Proof. intros H. eexists _, _. split; [reflexivity|exact H]. Qed.

Lemma level_changed_engine (g g' : Game) :
  level_changed g g' ->
  gameState (engine g') = gameState (engine g) /\
  gameStats (engine g') = gameStats (engine g) /\
  currentFloor (engine g') = currentFloor (engine g) /\
  enemiesKilled (engine g') = enemiesKilled (engine g) /\
  startTime (engine g') = startTime (engine g) /\
  lastUpdateTime (engine g') = lastUpdateTime (engine g) /\
  levelUpOptions (engine g') = levelUpOptions (engine g).
Proof. intros (_ & _ & -> & _). repeat split. Qed.

Lemma level_changed_player (g g' : Game) :
  level_changed g g' ->
  playerStats (playerService g') = playerStats (playerService g) /\
  currentInput (playerService g') = currentInput (playerService g) /\
  projectiles (playerService g') = projectiles (playerService g) /\
  stats_of (player (playerService g')) = stats_of (player (playerService g)).
Proof. intros (_ & _ & _ & ->). repeat split. Qed.

Lemma spawnBoss_counter (rt : Runtime) (g : Game) :
  returns (spawnBoss rt) g (fun _ g' =>
    engine g' = engine g /\ playerService g' = playerService g /\
    nextEnemyId (enemyService g') = S (nextEnemyId (enemyService g))).
Proof.
  unfold spawnBoss. cbv zeta. apply returns_bind, returns_get.
  apply returns_bind. eapply returns_weaken; [apply createEnemy_returns|].
  intros b g1 (He & Hp & _ & _ & Hid & _). cbn beta.
  apply returns_modify. cbn. auto.
Qed.

(** [nextFloor] leaves a finished level with the player on its entrance, and
    of the player changes the position only. *)
Lemma nextFloor_ready (rt : Runtime) (g : Game) :
  random_in_range rt ->
  returns (nextFloor rt) g (fun _ g' =>
    currentFloor (engine g') = (currentFloor (engine g) + 1)%Z /\
    level_ready g' /\
    playerService g' =
      ps_with_player
        (pl_with_pos (p_x (player (playerService g')))
                     (p_y (player (playerService g')))
                     (player (playerService g)))
        (playerService g) /\
    gameState (engine g') = gameState (engine g) /\
    enemiesKilled (engine g') = enemiesKilled (engine g) /\
    (nextEnemyId (enemyService g) <= nextEnemyId (enemyService g'))%nat).
Proof.
  intros Hrnd. unfold nextFloor.
  apply returns_bind, returns_modify.
  set (g0 := with_engine _ g).
  apply returns_bind. eapply returns_weaken; [apply generateLevel_ready, Hrnd|].
  intros u1 g1 [Hready Hch]. cbn beta.
  pose proof (level_changed_engine _ _ Hch) as (Hst & _ & Hfl & Hki & _).
  destruct Hch as (Hes & _ & _ & Hps).
  apply returns_bind, returns_get.
  apply returns_bind. eapply returns_weaken.
  { apply spawnEnemiesForFloor_returns; [exact Hrnd|apply Hready]. }
  intros u2 g2 (He2 & Hp2 & _ & Hid2 & _). cbn beta.
  cbn in He2, Hp2, Hid2.
  assert (Hready2 : level_ready g2).
  { unfold level_ready, on_entrance. rewrite He2, Hp2. exact Hready. }
  apply returns_bind, returns_get.
  destruct (Z.rem (currentFloor (engine g2)) 5 =? 0)%Z; cbn [when].
  - eapply returns_weaken; [apply spawnBoss_counter|].
    intros u3 g3 (He3 & Hp3 & Hid3). cbn beta.
    rewrite He3, Hp3, He2, Hp2, Hfl, Hst, Hki.
    split; [reflexivity|]. split.
    { unfold level_ready, on_entrance. rewrite He3, Hp3. exact Hready2. }
    split; [exact Hps|]. split; [reflexivity|]. split; [reflexivity|].
    rewrite Hid3, Hid2, Hes. cbn. lia.
  - apply returns_ret.
    rewrite He2, Hp2, Hfl, Hst, Hki.
    split; [reflexivity|]. split; [exact Hready2|].
    split; [exact Hps|]. split; [reflexivity|]. split; [reflexivity|].
    rewrite Hid2, Hes. cbn. lia.
Qed.

(** ** Floor progression, frame by frame *)

Lemma checkLevelProgression_advances (rt : Runtime) (g : Game) :
  exit_reached g && floor_cleared g = true ->
  checkLevelProgression rt g = nextFloor rt g.
Proof.
  unfold checkLevelProgression, exit_reached, floor_cleared. cbv zeta. intros E.
  apply andb_true_iff in E as [E Ecl]. apply andb_true_iff in E as [Ein Ex].
  unfold bind at 1, get. rewrite Ein. cbn [when].
  destruct (tile_at _ _ _) as [t|]; [|discriminate].
  unfold getEnemyCount, lift_option, bind, get, ret. rewrite Ex.
  apply Nat.eqb_eq in Ecl. rewrite Ecl. reflexivity.
Qed.

(** The level of a frame that advances the floor is a finished one, with the
    player on its entrance. *)
Lemma update_advances_ready (rt : Runtime) (timestamp : number) (g mid g' : Game) :
  random_in_range rt ->
  gameState (engine g) = PLAYING ->
  update_simulation rt timestamp g = Some (tt, mid) ->
  exit_reached mid && floor_cleared mid = true ->
  update rt timestamp g = Some (tt, g') ->
  level_ready g'.
Proof.
  intros Hrnd Hplay Hsim E Hup.
  destruct (nextFloor_ready rt mid Hrnd) as ([] & g1 & Hnext & _ & Hready & _).
  destruct (updateGameStats_returns rt g1) as ([] & g2 & Hstats & Hp & _ & _ & Ht & _).
  unfold update, bind at 1, get in Hup. rewrite Hplay in Hup. cbn [is_playing negb] in Hup.
  unfold bind in Hup.
  rewrite Hsim, (checkLevelProgression_advances rt mid E), Hnext, Hstats in Hup.
  injection Hup as <-.
  unfold level_ready, on_entrance. rewrite Hp, Ht. exact Hready.
Qed.

Lemma update_throws (rt : Runtime) (timestamp : number) (g : Game) :
  gameState (engine g) = PLAYING ->
  update_simulation rt timestamp g = None -> update rt timestamp g = None.
Proof.
  intros Hplay Hsim. unfold update, bind at 1, get. rewrite Hplay.
  cbn [is_playing negb]. unfold bind. rewrite Hsim. reflexivity.
Qed.

Lemma frame_definedb_sound (rt : Runtime) (timestamp : number) (g : Game) :
  frame_definedb rt timestamp g = true -> frame_defined rt timestamp g.
Proof.
  unfold frame_definedb, frame_defined. intros H g1 Hmove. rewrite Hmove in H.
  apply Forall_forall. intros e He. rewrite forallb_forall in H.
  apply list_elem_of_In in He. apply H in He. apply negb_true_iff in He. exact He.
Qed.


(** With an enemy at the very position of the player the frame throws: the
    player stands on the exit of floor 4 and the shot would have killed the
    enemy, but the floor is not advanced. *)
Example enemy_on_player_throws :
  gameState (engine overlapped_game) = PLAYING /\
  exit_reached overlapped_game = true /\
  frame_definedb sample_runtime 16 overlapped_game = false /\
  update_simulation sample_runtime 16 overlapped_game = None /\
  update sample_runtime 16 overlapped_game = None.
Proof. repeat split; vm_compute; reflexivity. Qed.

(** A frame of [started_game], which has three enemies. *)
Example started_game_frame_defined : frame_defined sample_runtime 16 started_game.
Proof. apply frame_definedb_sound. vm_compute. reflexivity. Qed.

Lemma cleared_game_simulation :
  update_simulation sample_runtime 16 cleared_game = Some (tt, cleared_game_mid).
Proof. vm_compute. reflexivity. Qed.


(** * Further properties *)

(** ** Level generation *)



(** X2. In every level [generateLevel] builds, each of the 50x50 cells
    holds a tile that records its own coordinates and is walkable exactly
    when its type is not [wall]; the cells of the outermost rows and
    columns are walls, so the walkable area is enclosed. *)
Theorem generateLevel_enclosed (rt : Runtime) (g : Game)
  (Hrnd : random_in_range rt) :
  exists g',
    generateLevel rt g = Some (tt, g') /\
    forall x y, (0 <= x < levelWidth)%Z -> (0 <= y < levelHeight)%Z ->
      exists t,
        tile_at (tiles (engine g')) x y = Some t /\
        tile_x t = x /\ tile_y t = y /\
        walkable t = negb (is_wall (tile_type t)) /\
        (on_border x y = true -> tile_type t = TWall /\ walkable t = false).
Proof.
  destruct (generateLevel_ready rt g Hrnd) as ([] & g' & Hrun & [Hbuilt _] & _).
  exists g'. split; [exact Hrun|].
  destruct Hbuilt as (Hwf & Hco & _). intros x y Hx Hy.
  destruct (tile_at_wf _ x y Hwf Hx Hy) as [t Ht]. exists t.
  destruct (Hco _ _ _ Ht) as (H1 & H2 & H3 & H4).
  split; [exact Ht|]. split; [exact H1|]. split; [exact H2|]. split; [exact H3|].
  intros Hb. specialize (H4 Hb). split; [exact H4|]. rewrite H3, H4. reflexivity.
Qed.

Lemma generateLevel_enclosed_witness :
  exists g' t,
    generateLevel sample_runtime initial_game = Some (tt, g') /\
    tile_at (tiles (engine g')) 0 7 = Some t /\ tile_type t = TWall.
Proof.
  destruct (generateLevel_enclosed sample_runtime initial_game sample_random_in_range)
    as (g' & Hrun & Hcells).
  destruct (Hcells 0%Z 7%Z) as (t & Ht & _ & _ & _ & Hb);
    [unfold levelWidth; lia|unfold levelHeight; lia|].
  exists g', t. split; [exact Hrun|]. split; [exact Ht|]. apply Hb. reflexivity.
Defined.

(** ** Starting a run, changing floor *)

(** X3. [startGame] begins a fresh run whatever the state before: state
    [PLAYING], floor 1, no kills, the start time read from [Date.now()], a
    finished level, the default player (reset after the level has put it on
    the entrance, so it stands at the default position), no projectiles,
    and exactly the three non-boss enemies of floor 1, with consecutive new
    ids. *)
Theorem startGame_fresh_run (rt : Runtime) (g : Game)
  (Hrnd : random_in_range rt) :
  exists g',
    startGame rt g = Some (tt, g') /\
    gameState (engine g') = PLAYING /\
    currentFloor (engine g') = 1%Z /\
    enemiesKilled (engine g') = 0%Z /\
    startTime (engine g') = next_now rt g /\
    lastUpdateTime (engine g') = 0 /\
    level_built (tiles (engine g')) /\
    player (playerService g') = default_player /\
    playerStats (playerService g') = stats_of default_player /\
    projectiles (playerService g') = [] /\
    length (enemies (enemyService g')) = 3%nat /\
    Forall (fun e => e_type e <> boss) (enemies (enemyService g')) /\
    map e_id (enemies (enemyService g')) = seq (nextEnemyId (enemyService g)) 3 /\
    enemyProjectiles (enemyService g') = [].
Proof.
  assert (H : returns (startGame rt) g (fun _ g' =>
    gameState (engine g') = PLAYING /\
    currentFloor (engine g') = 1%Z /\
    enemiesKilled (engine g') = 0%Z /\
    startTime (engine g') = next_now rt g /\
    lastUpdateTime (engine g') = 0 /\
    level_built (tiles (engine g')) /\
    player (playerService g') = default_player /\
    playerStats (playerService g') = stats_of default_player /\
    projectiles (playerService g') = [] /\
    length (enemies (enemyService g')) = 3%nat /\
    Forall (fun e => e_type e <> boss) (enemies (enemyService g')) /\
    map e_id (enemies (enemyService g')) = seq (nextEnemyId (enemyService g)) 3 /\
    enemyProjectiles (enemyService g') = [])).
  { unfold startGame.
    apply returns_bind, returns_modify. apply returns_bind, returns_modify.
    apply returns_bind, returns_js_now.
    apply returns_bind, returns_modify. apply returns_bind, returns_modify.
    set (g0 := with_engine _ _).
    apply returns_bind. eapply returns_weaken; [apply generateLevel_ready, Hrnd|].
    intros u1 g1 [[Hbuilt _] Hch]. cbn beta.
    pose proof (level_changed_engine _ _ Hch) as (Hst & _ & Hfl & Hki & Hsta & Hlu & _).
    destruct Hch as (Hes & _ & _ & _).
    unfold resetPlayer, updatePlayerStats.
    apply returns_bind. apply returns_bind, returns_modify.
    apply returns_bind, returns_modify. apply returns_modify.
    set (g2 := with_playerService _ _).
    apply returns_bind, returns_get.
    change (currentFloor (engine g2)) with (currentFloor (engine g1)).
    rewrite Hfl. change (currentFloor (engine g0)) with 1%Z.
    apply returns_bind. eapply returns_weaken.
    { apply spawnEnemiesForFloor_returns; [exact Hrnd|apply Hbuilt]. }
    intros u2 g3 (He3 & Hp3 & Hpr3 & _ & new & Hen3 & Hlen & Htys & _ & Hseq).
    cbn beta. apply returns_modify.
    cbn in He3, Hp3, Hpr3, Hen3, Hseq.
    cbn [engine with_engine eng_with_gameState gameState currentFloor enemiesKilled
         startTime lastUpdateTime tiles playerService enemyService].
    rewrite He3, Hp3, Hen3, Hpr3, Hfl, Hki, Hsta, Hlu.
    split; [reflexivity|]. split; [reflexivity|]. split; [reflexivity|].
    split; [reflexivity|]. split; [reflexivity|]. split; [exact Hbuilt|].
    split; [reflexivity|]. split; [reflexivity|]. split; [reflexivity|].
    split; [exact Hlen|]. split.
    { eapply Forall_impl; [exact Htys|]. cbn. intros e [H|[H|H]]; rewrite H; discriminate. }
    split; [|reflexivity].
    rewrite Hseq, Hes. reflexivity. }
  destruct H as ([] & g' & Hrun & H). exists g'. split; [exact Hrun|exact H].
Qed.

Lemma startGame_fresh_run_witness :
  exists g',
    startGame sample_runtime initial_game = Some (tt, g') /\
    gameState (engine g') = PLAYING /\
    player (playerService g') = default_player /\
    length (enemies (enemyService g')) = 3%nat.
Proof.
  destruct (startGame_fresh_run sample_runtime initial_game sample_random_in_range)
    as (g' & Hrun & Hstate & _ & _ & _ & _ & _ & Hp & _ & _ & Hlen & _).
  exists g'. auto.
Defined.

(** X4. [nextFloor] adds 1 to the floor and leaves a finished level with
    the player on the centre of its entrance, hence not on the exit: the
    floor cannot advance again before the player has moved.  Of the player
    it changes the position only (health, xp, level and upgrades carry
    over), and neither the game state nor the kill counter. *)
Theorem nextFloor_keeps_player (rt : Runtime) (g : Game)
  (Hrnd : random_in_range rt) :
  exists g',
    nextFloor rt g = Some (tt, g') /\
    currentFloor (engine g') = (currentFloor (engine g) + 1)%Z /\
    level_ready g' /\
    exit_reached g' = false /\
    playerService g' =
      ps_with_player
        (pl_with_pos (p_x (player (playerService g')))
                     (p_y (player (playerService g')))
                     (player (playerService g)))
        (playerService g) /\
    gameState (engine g') = gameState (engine g) /\
    enemiesKilled (engine g') = enemiesKilled (engine g) /\
    (nextEnemyId (enemyService g) <= nextEnemyId (enemyService g'))%nat.
Proof.
  destruct (nextFloor_ready rt g Hrnd) as ([] & g' & Hrun & Hfl & Hready & Hrest).
  exists g'. split; [exact Hrun|]. split; [exact Hfl|]. split; [exact Hready|].
  split; [apply level_ready_not_on_exit, Hready|exact Hrest].
Qed.

Lemma nextFloor_keeps_player_witness :
  exists g',
    nextFloor sample_runtime started_game = Some (tt, g') /\
    currentFloor (engine g') = 2%Z /\
    exit_reached g' = false /\
    p_health (player (playerService g')) = 100.
Proof.
  destruct (nextFloor_keeps_player sample_runtime started_game sample_random_in_range)
    as (g' & Hrun & Hfl & _ & Hexit & Hps & _).
  exists g'. split; [exact Hrun|]. split; [exact Hfl|]. split; [exact Hexit|].
  rewrite Hps. reflexivity.
Defined.

(** ** Death and level-up *)

Lemma frames_idle (rt : Runtime) (timestamps : list number) (g : Game) :
  gameState (engine g) <> PLAYING ->
  forM_ timestamps (update rt) g = Some (tt, g).
Proof.
  intros H. induction timestamps as [|t ts IH]; [reflexivity|].
  cbn [forM_]. unfold bind. rewrite (update_idle rt t g H). exact IH.
Qed.

Lemma Qmax_0_nonpos (x : Q) : x <= 0 -> Qmax 0 x == 0.
Proof. intros H. apply Q.max_l, H. Qed.

Lemma takeDamage_lethal (damage : number) (g : Game) :
  p_health (player (playerService g)) <= damage ->
  exists g',
    takeDamage damage g = Some (tt, g') /\
    gameState (engine g') = GAME_OVER /\
    p_health (player (playerService g')) == 0 /\
    playerStats (playerService g') = stats_of (player (playerService g')) /\
    p_xp (player (playerService g')) = p_xp (player (playerService g)) /\
    p_level (player (playerService g')) = p_level (player (playerService g)) /\
    enemyService g' = enemyService g.
Proof.
  intros Hlethal.
  assert (Hz : Qmax 0 (p_health (player (playerService g)) - damage) == 0)
    by (apply Qmax_0_nonpos; lra).
  assert (Hb : Qle_bool (Qmax 0 (p_health (player (playerService g)) - damage)) 0 = true)
    by (apply Qle_bool_iff; rewrite Hz; apply Qle_refl).
  unfold takeDamage, updatePlayerStats, onPlayerDeath, stopGame. run.
  rewrite Hb. run.
  eexists. split; [reflexivity|]. cbn. repeat split. exact Hz.
Qed.

Lemma gainXP_levels_up (rt : Runtime) (amount : number) (g : Game) :
  getXPRequirement (p_level (player (playerService g)))
    <= p_xp (player (playerService g)) + amount ->
  exists g',
    gainXP rt amount g = Some (tt, g') /\
    gameState (engine g') = LEVEL_UP /\
    p_health (player (playerService g')) = p_health (player (playerService g)).
Proof.
  intros Hxp. apply Qgeb_spec in Hxp.
  unfold gainXP, levelUp, showLevelUpScreen, generateLevelUpOptions, updatePlayerStats.
  run. rewrite Hxp. run.
  destruct (sort_random rt (random_calls g) allUpgrades) as [shuffled n]. run.
  eexists. split; [reflexivity|]. split; reflexivity.
Qed.

Lemma selectUpgrade_resumes (rt : Runtime) (upgrade : UpgradeId) (g : Game) :
  exists g',
    selectUpgrade rt upgrade g = Some (tt, g') /\
    gameState (engine g') = PLAYING /\
    p_health (player (playerService g')) =
      match upgrade with
      | U_health => p_health (player (playerService g)) + 20
      | _ => p_health (player (playerService g))
      end.
Proof.
  unfold selectUpgrade.
  destruct upgrade; cbn [upgrade_effect];
    unfold upgradeMaxHealth, upgradeDamage, upgradeSpeed, upgradeAttackSpeed,
      enableRegeneration, updatePlayerStats, js_now; run;
    eexists; (split; [reflexivity|]); split; reflexivity.
Qed.

(** X5. Damage of at least the player's health ends the run: the health
    is clamped to 0, also in the published stats, the state becomes
    [GAME_OVER], the enemies are untouched, and from then on every frame
    leaves the whole state as it is. *)
Theorem lethal_damage_ends_the_run (rt : Runtime) (damage : number) (g : Game)
  (Hlethal : p_health (player (playerService g)) <= damage) :
  exists g',
    takeDamage damage g = Some (tt, g') /\
    gameState (engine g') = GAME_OVER /\
    p_health (player (playerService g')) == 0 /\
    st_health (playerStats (playerService g')) == 0 /\
    enemyService g' = enemyService g /\
    forall timestamps, forM_ timestamps (update rt) g' = Some (tt, g').
Proof.
  destruct (takeDamage_lethal damage g Hlethal)
    as (g' & Hrun & Hstate & Hz & Hstats & _ & _ & Hes).
  exists g'. split; [exact Hrun|]. split; [exact Hstate|]. split; [exact Hz|].
  split; [rewrite Hstats; exact Hz|]. split; [exact Hes|].
  intros ts. apply frames_idle. rewrite Hstate. discriminate.
Qed.

Lemma lethal_damage_ends_the_run_witness :
  exists g',
    takeDamage 100 started_game = Some (tt, g') /\
    gameState (engine g') = GAME_OVER /\
    forM_ [16; 32; 48] (update sample_runtime) g' = Some (tt, g').
Proof.
  destruct (lethal_damage_ends_the_run sample_runtime 100 started_game)
    as (g' & Hrun & Hstate & _ & _ & _ & Hidle).
  - vm_compute. discriminate.
  - exists g'. split; [exact Hrun|]. split; [exact Hstate|apply Hidle].
Defined.

(** X6. Death does not stop experience: a dead player ([GAME_OVER], health
    0) who is given enough xp, as by a shot that lands later in the same
    frame, goes to [LEVEL_UP], and the choice of an upgrade resumes
    [PLAYING] with health 0, or 20 after the health upgrade. *)
Theorem level_up_after_death_resumes_play (rt : Runtime) (damage amount : number)
  (upgrade : UpgradeId) (g : Game)
  (Hlethal : p_health (player (playerService g)) <= damage)
  (Hxp : getXPRequirement (p_level (player (playerService g)))
         <= p_xp (player (playerService g)) + amount) :
  exists g1 g2 g3,
    takeDamage damage g = Some (tt, g1) /\
    gameState (engine g1) = GAME_OVER /\
    gainXP rt amount g1 = Some (tt, g2) /\
    gameState (engine g2) = LEVEL_UP /\
    selectUpgrade rt upgrade g2 = Some (tt, g3) /\
    gameState (engine g3) = PLAYING /\
    p_health (player (playerService g3)) ==
      match upgrade with U_health => 20 | _ => 0 end.
Proof.
  destruct (takeDamage_lethal damage g Hlethal)
    as (g1 & Hrun1 & Hstate1 & Hz & _ & Hxp1 & Hlv1 & _).
  destruct (gainXP_levels_up rt amount g1) as (g2 & Hrun2 & Hstate2 & Hh2).
  { rewrite Hxp1, Hlv1. exact Hxp. }
  destruct (selectUpgrade_resumes rt upgrade g2) as (g3 & Hrun3 & Hstate3 & Hh3).
  exists g1, g2, g3. repeat (split; [assumption|]).
  rewrite Hh3. destruct upgrade; rewrite Hh2, Hz; reflexivity.
Qed.

Lemma level_up_after_death_resumes_play_witness :
  exists g1 g2 g3,
    takeDamage 150 started_game = Some (tt, g1) /\
    gameState (engine g1) = GAME_OVER /\
    gainXP sample_runtime 100 g1 = Some (tt, g2) /\
    gameState (engine g2) = LEVEL_UP /\
    selectUpgrade sample_runtime U_damage g2 = Some (tt, g3) /\
    gameState (engine g3) = PLAYING /\
    p_health (player (playerService g3)) == 0.
Proof.
  apply (level_up_after_death_resumes_play sample_runtime 150 100 U_damage started_game).
  - vm_compute. discriminate.
  - vm_compute. discriminate.
Defined.

(** X7. When [Array.prototype.sort] rearranges its array, the level-up
    screen offers exactly three upgrades, pairwise distinct, all from the
    catalogue of five, and touches neither the player nor the enemies. *)
Theorem level_up_offers_three_upgrades (rt : Runtime) (g : Game)
  (Hsort : sort_permutes rt) :
  exists g',
    showLevelUpScreen rt g = Some (tt, g') /\
    gameState (engine g') = LEVEL_UP /\
    length (levelUpOptions (engine g')) = 3%nat /\
    List.NoDup (levelUpOptions (engine g')) /\
    (forall u, In u (levelUpOptions (engine g')) -> In u allUpgrades) /\
    playerService g' = playerService g /\
    enemyService g' = enemyService g.
Proof.
  pose proof (Hsort (random_calls g) allUpgrades) as Hperm.
  unfold showLevelUpScreen, generateLevelUpOptions. run.
  destruct (sort_random rt (random_calls g) allUpgrades) as [shuffled n].
  cbn [fst] in Hperm. run.
  eexists. split; [reflexivity|]. cbn.
  split; [reflexivity|].
  assert (Hlen : length shuffled = 5%nat) by (rewrite (Permutation_length Hperm); reflexivity).
  assert (Hnd : List.NoDup shuffled).
  { eapply Permutation_NoDup; [symmetry; exact Hperm|].
    unfold allUpgrades. repeat constructor; cbn; intuition discriminate. }
  split; [rewrite length_take; lia|].
  split; [apply NoDup_ListNoDup; eapply sublist_NoDup;
          [apply NoDup_ListNoDup, Hnd|apply sublist_take]|].
  split; [|split; reflexivity].
  intros u Hu. apply (Permutation_in (l:=shuffled) (l':=allUpgrades) u Hperm).
  apply list_elem_of_In. eapply elem_of_sublist; [|apply (sublist_take _ 3)].
  apply list_elem_of_In. exact Hu.
Qed.

Lemma sample_sort_permutes : sort_permutes sample_runtime.
Proof. intros n l. cbn. symmetry. apply Permutation_rev. Qed.

Lemma level_up_offers_three_upgrades_witness :
  exists g',
    showLevelUpScreen sample_runtime started_game = Some (tt, g') /\
    length (levelUpOptions (engine g')) = 3%nat.
Proof.
  destruct (level_up_offers_three_upgrades sample_runtime started_game)
    as (g' & Hrun & _ & Hlen & _).
  - exact sample_sort_permutes.
  - exists g'. split; [exact Hrun|exact Hlen].
Defined.

Lemma checkPlayerWallCollision_noop (g : Game) :
  wf_grid (tiles (engine g)) -> checkPlayerWallCollision g = Some (tt, g).
Proof.
  intros Hwf. unfold checkPlayerWallCollision, bind at 1, get. cbv zeta.
  destruct (in_level _ _) eqn:Ein; cbn [when]; [|reflexivity].
  apply in_level_spec in Ein as [Hx Hy].
  destruct (tile_at_wf _ _ _ Hwf Hx Hy) as [t Ht].
  unfold bind. rewrite Ht. cbn [lift_option]. unfold ret, handleWallCollision.
  destruct (negb (walkable t)); reflexivity.
Qed.

Lemma handleMovement_with_tiles (rt : Runtime) (deltaTime : number) (tl : grid) (g : Game) :
  exists g',
    handleMovement rt deltaTime g = Some (tt, g') /\
    handleMovement rt deltaTime (with_tiles tl g) = Some (tt, with_tiles tl g') /\
    tiles (engine g') = tiles (engine g).
Proof.
  unfold handleMovement. run.
  destruct (Qneqb (mouseX (currentInput (playerService g))) 0
            || Qneqb (mouseY (currentInput (playerService g))) 0); run;
    eexists; (split; [reflexivity|]); split; reflexivity.
Qed.

(** X8. Movement ignores the walls: [handleMovement] does not read the
    tiles, and the wall collision that follows it ([handleWallCollision] is
    empty) changes nothing, so the player ends at the same place whatever
    the level. *)
Theorem movement_ignores_walls (rt : Runtime) (deltaTime : number) (tl : grid) (g : Game)
  (Hwf : wf_grid (tiles (engine g)))
  (Hwf' : wf_grid tl) :
  exists g1 g2,
    (handleMovement rt deltaTime >> checkPlayerWallCollision) g = Some (tt, g1) /\
    (handleMovement rt deltaTime >> checkPlayerWallCollision) (with_tiles tl g)
      = Some (tt, g2) /\
    playerService g1 = playerService g2.
Proof.
  destruct (handleMovement_with_tiles rt deltaTime tl g) as (g' & H1 & H2 & Ht).
  exists g', (with_tiles tl g'). unfold bind. rewrite H1, H2.
  rewrite !checkPlayerWallCollision_noop; [auto| exact Hwf' | rewrite Ht; exact Hwf].
Qed.

Lemma movement_ignores_walls_witness :
  exists g1 g2,
    (handleMovement sample_runtime 16 >> checkPlayerWallCollision) started_game
      = Some (tt, g1) /\
    (handleMovement sample_runtime 16 >> checkPlayerWallCollision)
      (with_tiles wall_grid started_game) = Some (tt, g2) /\
    playerService g1 = playerService g2.
Proof.
  apply (movement_ignores_walls sample_runtime 16 wall_grid started_game).
  - apply wf_gridb_sound. vm_compute. reflexivity.
  - apply wall_grid_generating.
Defined.

(** ** The sweep of the player's projectiles *)

(** X9. [checkProjectileEnemyCollision] splits the player's projectiles:
    those in reach of some enemy are removed, each reporting one hit, in
    order, on the first enemy of the array in reach, with the projectile's
    damage; the others stay, in order.  Without enemies nothing is hit. *)
Theorem projectile_hits_partition (rt : Runtime) (enemies : list Enemy) (g : Game) :
  let ps := projectiles (playerService g) in
  exists hits,
    checkProjectileEnemyCollision rt enemies g
      = Some (hits, with_playerService
                      (ps_with_projectiles (List.filter (fun p => negb (hits_some rt enemies p)) ps))
                      g) /\
    Forall2 (fun p hit => exists e, first_hit rt p enemies = Some e /\
                                    In e enemies /\
                                    hit = (e_id e, pr_damage p))
            (List.filter (hits_some rt enemies) ps) hits /\
    (length (List.filter (fun p => negb (hits_some rt enemies p)) ps) + length hits
     = length ps)%nat /\
    (enemies = [] -> hits = []).
Proof.
  intros ps.
  assert (H : exists hits,
    scan_hits rt ps enemies =
      (List.filter (fun p => negb (hits_some rt enemies p)) ps, hits) /\
    Forall2 (fun p hit => exists e, first_hit rt p enemies = Some e /\
                                    In e enemies /\
                                    hit = (e_id e, pr_damage p))
            (List.filter (hits_some rt enemies) ps) hits /\
    (length (List.filter (fun p => negb (hits_some rt enemies p)) ps) + length hits
     = length ps)%nat).
  { induction ps as [|p ps (hits & Hscan & Hall & Hlen)].
    - exists []. repeat split. constructor.
    - cbn [scan_hits List.filter]. rewrite Hscan.
      assert (Hp : hits_some rt enemies p =
                   match first_hit rt p enemies with Some _ => true | None => false end)
        by reflexivity.
      destruct (first_hit rt p enemies) as [e|] eqn:E; rewrite Hp; cbn [negb].
      + exists ((e_id e, pr_damage p) :: hits). split; [reflexivity|]. split.
        * constructor; [|exact Hall]. exists e. split; [exact E|]. split; [|reflexivity].
          unfold first_hit in E. apply List.find_some in E. tauto.
        * cbn [length]. lia.
      + exists hits. split; [reflexivity|]. split; [exact Hall|]. cbn [length]. lia. }
  destruct H as (hits & Hscan & Hall & Hlen).
  exists hits. split; [|split; [exact Hall|split; [exact Hlen|]]].
  - unfold checkProjectileEnemyCollision. run. fold ps. rewrite Hscan. reflexivity.
  - intros ->. clear Hscan Hlen.
    assert (Hnone : List.filter (hits_some rt []) ps = []).
    { clear Hall. induction ps as [|p ps IH]; [reflexivity|exact IH]. }
    rewrite Hnone in Hall. inversion Hall. reflexivity.
Qed.

Lemma gainXP_frame (rt : Runtime) (amount : number) (g : Game) :
  returns (gainXP rt amount) g (fun _ g' =>
    player (playerService g') = xp_gained amount (player (playerService g)) /\
    projectiles (playerService g') = projectiles (playerService g) /\
    enemyService g' = enemyService g /\
    enemiesKilled (engine g') = enemiesKilled (engine g) /\
    tiles (engine g') = tiles (engine g) /\
    currentFloor (engine g') = currentFloor (engine g)).
Proof.
  unfold returns, gainXP, levelUp, showLevelUpScreen, generateLevelUpOptions,
    updatePlayerStats, getPlayer, bind, modify, get, ret, xp_gained.
  cbn beta iota. cbn [player playerService with_player with_playerService ps_with_player
                      p_xp p_level pl_with_xp].
  destruct (Qgeb _ _); cbn [when].
  - destruct (sort_random _ _ _) as [shuffled k].
    eexists _, _. split; [reflexivity|]. repeat split.
  - eexists _, _. split; [reflexivity|]. repeat split.
Qed.

Lemma killEnemy_frame (rt : Runtime) (enemy : Enemy) (g : Game) :
  returns (killEnemy rt enemy) g (fun _ g' =>
    player (playerService g') = xp_gained (e_xpValue enemy) (player (playerService g)) /\
    projectiles (playerService g') = projectiles (playerService g) /\
    enemies (enemyService g') = remove_first_id (e_id enemy) (enemies (enemyService g)) /\
    enemyProjectiles (enemyService g') = enemyProjectiles (enemyService g) /\
    nextEnemyId (enemyService g') = nextEnemyId (enemyService g) /\
    enemiesKilled (engine g') = (enemiesKilled (engine g) + 1)%Z /\
    tiles (engine g') = tiles (engine g) /\
    currentFloor (engine g') = currentFloor (engine g)).
Proof.
  unfold killEnemy, onEnemyKilled.
  apply returns_bind. eapply returns_weaken; [apply gainXP_frame|].
  intros u g1 (Hp & Hpr & Hes & Hk & Ht & Hf). cbn beta.
  apply returns_bind, returns_modify. apply returns_modify.
  cbn. rewrite Hes, Hk. repeat split; assumption.
Qed.

Lemma find_id_removed (id : nat) (l : list Enemy) :
  List.NoDup (map e_id l) -> find_id id (remove_first_id id l) = None.
Proof.
  unfold find_id. induction l as [|e l IH]; intros Hnd; [reflexivity|].
  cbn [map] in Hnd. apply List.NoDup_cons_iff in Hnd as [Hnotin Hnd].
  cbn [remove_first_id]. destruct (Nat.eqb_spec (e_id e) id) as [Heq|Hne].
  - destruct (List.find _ l) as [e'|] eqn:E; [|reflexivity].
    apply List.find_some in E as [Hin Hid]. apply Nat.eqb_eq in Hid.
    exfalso. apply Hnotin. rewrite Heq, <- Hid. apply in_map, Hin.
  - cbn [List.find]. rewrite (proj2 (Nat.eqb_neq _ _) Hne). apply IH, Hnd.
Qed.

Lemma map_id_replace (e' : Enemy) (l : list Enemy) :
  map e_id (replace_id e' l) = map e_id l.
Proof.
  induction l as [|e l IH]; [reflexivity|]. cbn [replace_id].
  destruct (Nat.eqb_spec (e_id e) (e_id e')) as [Heq|Hne]; cbn [map]; congruence.
Qed.

Lemma find_id_unique (e : Enemy) (l : list Enemy) :
  List.NoDup (map e_id l) -> In e l -> find_id (e_id e) l = Some e.
Proof.
  unfold find_id. induction l as [|e0 l IH]; intros Hnd Hin; [contradiction|].
  cbn [map] in Hnd. apply List.NoDup_cons_iff in Hnd as [Hnotin Hnd].
  cbn [List.find]. destruct Hin as [->|Hin].
  - rewrite Nat.eqb_refl. reflexivity.
  - destruct (Nat.eqb_spec (e_id e0) (e_id e)) as [Heq|Hne]; [|apply IH; assumption].
    exfalso. apply Hnotin. rewrite Heq. apply in_map, Hin.
Qed.

Lemma length_remove_first_id (id : nat) (l : list Enemy) :
  is_Some (find_id id l) -> length (remove_first_id id l) = pred (length l).
Proof.
  unfold find_id. induction l as [|e l IH]; intros [e' H]; [discriminate|].
  cbn [remove_first_id List.find] in *.
  destruct (e_id e =? id)%nat; [reflexivity|].
  cbn [length]. rewrite IH by eauto.
  destruct l; [discriminate|reflexivity].
Qed.

(** X10. Two shots that reach the same enemy in one sweep, the first
    lethal: the second hit finds the enemy object already spliced out of
    the array and kills it again.  The array loses one enemy, but the kill
    counter goes up by 2 and the player gains the xp twice. *)
Theorem second_hit_on_dead_enemy_counts_again (rt : Runtime) (g : Game) (e : Enemy)
  (p1 p2 : Projectile)
  (Hids : unique_ids g)
  (Hnone : enemyProjectiles (enemyService g) = [])
  (Hshots : projectiles (playerService g) = [p1; p2])
  (Hhit1 : first_hit rt p1 (enemies (enemyService g)) = Some e)
  (Hhit2 : first_hit rt p2 (enemies (enemyService g)) = Some e)
  (Hlethal : e_health e <= pr_damage p1)
  (Hdamage : 0 <= pr_damage p2) :
  exists g',
    EnemyService_checkProjectileCollisions rt g = Some (tt, g') /\
    enemies (enemyService g') = remove_first_id (e_id e) (enemies (enemyService g)) /\
    length (enemies (enemyService g')) = pred (length (enemies (enemyService g))) /\
    enemiesKilled (engine g') = (enemiesKilled (engine g) + 2)%Z /\
    player (playerService g') =
      xp_gained (e_xpValue e) (xp_gained (e_xpValue e) (player (playerService g))) /\
    projectiles (playerService g') = [].
Proof.
  assert (Hin : In e (enemies (enemyService g))).
  { unfold first_hit in Hhit1. apply List.find_some in Hhit1. tauto. }
  pose proof (find_id_unique e _ Hids Hin) as Hlive.
  assert (H : returns (EnemyService_checkProjectileCollisions rt) g (fun _ g' =>
    enemies (enemyService g') = remove_first_id (e_id e) (enemies (enemyService g)) /\
    enemiesKilled (engine g') = (enemiesKilled (engine g) + 2)%Z /\
    player (playerService g') =
      xp_gained (e_xpValue e) (xp_gained (e_xpValue e) (player (playerService g))) /\
    projectiles (playerService g') = [])).
  { unfold EnemyService_checkProjectileCollisions.
    apply returns_bind, returns_get. rewrite Hnone. cbn [filterM].
    apply returns_bind, returns_ret. apply returns_bind, returns_modify.
    apply returns_bind, returns_get.
    unfold checkProjectileEnemyCollision.
    apply returns_bind, returns_bind, returns_get.
    cbn [with_enemyService enemyService playerService es_with_enemyProjectiles enemies].
    rewrite Hshots. cbn [scan_hits]. rewrite Hhit1, Hhit2.
    apply returns_bind, returns_modify. apply returns_ret.
    set (g0 := with_playerService _ _).
    assert (Hen0 : enemies (enemyService g0) = enemies (enemyService g)) by reflexivity.
    cbn [apply_hits].
    (* first hit: the enemy dies and is spliced out *)
    apply returns_bind. unfold damageEnemy at 1.
    apply returns_bind, returns_get. rewrite Hen0, Hlive.
    set (e1 := en_with_health (e_health e - pr_damage p1) e).
    assert (Hdead1 : Qle_bool (e_health e1) 0 = true)
      by (apply Qle_bool_iff; cbn; lra).
    apply returns_bind, returns_modify. rewrite Hdead1.
    apply returns_bind. eapply returns_weaken; [apply killEnemy_frame|].
    intros u1 g1 (Hp1 & Hpr1 & Hen1 & _ & _ & Hk1 & _). cbn beta.
    cbn [with_enemyService enemyService es_with_enemies enemies] in Hen1.
    rewrite Hen0, remove_replace in Hen1. change (e_id e1) with (e_id e) in Hen1.
    apply returns_ret.
    (* second hit: the same object, no longer in the array *)
    apply returns_bind. unfold damageEnemy.
    apply returns_bind, returns_get. rewrite Hen1, (find_id_removed _ _ Hids).
    change (find_id (e_id e) [e1]) with
      (if Nat.eqb (e_id e) (e_id e) then Some e1 else None).
    rewrite Nat.eqb_refl.
    set (e2 := en_with_health (e_health e1 - pr_damage p2) e1).
    assert (Hdead2 : Qle_bool (e_health e2) 0 = true)
      by (apply Qle_bool_iff; cbn; lra).
    rewrite Hdead2. cbn [when].
    apply returns_bind. eapply returns_weaken; [apply killEnemy_frame|].
    intros u2 g2 (Hp2 & Hpr2 & Hen2 & _ & _ & Hk2 & _). cbn beta.
    apply returns_ret. apply returns_ret.
    change (e_id e2) with (e_id e) in Hen2.
    rewrite Hen1, (find_id_None_remove _ _ (find_id_removed _ _ Hids)) in Hen2.
    split; [exact Hen2|]. split; [rewrite Hk2, Hk1; cbn; lia|].
    split; [rewrite Hp2, Hp1; reflexivity|].
    rewrite Hpr2, Hpr1. reflexivity. }
  destruct H as ([] & g' & Hrun & Hen & Hk & Hp & Hpr).
  exists g'. split; [exact Hrun|]. split; [exact Hen|]. split; [|auto].
  rewrite Hen. apply length_remove_first_id. rewrite Hlive. eauto.
Qed.

Lemma second_hit_on_dead_enemy_counts_again_witness :
  exists g',
    EnemyService_checkProjectileCollisions sample_runtime double_hit_game = Some (tt, g') /\
    enemies (enemyService g') = [] /\
    enemiesKilled (engine g') = 2%Z.
Proof.
  destruct (second_hit_on_dead_enemy_counts_again sample_runtime double_hit_game
              sample_boss heavy_shot heavy_shot)
    as (g' & Hrun & Hen & _ & Hk & _).
  - unfold unique_ids. cbn. repeat constructor. intros [].
  - reflexivity.
  - reflexivity.
  - vm_compute. reflexivity.
  - vm_compute. reflexivity.
  - vm_compute. discriminate.
  - vm_compute. discriminate.
  - exists g'. split; [exact Hrun|]. split; [exact Hen|exact Hk].
Defined.

(** ** The enemy AI at distance 0 *)

Lemma js_div_nan (a b : number) : a == 0 -> b == 0 -> js_div a b = NaN.
Proof.
  intros Ha Hb. unfold js_div.
  rewrite (proj2 (Qeq_bool_iff b 0) Hb), (proj2 (Qeq_bool_iff a 0) Ha). reflexivity.
Qed.

Lemma Qltb_zero (d c : number) : d == 0 -> 0 < c -> Qltb d c = true.
Proof.
  intros Hd Hc. unfold Qltb. apply negb_true_iff.
  destruct (Qle_bool c d) eqn:E; [|reflexivity].
  apply Qle_bool_iff in E. lra.
Qed.

(** X11. An enemy exactly at the player's position is at distance 0: the
    components of its chase vector are [0/0], which is NaN, and
    [isWalkable] is asked for the tile at index NaN, a property read on
    [undefined].  The AI throws, whatever the type of the enemy, the frame
    time and the level. *)
Theorem updateEnemyAI_on_player_throws (rt : Runtime) (enemy : Enemy)
  (deltaTime : number) (g : Game)
  (Hx : e_x enemy == p_x (player (playerService g)))
  (Hy : e_y enemy == p_y (player (playerService g)))
  (Hzero : distance_to rt (player (playerService g)) enemy == 0) :
  updateEnemyAI rt enemy deltaTime g = None.
Proof.
  unfold distance_to in Hzero. cbv zeta in Hzero.
  assert (Hdx : p_x (player (playerService g)) - e_x enemy == 0) by lra.
  assert (Hdy : p_y (player (playerService g)) - e_y enemy == 0) by lra.
  assert (Hdx' : e_x enemy - p_x (player (playerService g)) == 0) by lra.
  assert (Hdy' : e_y enemy - p_y (player (playerService g)) == 0) by lra.
  unfold updateEnemyAI, getPlayer, bind, get, ret. cbv beta iota zeta.
  set (d := Math_sqrt rt _) in *.
  destruct (e_type enemy).
  - unfold updateMeleeAI. rewrite (Qltb_zero d 150 Hzero) by lra.
    unfold getPlayer, bind, get, ret. cbv beta zeta.
    rewrite (js_div_nan _ _ Hdx Hzero), (js_div_nan _ _ Hdy Hzero). reflexivity.
  - unfold updateRangedAI. rewrite (Qltb_zero d 200 Hzero), (Qltb_zero d 80 Hzero) by lra.
    unfold getPlayer, bind, get, ret. cbv beta zeta.
    rewrite (js_div_nan _ _ Hdx' Hzero), (js_div_nan _ _ Hdy' Hzero). reflexivity.
  - unfold updateFastAI. rewrite (Qltb_zero d 180 Hzero) by lra.
    unfold getPlayer, bind, get, ret. cbv beta zeta.
    rewrite (js_div_nan _ _ Hdx Hzero), (js_div_nan _ _ Hdy Hzero). reflexivity.
  - unfold updateBossAI. rewrite (Qltb_zero d 300 Hzero) by lra.
    unfold js_now, js_random, getPlayer, bind, get, ret. cbv beta zeta.
    destruct (Qgtb _ _); cbv beta iota zeta;
      cbn [playerService player en_with_patrol e_x e_y e_speed e_patrolDirection];
      rewrite (js_div_nan _ _ Hdx Hzero), (js_div_nan _ _ Hdy Hzero); reflexivity.
Qed.

Lemma updateEnemyAI_on_player_throws_witness :
  updateEnemyAI sample_runtime (en_with_pos 400 300 sample_boss) (16 / 1000) initial_game
    = None.
Proof.
  apply updateEnemyAI_on_player_throws.
  - vm_compute. reflexivity.
  - vm_compute. reflexivity.
  - vm_compute. reflexivity.
Defined.
